(** * Disaster-simulation coordination core: message bus, environment, agents

    A shallow embedding of [backend/message_bus.py], [backend/environment.py]
    and the five agents under [backend/agents/], followed by the properties
    of the specification that were checked against it.

    Conventions of the embedding.
    - Python [int] is [Z]; a Python [float] is an exact rational [Q]
      (idealised arithmetic: no rounding).  All float constants of the
      source are decimal literals; on the built-in city graph every edge
      distance is a multiple of 0.5, for which float sums are exact anyway.
    - A [dict] used as a map is a [gmap]; a [dict] used as a JSON-like
      payload is a [pyval] association list in insertion order.
    - The [random] module is a tape of raw draws read at a position that
      every call advances; every function that draws threads the position.
    - The locks ([threading.RLock]) serialise whole calls, so every
      operation is a function from the state before to the state after. *)

From Stdlib Require Import ZArith QArith Qround Qminmax Qabs Lia Lqa.
From stdpp Require Import base numbers gmap strings list fin_maps pretty sorting.

Local Open Scope Z_scope.
Set Warnings "-register-all,-clear-no-such-hyp".

(* ===================================================================== *)
(** * Python values and helpers *)
(* ===================================================================== *)

(** JSON-like values carried in intents and message payloads. *)
Inductive pyval : Type :=
  | PNone
  | PBool (b : bool)
  | PInt (z : Z)
  | PFloat (q : Q)
  | PStr (s : string)
  | PList (l : list pyval)
  | PDict (d : list (string * pyval)).

(** Python truthiness, as used by [payload or {}] and [if path:]. *)
Definition truthy (v : pyval) : bool :=
  match v with
  | PNone => false
  | PBool b => b
  | PInt z => negb (z =? 0)
  | PFloat q => negb (Qeq_bool q 0)
  | PStr s => negb (String.eqb s "")
  | PList l => negb (Nat.eqb (length l) 0)
  | PDict d => negb (Nat.eqb (length d) 0)
  end.

(** [d.get(k)] on a payload dictionary. *)
Fixpoint dict_get (k : string) (d : list (string * pyval)) : option pyval :=
  match d with
  | [] => None
  | (k', v) :: r => if String.eqb k k' then Some v else dict_get k r
  end.

(** [d[k] = v]: overwrite in place, or append a new key at the end. *)
Fixpoint dict_set (k : string) (v : pyval) (d : list (string * pyval))
  : list (string * pyval) :=
  match d with
  | [] => [(k, v)]
  | (k', v') :: r =>
      if String.eqb k k' then (k, v) :: r else (k', v') :: dict_set k v r
  end.

(** [l[s:]] with Python's slice rules: a negative start counts from the
    end and is clamped at 0, a start past the end gives the empty list. *)
Definition py_slice_from {A} (s : Z) (l : list A) : list A :=
  let n := Z.of_nat (length l) in
  let start := if s <? 0 then Z.max (n + s) 0 else Z.min s n in
  drop (Z.to_nat start) l.

(** [l[:e]] with the same rules. *)
Definition py_slice_to {A} (e : Z) (l : list A) : list A :=
  let n := Z.of_nat (length l) in
  let stop := if e <? 0 then Z.max (n + e) 0 else Z.min e n in
  take (Z.to_nat stop) l.

(** [int(x)] on a float: truncation towards zero. *)
Definition py_int (x : Q) : Z := Z.quot (Qnum x) (Zpos (Qden x)).

(** [x // y] on floats, then read as an integer: the floor of the quotient. *)
Definition py_floordiv (x y : Q) : Z := Qfloor (x / y).

(** [round(x, 2)]: nearest multiple of 1/100, ties to the even one. *)
Definition py_round2 (x : Q) : Q :=
  let s := (x * 100)%Q in
  let f := Qfloor s in
  let r := (s - inject_Z f)%Q in
  let n := match Qcompare r (1 # 2) with
           | Lt => f
           | Gt => f + 1
           | Eq => if Z.even f then f else f + 1
           end in
  (n # 100)%Q.

(** [f"{x:.2f}"] for the values the agents print. *)
Definition format_2f (x : Q) : string :=
  let n := Qnum (py_round2 (Qabs x)) in
  let frac := n mod 100 in
  let sign : string :=
    if Qlt_le_dec x 0 then (if Z.eqb n 0 then "" else "-") else "" in
  let pad : string := if Z.ltb frac 10 then "0" else "" in
  sign +:+ pretty (n / 100) +:+ "." +:+ pad +:+ pretty frac.

(* ===================================================================== *)
(** * backend/message_bus.py *)
(* ===================================================================== *)

Module MessageBus.

Record Message : Type := mkMessage {
  msg_id : Z;
  msg_type : string;
  msg_sender : string;
  msg_payload : pyval;
  msg_priority : Z;
  msg_ts : Q
}.

(** [_history] is a [deque(maxlen=max_history)]: [history] holds its
    contents oldest first. *)
Record t : Type := mkBus {
  max_history : nat;
  messages : list Message;
  history : list Message;
  message_id_counter : Z;
  consumer_offsets : gmap string Z
}.

(** [MessageBus(max_history)]. *)
Definition new (max_history : nat) : t :=
  mkBus max_history [] [] 0 ∅.

(** [deque.append] on a bounded deque: the oldest entries fall off. *)
Definition deque_append {A} (maxlen : nat) (x : A) (d : list A) : list A :=
  let d' := d ++ [x] in
  drop (length d' - maxlen)%nat d'.

(** [send(sender, msg_type, payload, priority, ts)].  [ts] is the given
    timestamp, or the reading of [time.time()] when the caller passes
    none. *)
Definition send (sender msg_type : string) (payload : pyval)
    (priority : Z) (ts : Q) (b : t) : t * Z :=
  let id := message_id_counter b + 1 in
  let msg := mkMessage id msg_type sender
               (if truthy payload then payload else PDict [])
               priority ts in
  (mkBus (max_history b)
         (messages b ++ [msg])
         (deque_append (max_history b) msg (history b))
         id
         (consumer_offsets b),
   id).

(** [read_all(consumer_id, clear)]. *)
Definition read_all (consumer_id : string) (clear : bool) (b : t)
  : t * list Message :=
  if clear then
    (mkBus (max_history b) [] (history b) (message_id_counter b)
           (consumer_offsets b),
     messages b)
  else
    let last_offset := default 0 (consumer_offsets b !! consumer_id) in
    let new_messages :=
      filter (λ m, last_offset < msg_id m) (messages b) in
    let offsets' :=
      match last (messages b) with
      | Some m => <[consumer_id := msg_id m]> (consumer_offsets b)
      | None => consumer_offsets b
      end in
    (mkBus (max_history b) (messages b) (history b)
           (message_id_counter b) offsets',
     new_messages).

(** [read_recent(count)]: [list(self._history)[-count:]]. *)
Definition read_recent (count : Z) (b : t) : list Message :=
  py_slice_from (- count) (history b).

(** [get_history(since_id)]. *)
Definition get_history (since_id : Z) (b : t) : list Message :=
  filter (λ m, since_id < msg_id m) (history b).

(** [clear_old_messages(keep_recent)]. *)
Definition clear_old_messages (keep_recent : Z) (b : t) : t :=
  if keep_recent <? Z.of_nat (length (messages b)) then
    mkBus (max_history b)
          (py_slice_from (- keep_recent) (messages b))
          (history b) (message_id_counter b) (consumer_offsets b)
  else b.

(** [reset()]. *)
Definition reset (b : t) : t :=
  mkBus (max_history b) [] [] 0 ∅.

(** ** Traces of bus operations, as seen by one consumer *)

(** The public operations that change the bus. *)
Inductive op : Type :=
  | Send (sender msg_type : string) (payload : pyval)
         (priority : Z) (ts : Q)
  | ReadAll (consumer_id : string) (clear : bool)
  | ClearOld (keep_recent : Z)
  | Reset.

(** The state of a run: the bus, the concatenation of what the observed
    consumer [c] got from its [read_all(c)] calls with [clear=False],
    and every message created by [send], in send order. *)
Record run_state : Type := mkRun {
  bus : t;
  delivered : list Message;
  sent : list Message
}.

Definition start (max_history : nat) : run_state :=
  mkRun (new max_history) [] [].

Definition step (c : string) (o : op) (s : run_state) : run_state :=
  match o with
  | Send sender ty payload prio ts =>
      let '(b', _) := send sender ty payload prio ts (bus s) in
      mkRun b' (delivered s)
            (sent s ++ option_list (last (messages b')))
  | ReadAll c' clear =>
      let '(b', got) := read_all c' clear (bus s) in
      mkRun b'
            (if negb clear && String.eqb c c' then delivered s ++ got
             else delivered s)
            (sent s)
  | ClearOld k =>
      mkRun (clear_old_messages k (bus s)) (delivered s) (sent s)
  | Reset =>
      mkRun (reset (bus s)) (delivered s) (sent s)
  end.

Definition run (c : string) (ops : list op) (s : run_state) : run_state :=
  foldl (λ s o, step c o s) s ops.

(** What [c] would get if it called [read_all(c)] now. *)
Definition unread (c : string) (b : t) : list Message :=
  snd (read_all c false b).

(** How many messages that [c] has not read yet operation [o] removes
    from the active list: [clear_old_messages] removes the oldest ones,
    a read with [clear=True] and [reset] remove them all. *)
Definition dropped (c : string) (o : op) (b : t) : nat :=
  match o with
  | ClearOld k =>
      length (unread c b) - length (unread c (clear_old_messages k b))
  | ReadAll c' true =>
      length (unread c b) - length (unread c (read_all c' true b).1)
  | Reset => length (unread c b) - length (unread c (reset b))
  | _ => 0
  end.

(** The messages removed unread over a whole trace. *)
Fixpoint lost (c : string) (ops : list op) (s : run_state) : nat :=
  match ops with
  | [] => 0
  | o :: r => dropped c o (bus s) + lost c r (step c o s)
  end.

(** The trace never resets the bus. *)
Definition reset_free (ops : list op) : bool :=
  forallb (λ o, match o with Reset => false | _ => true end) ops.

End MessageBus.

(* ===================================================================== *)
(** * The [random] module *)
(* ===================================================================== *)

Module Random.

(** A computation that reads the tape from a position and returns the
    position after its last draw. *)
Definition Rand (A : Type) : Type := nat → A * nat.

Definition ret {A} (x : A) : Rand A := λ pos, (x, pos).

Definition bind {A B} (m : Rand A) (k : A → Rand B) : Rand B :=
  λ pos, let '(x, pos') := m pos in k x pos'.

Section Tape.
Variable tape : nat → Z.

(** [random.random()]: a multiple of 2^-53 in [0, 1). *)
Definition random : Rand Q :=
  λ pos, (Qmake (tape pos mod 2 ^ 53) (2 ^ 53)%positive, S pos).

(** [random._randbelow(n)]: an integer in [0, n). *)
Definition randbelow (n : Z) : Rand Z :=
  λ pos, (tape pos mod n, S pos).

(** [random.randint(a, b)]: an integer in [a, b] (the callers always
    pass a <= b). *)
Definition randint (a b : Z) : Rand Z :=
  bind (randbelow (b - a + 1)) (λ r, ret (a + r)).

(** [random.choice(seq)] on a non-empty sequence. *)
Definition choice {A} (dflt : A) (l : list A) : Rand A :=
  bind (randbelow (Z.of_nat (length l)))
       (λ i, ret (nth (Z.to_nat i) l dflt)).

(** [random.shuffle(x)]:
    [for i in reversed(range(1, len(x))): j = randbelow(i + 1); swap]. *)
Fixpoint shuffle_loop {A} (i : nat) (x : list A) : Rand (list A) :=
  match i with
  | O => ret x
  | S i' =>
      bind (randbelow (Z.of_nat (S i))) (λ j,
        let x' := match x !! i, x !! Z.to_nat j with
                  | Some a, Some b => <[i := b]> (<[Z.to_nat j := a]> x)
                  | _, _ => x
                  end in
        shuffle_loop i' x')
  end.

Definition shuffle {A} (x : list A) : Rand (list A) :=
  shuffle_loop (length x - 1) x.

(** One draw per entry of a dictionary, in iteration order
    ([for k in d.keys(): d[k] = f(d[k], draw)]). *)
Definition draw_each (f : Z → Z → Z) (m : gmap string Z)
  : Rand (gmap string Z) :=
  λ pos,
    (list_to_map
       (imap (λ i kv, (kv.1, f kv.2 (tape (pos + i)%nat)))
             (map_to_list m)),
     (pos + size m)%nat).
End Tape.

End Random.

Notation "'let*' x ':=' m 'in' k" := (Random.bind m (λ x, k))
  (at level 10, x name, m at level 100, k at level 200, only parsing).

(** [x < y] on floats. *)
Definition Qltb (x y : Q) : bool := negb (Qle_bool y x).

(* ===================================================================== *)
(** * backend/environment.py *)
(* ===================================================================== *)

Module Environment.
Import Random.

Inductive Phase : Type := idle | response | rebuild | recovered.

#[global] Instance Phase_eq_dec : EqDecision Phase.
Proof. solve_decision. Defined.

Record Node : Type := mkNode {
  node_id : Z;
  node_name : string;
  lat : Q;
  lng : Q;
  population : Z;
  node_type : string;
  infrastructure : Q;
  vulnerability : list (string * Q)
}.

Record Edge : Type := mkEdge {
  edge_from : Z;
  edge_to : Z;
  distance : Q;
  edge_type : string;
  blocked : bool
}.

Record Params : Type := mkParams {
  seismic_threshold : Q;
  aftershock_factor : Q;
  road_block_chance : Q;
  rebuild_required : Q;
  rebuild_factor_per_crew : Q
}.

Record Stats : Type := mkStats {
  total_victims_initial : Z;
  stat_victims_saved : Z;
  disasters_completed : Z;
  total_time_steps : Z
}.

Record t : Type := mkEnv {
  time_step : Z;
  scenario : option string;
  disaster : bool;
  phase : Phase;
  victims : Z;
  victims_saved : Z;
  seismic_level : Q;
  aftershock : bool;
  roads_blocked : bool;
  resources : gmap string Z;
  initial_resources : gmap string Z;
  resources_used : gmap string Z;
  rebuild_progress : Q;
  cooldown_counter : Z;
  params : Params;
  stats : Stats;
  edges : list Edge;
  affected_nodes : list Z;
  affected_edges : list nat
}.

(** Field updates ([self.x = v]). *)
Definition set_time_step (v : Z) (e : t) : t :=
  mkEnv v (scenario e) (disaster e) (phase e) (victims e)
    (victims_saved e) (seismic_level e) (aftershock e) (roads_blocked
    e) (resources e) (initial_resources e) (resources_used e)
    (rebuild_progress e) (cooldown_counter e) (params e) (stats e)
    (edges e) (affected_nodes e) (affected_edges e).
Definition set_scenario (v : option string) (e : t) : t :=
  mkEnv (time_step e) v (disaster e) (phase e) (victims e)
    (victims_saved e) (seismic_level e) (aftershock e) (roads_blocked
    e) (resources e) (initial_resources e) (resources_used e)
    (rebuild_progress e) (cooldown_counter e) (params e) (stats e)
    (edges e) (affected_nodes e) (affected_edges e).
Definition set_disaster (v : bool) (e : t) : t :=
  mkEnv (time_step e) (scenario e) v (phase e) (victims e)
    (victims_saved e) (seismic_level e) (aftershock e) (roads_blocked
    e) (resources e) (initial_resources e) (resources_used e)
    (rebuild_progress e) (cooldown_counter e) (params e) (stats e)
    (edges e) (affected_nodes e) (affected_edges e).
Definition set_phase (v : Phase) (e : t) : t :=
  mkEnv (time_step e) (scenario e) (disaster e) v (victims e)
    (victims_saved e) (seismic_level e) (aftershock e) (roads_blocked
    e) (resources e) (initial_resources e) (resources_used e)
    (rebuild_progress e) (cooldown_counter e) (params e) (stats e)
    (edges e) (affected_nodes e) (affected_edges e).
Definition set_victims (v : Z) (e : t) : t :=
  mkEnv (time_step e) (scenario e) (disaster e) (phase e) v
    (victims_saved e) (seismic_level e) (aftershock e) (roads_blocked
    e) (resources e) (initial_resources e) (resources_used e)
    (rebuild_progress e) (cooldown_counter e) (params e) (stats e)
    (edges e) (affected_nodes e) (affected_edges e).
Definition set_victims_saved (v : Z) (e : t) : t :=
  mkEnv (time_step e) (scenario e) (disaster e) (phase e) (victims e)
    v (seismic_level e) (aftershock e) (roads_blocked e) (resources e)
    (initial_resources e) (resources_used e) (rebuild_progress e)
    (cooldown_counter e) (params e) (stats e) (edges e)
    (affected_nodes e) (affected_edges e).
Definition set_seismic_level (v : Q) (e : t) : t :=
  mkEnv (time_step e) (scenario e) (disaster e) (phase e) (victims e)
    (victims_saved e) v (aftershock e) (roads_blocked e) (resources e)
    (initial_resources e) (resources_used e) (rebuild_progress e)
    (cooldown_counter e) (params e) (stats e) (edges e)
    (affected_nodes e) (affected_edges e).
Definition set_aftershock (v : bool) (e : t) : t :=
  mkEnv (time_step e) (scenario e) (disaster e) (phase e) (victims e)
    (victims_saved e) (seismic_level e) v (roads_blocked e) (resources
    e) (initial_resources e) (resources_used e) (rebuild_progress e)
    (cooldown_counter e) (params e) (stats e) (edges e)
    (affected_nodes e) (affected_edges e).
Definition set_roads_blocked (v : bool) (e : t) : t :=
  mkEnv (time_step e) (scenario e) (disaster e) (phase e) (victims e)
    (victims_saved e) (seismic_level e) (aftershock e) v (resources e)
    (initial_resources e) (resources_used e) (rebuild_progress e)
    (cooldown_counter e) (params e) (stats e) (edges e)
    (affected_nodes e) (affected_edges e).
Definition set_resources (v : gmap string Z) (e : t) : t :=
  mkEnv (time_step e) (scenario e) (disaster e) (phase e) (victims e)
    (victims_saved e) (seismic_level e) (aftershock e) (roads_blocked
    e) v (initial_resources e) (resources_used e) (rebuild_progress e)
    (cooldown_counter e) (params e) (stats e) (edges e)
    (affected_nodes e) (affected_edges e).
Definition set_initial_resources (v : gmap string Z) (e : t) : t :=
  mkEnv (time_step e) (scenario e) (disaster e) (phase e) (victims e)
    (victims_saved e) (seismic_level e) (aftershock e) (roads_blocked
    e) (resources e) v (resources_used e) (rebuild_progress e)
    (cooldown_counter e) (params e) (stats e) (edges e)
    (affected_nodes e) (affected_edges e).
Definition set_resources_used (v : gmap string Z) (e : t) : t :=
  mkEnv (time_step e) (scenario e) (disaster e) (phase e) (victims e)
    (victims_saved e) (seismic_level e) (aftershock e) (roads_blocked
    e) (resources e) (initial_resources e) v (rebuild_progress e)
    (cooldown_counter e) (params e) (stats e) (edges e)
    (affected_nodes e) (affected_edges e).
Definition set_rebuild_progress (v : Q) (e : t) : t :=
  mkEnv (time_step e) (scenario e) (disaster e) (phase e) (victims e)
    (victims_saved e) (seismic_level e) (aftershock e) (roads_blocked
    e) (resources e) (initial_resources e) (resources_used e) v
    (cooldown_counter e) (params e) (stats e) (edges e)
    (affected_nodes e) (affected_edges e).
Definition set_cooldown_counter (v : Z) (e : t) : t :=
  mkEnv (time_step e) (scenario e) (disaster e) (phase e) (victims e)
    (victims_saved e) (seismic_level e) (aftershock e) (roads_blocked
    e) (resources e) (initial_resources e) (resources_used e)
    (rebuild_progress e) v (params e) (stats e) (edges e)
    (affected_nodes e) (affected_edges e).
Definition set_params (v : Params) (e : t) : t :=
  mkEnv (time_step e) (scenario e) (disaster e) (phase e) (victims e)
    (victims_saved e) (seismic_level e) (aftershock e) (roads_blocked
    e) (resources e) (initial_resources e) (resources_used e)
    (rebuild_progress e) (cooldown_counter e) v (stats e) (edges e)
    (affected_nodes e) (affected_edges e).
Definition set_stats (v : Stats) (e : t) : t :=
  mkEnv (time_step e) (scenario e) (disaster e) (phase e) (victims e)
    (victims_saved e) (seismic_level e) (aftershock e) (roads_blocked
    e) (resources e) (initial_resources e) (resources_used e)
    (rebuild_progress e) (cooldown_counter e) (params e) v (edges e)
    (affected_nodes e) (affected_edges e).
Definition set_edges (v : list Edge) (e : t) : t :=
  mkEnv (time_step e) (scenario e) (disaster e) (phase e) (victims e)
    (victims_saved e) (seismic_level e) (aftershock e) (roads_blocked
    e) (resources e) (initial_resources e) (resources_used e)
    (rebuild_progress e) (cooldown_counter e) (params e) (stats e) v
    (affected_nodes e) (affected_edges e).
Definition set_affected_nodes (v : list Z) (e : t) : t :=
  mkEnv (time_step e) (scenario e) (disaster e) (phase e) (victims e)
    (victims_saved e) (seismic_level e) (aftershock e) (roads_blocked
    e) (resources e) (initial_resources e) (resources_used e)
    (rebuild_progress e) (cooldown_counter e) (params e) (stats e)
    (edges e) v (affected_edges e).
Definition set_affected_edges (v : list nat) (e : t) : t :=
  mkEnv (time_step e) (scenario e) (disaster e) (phase e) (victims e)
    (victims_saved e) (seismic_level e) (aftershock e) (roads_blocked
    e) (resources e) (initial_resources e) (resources_used e)
    (rebuild_progress e) (cooldown_counter e) (params e) (stats e)
    (edges e) (affected_nodes e) v.

Definition vuln (earthquake flood wildfire : Q) : list (string * Q) :=
  [("earthquake"%string, earthquake); ("flood"%string, flood);
   ("wildfire"%string, wildfire)].

(** [self.nodes]: built once in [__init__] and never assigned again. *)
Definition nodes : list Node := [
  mkNode 0 "Karachi Central" 24.8607 67.0104 3822325 "district_center" 0.8 (vuln 1.2 0.9 0.5);
  mkNode 1 "Karachi East" 24.8800 67.0600 3921742 "district_center" 0.7 (vuln 1.1 1.0 0.6);
  mkNode 2 "Karachi West" 24.8200 66.9500 2679380 "district_center" 0.6 (vuln 1.0 1.1 0.7);
  mkNode 3 "Karachi South" 24.8200 67.0300 2329764 "district_center" 0.75 (vuln 1.1 1.2 0.5);
  mkNode 4 "Malir" 24.9500 67.2000 2432248 "district_center" 0.5 (vuln 0.9 1.3 0.8);
  mkNode 5 "Korangi" 24.8200 67.1200 3128971 "district_center" 0.65 (vuln 1.0 1.1 0.6);
  mkNode 6 "Kemari" 24.7800 66.9500 2068451 "district_center" 0.6 (vuln 1.0 1.4 0.7);
  mkNode 7 "Saddar Residential" 24.8600 67.0100 500000 "residential" 0.7 (vuln 1.2 0.8 0.6);
  mkNode 8 "Lyari Residential" 24.8500 66.9900 600000 "residential" 0.5 (vuln 1.3 1.0 0.7);
  mkNode 9 "Clifton Residential" 24.8100 67.0300 400000 "residential" 0.8 (vuln 1.0 1.4 0.5);
  mkNode 10 "Gulshan-e-Iqbal Residential" 24.9200 67.0800 800000 "residential" 0.8 (vuln 1.1 0.9 0.6);
  mkNode 11 "Orangi Town Residential" 24.9500 66.9800 1000000 "residential" 0.4 (vuln 1.3 1.2 0.8);
  mkNode 12 "North Nazimabad Residential" 24.9300 67.0400 700000 "residential" 0.6 (vuln 1.1 1.0 0.7);
  mkNode 13 "Saddar Market" 24.8550 67.0150 100000 "commercial" 0.9 (vuln 1.2 0.7 0.4);
  mkNode 14 "Burns Road Offices" 24.8650 67.0050 50000 "commercial" 0.8 (vuln 1.1 0.8 0.5);
  mkNode 15 "Tariq Road Market" 24.8750 67.0250 150000 "commercial" 0.7 (vuln 1.0 0.9 0.6);
  mkNode 16 "Gulshan-e-Iqbal Commercial" 24.9150 67.0750 200000 "commercial" 0.8 (vuln 1.1 0.8 0.5);
  mkNode 17 "Korangi Industrial Area" 24.8250 67.1250 300000 "industrial" 0.6 (vuln 1.0 1.1 0.8);
  mkNode 18 "Jinnah International Airport" 24.9065 67.1605 0 "landmark" 0.9 (vuln 1.0 0.8 0.4);
  mkNode 19 "Port of Karachi" 24.7800 66.9700 0 "landmark" 0.8 (vuln 1.1 1.5 0.6);
  mkNode 20 "Jinnah Postgraduate Medical Centre" 24.8600 67.0100 0 "public_service" 0.9 (vuln 1.0 0.7 0.3);
  mkNode 21 "Civil Hospital Karachi" 24.8500 67.0200 0 "public_service" 0.8 (vuln 1.1 0.8 0.4);
  mkNode 22 "Aga Khan Hospital" 24.8800 67.0600 0 "public_service" 0.95 (vuln 0.9 0.6 0.2);
  mkNode 23 "Fire Station Clifton" 24.8100 67.0250 0 "public_service" 0.8 (vuln 1.0 1.0 0.5);
  mkNode 24 "Fire Station Korangi" 24.8200 67.1150 0 "public_service" 0.7 (vuln 1.1 1.1 0.6);
  mkNode 25 "Fire Station Malir" 24.9400 67.1900 0 "public_service" 0.6 (vuln 0.9 1.2 0.7);
  mkNode 26 "Provincial Disaster Management Authority (PDMA)" 24.8600 67.0000 0 "public_service" 0.9 (vuln 0.8 0.7 0.3)
].

Definition initial_edges : list Edge := [
  mkEdge 0 1 5.0 "highway" false;
  mkEdge 0 2 7.0 "highway" false;
  mkEdge 0 3 4.0 "road" false;
  mkEdge 1 4 15.0 "highway" false;
  mkEdge 1 5 6.0 "road" false;
  mkEdge 2 6 5.0 "road" false;
  mkEdge 3 6 8.0 "highway" false;
  mkEdge 4 5 20.0 "highway" false;
  mkEdge 0 7 1.0 "road" false;
  mkEdge 0 8 2.0 "road" false;
  mkEdge 3 9 1.0 "road" false;
  mkEdge 1 10 3.0 "road" false;
  mkEdge 0 11 10.0 "highway" false;
  mkEdge 1 12 5.0 "road" false;
  mkEdge 0 13 0.5 "road" false;
  mkEdge 0 14 1.0 "road" false;
  mkEdge 0 15 2.0 "road" false;
  mkEdge 1 16 2.0 "road" false;
  mkEdge 5 17 1.0 "road" false;
  mkEdge 0 18 12.0 "highway" false;
  mkEdge 1 18 8.0 "road" false;
  mkEdge 6 19 2.0 "road" false;
  mkEdge 0 20 0.5 "road" false;
  mkEdge 0 21 1.0 "road" false;
  mkEdge 1 22 1.0 "road" false;
  mkEdge 3 23 0.5 "road" false;
  mkEdge 5 24 0.5 "road" false;
  mkEdge 4 25 1.0 "road" false;
  mkEdge 0 26 1.0 "road" false;
  mkEdge 7 13 0.5 "road" false;
  mkEdge 9 23 0.5 "road" false;
  mkEdge 10 16 1.0 "road" false
].

Definition default_resources : gmap string Z :=
  <["food_packs" := 50]> (<["repair_crews" := 2]>
    (<["medical_kits" := 40]> (<["drones" := 3]>
      (<["ambulances" := 5]> ∅)))).

Definition default_params : Params :=
  mkParams 0.5%Q 0.3%Q 0.4%Q 100%Q 2.0%Q.

(** [Environment()]. *)
Definition init : t :=
  mkEnv 0 None false idle 0 0 0%Q false false
        default_resources default_resources ((λ _, 0) <$> default_resources)
        0%Q 0 default_params (mkStats 0 0 0 0)
        initial_edges [] [].

(** [node['vulnerability'].get(scenario, 1.0)]. *)
Fixpoint vuln_get (scenario : string) (d : list (string * Q)) : Q :=
  match d with
  | [] => 1
  | (k, v) :: r => if String.eqb scenario k then v else vuln_get scenario r
  end.

(** [int(node['population'] * 0.01 * self.seismic_level * vuln)] for
    [node = self.nodes[node_id]].  Affected ids always come from the
    table itself, whose ids are their own indices, so the lookup never
    leaves the list (Python would raise [IndexError]). *)
Definition base_victims (scenario : string) (seismic : Q) (nid : Z) : Z :=
  match nodes !! Z.to_nat nid with
  | Some node =>
      py_int (inject_Z (population node) * 0.01 * seismic
              * vuln_get scenario (vulnerability node))%Q
  | None => 0
  end.

(** [any(edge['blocked'] for edge in self.edges)]. *)
Definition any_blocked (es : list Edge) : bool := existsb blocked es.

Definition set_blocked (b : bool) (ed : Edge) : Edge :=
  mkEdge (edge_from ed) (edge_to ed) (distance ed) (edge_type ed) b.

Section Ops.
Variable tape : nat → Z.

(** The node loops of the flood, wildfire and default scenarios:
    a node is taken when its id is in [fixed] or a draw falls below
    [p]; the draw is skipped for the fixed ids ([or] short-circuits). *)
Fixpoint select_nodes (fixed : list Z) (p : Q) (ns : list Node)
  : Rand (list Z) :=
  match ns with
  | [] => ret []
  | n :: r =>
      let* keep := (if bool_decide (node_id n ∈ fixed) then ret true
                    else let* u := random tape in ret (Qltb u p)) in
      let* rest := select_nodes fixed p r in
      ret (if keep then node_id n :: rest else rest)
  end.

(** The edge loop of [trigger_disaster]: returns the edges with their
    new blocking flags and the indices of the affected ones. *)
Fixpoint affect_edges (affected : list Z) (seismic : Q) (idx : nat)
    (es : list Edge) : Rand (list Edge * list nat) :=
  match es with
  | [] => ret ([], [])
  | ed :: r =>
      if bool_decide (edge_from ed ∈ affected)
         || bool_decide (edge_to ed ∈ affected) then
        let block_chance : Q :=
          (if String.eqb (edge_type ed) "road" then 0.2 else 0.1)%Q in
        let* u := random tape in
        let ed' := if Qltb u (block_chance * seismic)%Q
                   then set_blocked true ed else ed in
        let* rest := affect_edges affected seismic (S idx) r in
        ret (ed' :: rest.1, idx :: rest.2)
      else
        let* rest := affect_edges affected seismic (S idx) r in
        ret (ed :: rest.1, rest.2)
  end.

(** The five [random.randint] assignments of one scenario. *)
Definition randomize (amb drn kit crw fod : Z * Z) (r : gmap string Z)
  : Rand (gmap string Z) :=
  let* a := randint tape amb.1 amb.2 in
  let* d := randint tape drn.1 drn.2 in
  let* k := randint tape kit.1 kit.2 in
  let* c := randint tape crw.1 crw.2 in
  let* f := randint tape fod.1 fod.2 in
  ret (<["food_packs" := f]> (<["repair_crews" := c]>
        (<["medical_kits" := k]> (<["drones" := d]>
          (<["ambulances" := a]> r))))).

(** The resources drawn when the caller gives none (or an empty
    dictionary, which is falsy). *)
Definition random_resources (scenario_ : string) (seismic : Q)
    (r : gmap string Z) : Rand (gmap string Z) :=
  if String.eqb scenario_ "earthquake" then
    randomize (3, 8) (1, 4) (20, 80) (1, 4) (30, 100) r
  else if String.eqb scenario_ "flood" then
    randomize (2, 6) (2, 6) (15, 60) (2, 6) (40, 120) r
  else if String.eqb scenario_ "wildfire" then
    randomize (1, 4) (3, 8) (10, 40) (3, 8) (20, 80) r
  else
    draw_each tape
      (λ _ raw, Z.max 0 (py_int (inject_Z (1 + raw mod 10)
                                 * (1 + seismic))%Q))
      r.

(** [trigger_disaster(scenario, intensity, resources)].  [given] is the
    caller's resource dictionary, if any; its values are integers. *)
Definition trigger_disaster (scenario_ : string) (intensity : Q)
    (given : option (gmap string Z)) (e : t) : Rand t :=
  let seismic := Qmax 0 (Qmin 1 intensity) in
  let* affected :=
    (if String.eqb scenario_ "earthquake" then
       ret (seqZ 0 (Z.of_nat (length nodes)))
     else if String.eqb scenario_ "flood" then
       select_nodes [3; 4; 6; 19; 9; 8; 11] 0.3%Q nodes
     else if String.eqb scenario_ "wildfire" then
       select_nodes [2; 4; 6; 17] 0.2%Q nodes
     else
       select_nodes [] 0.7%Q nodes) in
  let* ea := affect_edges affected seismic 0 (edges e) in
  let total := foldl (λ acc nid, acc + base_victims scenario_ seismic nid)
                     0 affected in
  let victims_ := Z.max 10 total in
  let* res :=
    (match given with
     | Some g =>
         if bool_decide (g = ∅) then
           random_resources scenario_ seismic (resources e)
         else
           ret (map_imap (λ k old,
                  Some (match g !! k with
                        | Some v => Z.max 0 v
                        | None => old
                        end)) (resources e))
     | None => random_resources scenario_ seismic (resources e)
     end) in
  ret (mkEnv 0 (Some scenario_) true response victims_ 0 seismic
             (aftershock e) (any_blocked ea.1)
             res res ((λ _, 0) <$> res)
             (rebuild_progress e) (cooldown_counter e) (params e)
             (mkStats victims_ (stat_victims_saved (stats e))
                      (disasters_completed (stats e))
                      (total_time_steps (stats e)))
             ea.1 affected ea.2).

(** The last lines of [update]: victims and every resource count are
    floored at 0. *)
Definition clamp (e : t) : t :=
  set_resources (Z.max 0 <$> resources e)
                (set_victims (Z.max 0 (victims e)) e).

Definition tick (e : t) : t :=
  set_stats (mkStats (total_victims_initial (stats e))
                     (stat_victims_saved (stats e))
                     (disasters_completed (stats e))
                     (total_time_steps (stats e) + 1))
            (set_time_step (time_step e + 1) e).

Definition update_response (e : t) : Rand t :=
  let* u1 := random tape in
  let shock :=
    Qltb u1 (aftershock_factor (params e) * (0.5 + seismic_level e))%Q in
  let block_chance : Q :=
    (road_block_chance (params e) + 0.2 * seismic_level e
     + (if shock then 0.2 else 0))%Q in
  let* u2 := random tape in
  let* u3 := random tape in
  let decay : Q := (u3 * 0.1)%Q in
  let seismic := Qmax 0 (seismic_level e - decay)%Q in
  let* victims_ :=
    (if shock then
       let* u4 := random tape in
       if Qltb u4 0.2%Q then
         let* new_victims :=
           randint tape 1 (py_int (10 * (0.5 + seismic))%Q) in
         ret (victims e + new_victims)
       else ret (victims e)
     else ret (victims e)) in
  let e1 := set_victims victims_
              (set_seismic_level seismic
                (set_roads_blocked (Qltb u2 block_chance)
                  (set_aftershock shock e))) in
  ret (if (victims_ <=? 0) && negb shock then
         set_stats (mkStats (total_victims_initial (stats e1))
                            (victims_saved e1)
                            (disasters_completed (stats e1))
                            (total_time_steps (stats e1)))
           (set_rebuild_progress 0%Q (set_phase rebuild e1))
       else e1).

Definition update_rebuild (e : t) : Rand t :=
  let crews := Z.max 0 (default 0 (resources e !! "repair_crews")) in
  let drones := Z.max 0 (default 0 (resources e !! "drones")) in
  let* u := random tape in
  let increment : Q :=
    ((inject_Z crews * rebuild_factor_per_crew (params e)
      + inject_Z drones * 0.15) * (0.8 + u * 0.4))%Q in
  let progress := Qmin 100 (rebuild_progress e + increment)%Q in
  let unblock_count := py_floordiv increment 5%Q in
  let blocked_edges :=
    (imap (λ i ed, (i, ed)) (edges e)) ≫=
      (λ p, if blocked p.2 then [p.1] else []) in
  let* shuffled := shuffle tape blocked_edges in
  let edges_ :=
    foldl (λ es idx, alter (set_blocked false) idx es) (edges e)
          (py_slice_to unblock_count shuffled) in
  let have := default 0 (resources e !! "repair_crews") in
  let consumed := Z.min have (Z.max 0 (py_floordiv increment 3%Q)) in
  let res := <["repair_crews" := Z.max 0 (have - consumed)]> (resources e) in
  let e1 := set_resources res
              (set_roads_blocked (any_blocked edges_)
                (set_edges edges_
                  (set_rebuild_progress progress e))) in
  if Qle_bool (rebuild_required (params e)) progress then
    let* res' :=
      draw_each tape
        (λ v raw,
           Z.max 0 (py_int (inject_Z v
                            * (0.9 + Qmake (raw mod 2 ^ 53) (2 ^ 53) * 0.2))%Q))
        (initial_resources e) in
    let* cooldown := randint tape 2 6 in
    ret (mkEnv (time_step e1) (scenario e1) false recovered 0
               (victims_saved e1) 0%Q (aftershock e1) false
               res' (initial_resources e1) (resources_used e1)
               progress cooldown (params e1)
               (mkStats (total_victims_initial (stats e1))
                        (stat_victims_saved (stats e1))
                        (disasters_completed (stats e1) + 1)
                        (total_time_steps (stats e1)))
               (set_blocked false <$> edges_) [] [])
  else ret e1.

Definition update_recovered (e : t) : Rand t :=
  if 0 <? cooldown_counter e then
    ret (set_cooldown_counter (cooldown_counter e - 1) e)
  else
    let* new_scenario :=
      choice tape "earthquake"%string
             ["earthquake"; "flood"; "wildfire"]%string in
    let* u := random tape in
    let intensity := py_round2 (u * 0.9 + 0.1)%Q in
    trigger_disaster new_scenario intensity None e.

(** [update()]: one tick. *)
Definition update (e : t) : Rand t :=
  match phase e with
  | idle => ret e
  | response => let* e' := update_response (tick e) in ret (clamp e')
  | rebuild => let* e' := update_rebuild (tick e) in ret (clamp e')
  | recovered => let* e' := update_recovered (tick e) in ret (clamp e')
  end.
End Ops.

(** [save_victims(count)]: returns the number actually saved. *)
Definition save_victims (count : Z) (e : t) : t * Z :=
  let actual_saved := Z.min count (victims e) in
  (set_victims_saved (victims_saved e + actual_saved)
     (set_victims (Z.max 0 (victims e - actual_saved)) e),
   actual_saved).

(** [use_resource(resource_name, amount)]: returns the amount actually
    used. *)
Definition use_resource (resource_name : string) (amount : Z) (e : t)
  : t * Z :=
  match resources e !! resource_name with
  | None => (e, 0)
  | Some have =>
      let actual_used := Z.min amount have in
      (set_resources_used
         (<[resource_name :=
              default 0 (resources_used e !! resource_name) + actual_used]>
            (resources_used e))
         (set_resources (<[resource_name := have - actual_used]>
                           (resources e)) e),
       actual_used)
  end.

(** [reset()]. *)
Definition reset (e : t) : t :=
  mkEnv 0 None false idle 0 0 0%Q false false
        default_resources default_resources ((λ _, 0) <$> default_resources)
        0%Q 0 (params e) (mkStats 0 0 0 0)
        (set_blocked false <$> edges e) [] [].

(** [get_observation()]: every field is copied, so the snapshot is the
    state itself taken as a value. *)
Definition get_observation (e : t) : t := e.

End Environment.

(* ===================================================================== *)
(** * backend/agents/agent_base.py *)
(* ===================================================================== *)

Module Agent.
Import MessageBus.

(** What [sense] returns: the environment snapshot plus the recent
    messages of the other agents. *)
Record Observation : Type := mkObs {
  obs_env : Environment.t;
  recent_messages : list Message;
  message_count : Z
}.

(** One element of the list [decide] returns:
    [{"type": ..., "payload": {...}, "priority": ...}]. *)
Record Intent : Type := mkIntent {
  intent_type : string;
  intent_payload : list (string * pyval);
  intent_priority : Z
}.

(** [d.get(k, 0)] where the stored value is an integer. *)
Definition get_int (k : string) (d : list (string * pyval)) : Z :=
  match dict_get k d with
  | Some (PInt z) => z
  | _ => 0
  end.

(** [d.get(k, {})] where the stored value is a dictionary. *)
Definition get_dict (k : string) (d : list (string * pyval))
  : list (string * pyval) :=
  match dict_get k d with
  | Some (PDict d') => d'
  | _ => []
  end.

Section Clock.
(** [time.time()] as read by the [send] that allocates a given id. *)
Variable time_time : Z → Q.

(** [bus.send(sender, type, payload, priority)] with no timestamp. *)
Definition emit (sender ty : string) (payload : list (string * pyval))
    (priority : Z) (b : MessageBus.t) : MessageBus.t :=
  fst (send sender ty (PDict payload) priority
            (time_time (message_id_counter b + 1)) b).

(** [sense(env, bus)]. *)
Definition sense (name : string) (env : Environment.t)
    (b : MessageBus.t) : Observation :=
  let recent := read_recent 20 b in
  let others := filter (λ m, msg_sender m ≠ name) recent in
  mkObs (Environment.get_observation env) others
        (Z.of_nat (length others)).

(** The default [act(env, bus)]: sense, decide, send every intent.
    [decide] takes and returns the agent's private fields; [None]
    stands for an exception raised while deciding. *)
Definition act {S : Type} (name : string)
    (decide : Observation → S → option (list Intent * S))
    (env : Environment.t) (b : MessageBus.t) (st : S)
  : option (MessageBus.t * S) :=
  match decide (sense name env b) st with
  | None => None
  | Some (decisions, st') =>
      Some (foldl (λ b d, emit name (intent_type d) (intent_payload d)
                               (intent_priority d) b)
                  b decisions,
            st')
  end.
End Clock.

End Agent.

(* ===================================================================== *)
(** * backend/agents/reflex_agent.py *)
(* ===================================================================== *)

Module ReflexAgent.
Import Environment Agent.

Definition name : string := "ReflexAgent".

Record state : Type := mkState { last_alert_step : Z }.

Definition init : state := mkState (-1).

Definition decide (obs : Observation) (st : state)
  : list Intent * state :=
  let e := obs_env obs in
  if negb (bool_decide (phase e = response)) then ([], st)
  else if time_step e =? last_alert_step st then ([], st)
  else if disaster e then
    let threshold := seismic_threshold (params e) in
    let sev_msg : string * string :=
      if Qle_bool threshold (seismic_level e) then
        ((if Qle_bool 0.8%Q (seismic_level e) then "critical" else "high"),
         "ALERT: Seismic level " +:+ format_2f (seismic_level e)
           +:+ " exceeds threshold " +:+ format_2f threshold
           +:+ " → Emergency evacuation!")%string
      else
        ("medium",
         "Monitoring: Seismic level " +:+ format_2f (seismic_level e)
           +:+ " below threshold")%string in
    let sev_msg : string * string :=
      if aftershock e then
        ("critical", "AFTERSHOCK DETECTED! Take cover immediately!")%string
      else sev_msg in
    let payload :=
      [("message", PStr sev_msg.2); ("severity", PStr sev_msg.1);
       ("seismic_level", PFloat (seismic_level e));
       ("aftershock", PBool (aftershock e));
       ("time_step", PInt (time_step e));
       ("affected_areas",
        PInt (Z.of_nat (length (affected_nodes e))))]%string in
    let priority :=
      if String.eqb sev_msg.1 "critical" || String.eqb sev_msg.1 "high"
      then 10 else 5 in
    ([mkIntent "alert" payload priority], mkState (time_step e))
  else ([], st).

End ReflexAgent.

(* ===================================================================== *)
(** * backend/agents/drone_recon_agent.py *)
(* ===================================================================== *)

Module DroneReconAgent.
Import Environment Agent.

Definition name : string := "DroneReconAgent".
Definition SCAN_RADIUS : Z := 2.

Record state : Type := mkState {
  scanned_nodes : gset Z;
  recon_complete : bool;
  recon_start_step : Z
}.

Definition init : state := mkState ∅ false (-1).

Definition decide (obs : Observation) (st : state)
  : list Intent * state :=
  let e := obs_env obs in
  if negb (bool_decide (phase e = response)) then ([], mkState ∅ false (-1))
  else
    let start := if recon_start_step st <? 0 then time_step e
                 else recon_start_step st in
    let st1 := mkState (scanned_nodes st) (recon_complete st) start in
    let drones := default 0 (resources e !! "drones") in
    if drones <=? 0 then ([], st1)
    else
      let affected_set : gset Z := list_to_set (affected_nodes e) in
      let unscanned := affected_set ∖ scanned_nodes st in
      if bool_decide (unscanned = ∅)
         && negb (Nat.eqb (length (affected_nodes e)) 0) then
        if recon_complete st then ([], st1)
        else
          let payload :=
            [("message",
              PStr "Reconnaissance complete! All affected areas scanned.");
             ("total_scanned", PInt (Z.of_nat (size (scanned_nodes st))));
             ("time_step", PInt (time_step e));
             ("recon_duration", PInt (time_step e - start))]%string in
          ([mkIntent "recon_complete" payload 8],
           mkState (scanned_nodes st) true start)
      else
        let nodes_per_step := drones * SCAN_RADIUS in
        let nodes_to_scan := py_slice_to nodes_per_step (elements unscanned) in
        match nodes_to_scan with
        | [] => ([], st1)
        | _ :: _ =>
            let payload :=
              [("message",
                PStr ("Drones scanning "
                      +:+ pretty (Z.of_nat (length nodes_to_scan))
                      +:+ " areas..."));
               ("nodes_scanned", PList (PInt <$> nodes_to_scan));
               ("drones_active", PInt drones);
               ("remaining_areas",
                PInt (Z.of_nat (size unscanned)
                      - Z.of_nat (length nodes_to_scan)));
               ("time_step", PInt (time_step e))]%string in
            ([mkIntent "recon" payload 7], st1)
        end.

Section Clock.
Variable time_time : Z → Q.

(** [act(env, bus)]: the scanned nodes of a [recon] intent are
    recorded here, then every intent is sent. *)
Definition act (env : Environment.t) (b : MessageBus.t) (st : state)
  : MessageBus.t * state :=
  let '(decisions, st1) := decide (sense name env b) st in
  foldl
    (λ acc d,
       let st' :=
         if String.eqb (intent_type d) "recon" then
           match dict_get "nodes_scanned" (intent_payload d) with
           | Some (PList l) =>
               mkState
                 (foldl (λ s v, match v with
                                | PInt n => {[n]} ∪ s
                                | _ => s
                                end)
                        (scanned_nodes acc.2) l)
                 (recon_complete acc.2) (recon_start_step acc.2)
           | _ => acc.2
           end
         else acc.2 in
       (emit time_time name (intent_type d) (intent_payload d)
             (intent_priority d) acc.1,
        st'))
    (b, st1) decisions.
End Clock.

End DroneReconAgent.

(* ===================================================================== *)
(** * backend/agents/goal_agent.py *)
(* ===================================================================== *)

Module GoalBasedAgent.
Import Environment Agent.

Definition name : string := "GoalAgent".

(** [{node_id: [(neighbor_id, distance, blocked), ...]}]. *)
Abbreviation adjacency := (gmap Z (list (Z * Q * bool))).

(** One iteration of the edge loop of [_build_adjacency_list];
    [adj[k].append(..)] on a missing key raises [KeyError] ([None]). *)
Definition add_edge (adj : option adjacency) (ed : Edge)
  : option adjacency :=
  adj ← adj;
  l1 ← adj !! edge_from ed;
  let adj1 :=
    <[edge_from ed := l1 ++ [(edge_to ed, distance ed, blocked ed)]]> adj in
  l2 ← adj1 !! edge_to ed;
  Some (<[edge_to ed := l2 ++ [(edge_from ed, distance ed, blocked ed)]]>
          adj1).

Definition build_adjacency_list (ns : list Node) (es : list Edge)
  : option adjacency :=
  foldl add_edge (Some (list_to_map ((λ n, (node_id n, [])) <$> ns))) es.

(** Heap entries [(distance, node, path)], compared as Python compares
    tuples: by distance, then node, then path, lexicographically. *)
Definition entry : Type := Q * Z * list Z.

Fixpoint list_compare (a b : list Z) : comparison :=
  match a, b with
  | [], [] => Eq
  | [], _ :: _ => Lt
  | _ :: _, [] => Gt
  | x :: a', y :: b' =>
      match Z.compare x y with
      | Eq => list_compare a' b'
      | c => c
      end
  end.

Definition entry_compare (x y : entry) : comparison :=
  match Qcompare x.1.1 y.1.1 with
  | Eq => match Z.compare x.1.2 y.1.2 with
          | Eq => list_compare x.2 y.2
          | c => c
          end
  | c => c
  end.

Definition entry_leb (x y : entry) : bool :=
  match entry_compare x y with Gt => false | _ => true end.

(** The heap is kept as the bag of its entries: [heappush] adds one,
    [heappop] takes a least one out.  Entries that compare equal are
    equal as tuples, so this returns what [heapq] returns. *)
Definition heappush (x : entry) (pq : list entry) : list entry := x :: pq.

Fixpoint pop_min (x : entry) (l : list entry) : entry * list entry :=
  match l with
  | [] => (x, [])
  | y :: r =>
      let '(m, rest) := pop_min y r in
      if entry_leb x m then (x, y :: r) else (m, x :: rest)
  end.

Definition heappop (pq : list entry) : option (entry * list entry) :=
  match pq with
  | [] => None
  | x :: r => Some (pop_min x r)
  end.

(** The [for neighbor, edge_dist, blocked in adj.get(node, [])] loop. *)
Definition relax (avoid_blocked : bool) (visited : gset Z)
    (dist : Q) (path : list Z) (pq : list entry)
    (nbrs : list (Z * Q * bool)) : list entry :=
  foldl (λ q nb,
           if bool_decide (nb.1.1 ∈ visited) then q
           else if avoid_blocked && nb.2 then q
           else heappush ((dist + nb.1.2)%Q, nb.1.1, path ++ [nb.1.1]) q)
        pq nbrs.

(** The [while pq:] loop; the outer [None] means the fuel ran out. *)
Fixpoint dijkstra_loop (fuel : nat) (adj : adjacency) (end_ : Z)
    (avoid_blocked : bool) (pq : list entry) (visited : gset Z)
  : option (option (list Z)) :=
  match fuel with
  | O => None
  | S fuel' =>
      match heappop pq with
      | None => Some None
      | Some ((dist, node, path), pq') =>
          if bool_decide (node ∈ visited) then
            dijkstra_loop fuel' adj end_ avoid_blocked pq' visited
          else
            let visited' := {[node]} ∪ visited in
            if node =? end_ then Some (Some path)
            else
              dijkstra_loop fuel' adj end_ avoid_blocked
                (relax avoid_blocked visited' dist path pq'
                       (default [] (adj !! node)))
                visited'
      end
  end.

(** Enough iterations for any run: one per entry ever pushed. *)
Definition loop_bound (adj : adjacency) : nat :=
  S (S (sum_list ((λ kv, length kv.2) <$> map_to_list adj))).

(** [_find_path_dijkstra(adj, start, end, avoid_blocked)]. *)
Definition _find_path_dijkstra (adj : adjacency) (start end_ : Z)
    (avoid_blocked : bool) : option (list Z) :=
  if start =? end_ then Some [start]
  else
    match dijkstra_loop (loop_bound adj) adj end_ avoid_blocked
                        [(0%Q, start, [start])] ∅ with
    | Some r => r
    | None => None
    end.

Record Critical : Type := mkCritical {
  crit_id : Z;
  crit_name : string;
  crit_type : string;
  priority_score : Q;
  crit_population : Z
}.

(** [critical.sort(key=priority_score, reverse=True)]: a stable sort,
    highest score first, equal scores in their original order. *)
Fixpoint insert_desc (x : Critical) (s : list Critical) : list Critical :=
  match s with
  | [] => [x]
  | y :: s' =>
      if Qltb (priority_score x) (priority_score y)
      then y :: insert_desc x s'
      else x :: y :: s'
  end.

Definition sort_desc (l : list Critical) : list Critical :=
  foldr insert_desc [] l.

(** [_find_critical_nodes(obs)]. *)
Definition _find_critical_nodes (ns : list Node) (e : Environment.t)
  : list Critical :=
  let critical :=
    ns ≫= (λ node,
      if bool_decide (node_id node ∈ affected_nodes e) then
        let vulnerability_ :=
          match scenario e with
          | Some s => vuln_get s (vulnerability node)
          | None => 1%Q
          end in
        let score : Q :=
          (vulnerability_ * (inject_Z (population node) / 100000))%Q in
        let score : Q :=
          if String.eqb (node_type node) "residential"
             || String.eqb (node_type node) "public_service"
          then (score * 1.5)%Q else score in
        [mkCritical (node_id node) (node_name node) (node_type node)
                    score (population node)]
      else []) in
  take 5 (sort_desc critical).

Record Route : Type := mkRoute {
  target_id : Z;
  target_name : string;
  path : list Z;
  path_names : list string;
  status : string;
  route_priority : Q
}.

Record Plan : Type := mkPlan {
  routes : list Route;
  critical_nodes : list Critical;
  command_center : Z;
  total_targets : Z
}.

(** [l[i]] for a list: negative indices count from the end;
    [None] is [IndexError]. *)
Definition py_index {A} (l : list A) (i : Z) : option A :=
  let n := Z.of_nat (length l) in
  if i <? 0 then (if n + i <? 0 then None else l !! Z.to_nat (n + i))
  else l !! Z.to_nat i.

(** The body of the target loop of [_plan_rescue_routes]: the route to
    one target, if a path was found. *)
Definition route_to (ns : list Node) (adj : adjacency) (cc : Z)
    (target : Critical) : option (option Route) :=
  let first := _find_path_dijkstra adj cc (crit_id target) true in
  let found :=
    match first with
    | None => (_find_path_dijkstra adj cc (crit_id target) false,
               "blocked_route"%string)
    | Some p => (Some p, "clear"%string)
    end in
  match found.1 with
  | Some (n0 :: p') =>
      names ← mapM (λ nid, node_name <$> py_index ns nid)
                   (filter (λ nid, nid < Z.of_nat (length ns)) (n0 :: p'));
      Some (Some (mkRoute (crit_id target) (crit_name target) (n0 :: p')
                          names found.2 (priority_score target)))
  | _ => Some None
  end.

(** [_plan_rescue_routes(obs)]; [None] is an exception. *)
Definition _plan_rescue_routes (ns : list Node) (e : Environment.t)
  : option Plan :=
  adj ← build_adjacency_list ns (edges e);
  let critical := _find_critical_nodes ns e in
  let cc := 26 in
  found ← mapM (route_to ns adj cc) critical;
  let rs := omap id found in
  Some (mkPlan rs critical cc (Z.of_nat (length rs))).

Record state : Type := mkState {
  current_plan : option Plan;
  last_plan_step : Z
}.

Definition init : state := mkState None (-1).

Definition critical_to_pyval (c : Critical) : pyval :=
  PDict [("id", PInt (crit_id c)); ("name", PStr (crit_name c));
         ("type", PStr (crit_type c));
         ("priority_score", PFloat (priority_score c));
         ("population", PInt (crit_population c))]%string.

Definition route_to_pyval (r : Route) : pyval :=
  PDict [("target_id", PInt (target_id r));
         ("target_name", PStr (target_name r));
         ("path", PList (PInt <$> path r));
         ("path_names", PList (PStr <$> path_names r));
         ("status", PStr (status r));
         ("priority", PFloat (route_priority r))]%string.

Definition plan_to_pyval (p : Plan) : pyval :=
  PDict [("type", PStr "rescue_plan");
         ("routes", PList (route_to_pyval <$> routes p));
         ("critical_nodes", PList (critical_to_pyval <$> critical_nodes p));
         ("command_center", PInt (command_center p));
         ("total_targets", PInt (total_targets p))]%string.

(** [decide(obs)]; [None] is an exception raised while planning. *)
Definition decide (obs : Observation) (st : state)
  : option (list Intent * state) :=
  let e := obs_env obs in
  if negb (bool_decide (phase e = response)) then Some ([], st)
  else if (time_step e - last_plan_step st <? 3)
          && bool_decide (is_Some (current_plan st)) then Some ([], st)
  else if victims e <=? 0 then Some ([], st)
  else
    plan ← _plan_rescue_routes nodes e;
    let msg_prio : string * Z :=
      if roads_blocked e then
        let blocked_count :=
          Z.of_nat (length (filter (λ ed, blocked ed = true) (edges e))) in
        ("Roads blocked (" +:+ pretty blocked_count
           +:+ " routes) → Using alternate paths for rescue", 8)
      else
        ("Planning rescue operations for "
           +:+ pretty (Z.of_nat (length (routes plan)))
           +:+ " critical zones", 6) in
    let payload :=
      [("message", PStr msg_prio.1); ("time_step", PInt (time_step e));
       ("plan", plan_to_pyval plan);
       ("victims_remaining", PInt (victims e));
       ("roads_blocked", PBool (roads_blocked e))]%string in
    Some ([mkIntent "plan" payload msg_prio.2],
          mkState (Some plan) (time_step e)).

End GoalBasedAgent.

(* ===================================================================== *)
(** * backend/agents/utility_agent.py *)
(* ===================================================================== *)

Module UtilityAgent.
Import Environment Agent.

Definition name : string := "UtilityAgent".
Definition AMBULANCE_CAPACITY : Z := 500.
Definition DRONE_CAPACITY : Z := 200.
Definition MEDICAL_KIT_CAPACITY : Z := 50.
Definition FOOD_PACK_CAPACITY : Z := 30.

Record state : Type := mkState {
  last_alloc_step : Z;
  deployed_resources : list (string * pyval)
}.

Definition init : state := mkState (-1) [].

Definition decide (obs : Observation) (st : state)
  : list Intent * state :=
  let e := obs_env obs in
  if negb (bool_decide (phase e = response)) then
    ([], mkState (last_alloc_step st) [])
  else if victims e <=? 0 then ([], st)
  else
    let ambulances := default 0 (resources e !! "ambulances") in
    let drones := default 0 (resources e !! "drones") in
    let medical_kits := default 0 (resources e !! "medical_kits") in
    let food_packs := default 0 (resources e !! "food_packs") in
    let potential_saved :=
      ambulances * AMBULANCE_CAPACITY + drones * DRONE_CAPACITY
      + Z.min medical_kits 5 * MEDICAL_KIT_CAPACITY
      + Z.min food_packs 3 * FOOD_PACK_CAPACITY in
    if 0 <? potential_saved then
      let kits_to_use :=
        Z.min (Z.min medical_kits 5)
              ((victims e + MEDICAL_KIT_CAPACITY - 1)
               / MEDICAL_KIT_CAPACITY) in
      let food_to_use :=
        Z.min (Z.min food_packs 3)
              ((victims e + FOOD_PACK_CAPACITY - 1) / FOOD_PACK_CAPACITY) in
      let alloc :=
        [("ambulances", PInt 0); ("drones", PInt 0);
         ("medical_kits", PInt kits_to_use);
         ("food_packs", PInt food_to_use)]%string in
      let payload :=
        [("message",
          PStr ("Rescue operations in progress: "
                +:+ pretty (Z.min potential_saved (victims e))
                +:+ " victims being rescued"));
         ("allocation", PDict alloc);
         ("expected_victims_helped",
          PInt (Z.min potential_saved (victims e)));
         ("remaining_victims",
          PInt (Z.max 0 (victims e - potential_saved)));
         ("active_resources",
          PDict [("ambulances", PInt ambulances); ("drones", PInt drones);
                 ("medical_kits", PInt medical_kits);
                 ("food_packs", PInt food_packs)]);
         ("time_step", PInt (time_step e))]%string in
      ([mkIntent "rescue" payload 5], st)
    else
      let payload :=
        [("message", PStr "No resources available for rescue operations");
         ("victims_remaining", PInt (victims e));
         ("time_step", PInt (time_step e))]%string in
      ([mkIntent "status" payload 1], st).

(** [for resource_name, amount in alloc.items():
       if amount > 0: env.use_resource(resource_name, amount)]. *)
Definition consume (alloc : list (string * pyval)) (env : Environment.t)
  : Environment.t :=
  foldl (λ env kv,
           match kv.2 with
           | PInt amount =>
               if 0 <? amount then fst (use_resource kv.1 amount env)
               else env
           | _ => env
           end)
        env alloc.

(** The body of the decision loop of [act] for one intent: the
    environment after it and the payload that is sent. *)
Definition execute (d : Intent) (env : Environment.t)
  : Environment.t * list (string * pyval) :=
  let payload := intent_payload d in
  if String.eqb (intent_type d) "rescue" then
    let alloc := get_dict "allocation" payload in
    let active := get_dict "active_resources" payload in
    let env1 := consume alloc env in
    let victims_this_step :=
      get_int "ambulances" active * AMBULANCE_CAPACITY
      + get_int "drones" active * DRONE_CAPACITY
      + get_int "medical_kits" alloc * MEDICAL_KIT_CAPACITY
      + get_int "food_packs" alloc * FOOD_PACK_CAPACITY in
    if 0 <? victims_this_step then
      let '(env2, actual_saved) := save_victims victims_this_step env1 in
      (env2,
       dict_set "message"
         (PStr ("Rescued " +:+ pretty actual_saved
                +:+ " victims this step"))
         (dict_set "actual_victims_saved" (PInt actual_saved) payload))
    else (env1, payload)
  else (env, payload).

Section Clock.
Variable time_time : Z → Q.

(** [act(env, bus)]. *)
Definition act (env : Environment.t) (b : MessageBus.t) (st : state)
  : Environment.t * MessageBus.t * state :=
  let '(decisions, st1) := decide (sense name env b) st in
  let '(env', b') :=
    foldl (λ acc d,
             let '(env1, payload) := execute d acc.1 in
             (env1, emit time_time name (intent_type d) payload
                         (intent_priority d) acc.2))
          (env, b) decisions in
  (env', b', st1).
End Clock.

End UtilityAgent.

(* ===================================================================== *)
(** * backend/agents/rebuild_agent.py *)
(* ===================================================================== *)

Module RebuildAgent.
Import Environment Agent.

Definition name : string := "RebuildAgent".
Definition FOOD_COST_PER_CREW : Z := 5.
Definition MIN_CREWS_FOR_REBUILD : Z := 2.
Definition milestones : list Z := [25; 50; 75; 90].

Record state : Type := mkState { last_status_step : Z }.

Definition init : state := mkState (-1).

(** The milestone loop: the first [m] with [m <= progress < m + 5]. *)
Definition milestone_of (progress : Q) : option Z :=
  head (filter (λ m, Qle_bool (inject_Z m) progress
                     && Qltb progress (inject_Z (m + 5)) = true)
               milestones).

Definition decide (obs : Observation) (st : state)
  : list Intent * state :=
  let e := obs_env obs in
  if negb (bool_decide (phase e = rebuild)) then ([], st)
  else
    let progress := rebuild_progress e in
    let crews := default 0 (resources e !! "repair_crews") in
    let drones := default 0 (resources e !! "drones") in
    let estimated_steps :=
      if 0 <? crews then
        let increment_per_step : Q :=
          (inject_Z crews * rebuild_factor_per_crew (params e)
           + inject_Z drones * 0.15)%Q in
        let remaining := Qmax 0 (100 - progress)%Q in
        py_int (remaining / Qmax 0.1 increment_per_step)%Q
      else -1 in
    let status_msg :=
      mkIntent "repair_status"
        [("rebuild_progress", PFloat (py_round2 progress));
         ("available_crews", PInt crews);
         ("available_drones", PInt drones);
         ("estimated_steps_remaining", PInt estimated_steps);
         ("time_step", PInt (time_step e))]%string 6 in
    let request :=
      if crews <? MIN_CREWS_FOR_REBUILD then
        [mkIntent "repair_request"
           [("reason", PStr "insufficient_crews");
            ("current_crews", PInt crews);
            ("needed", PInt (MIN_CREWS_FOR_REBUILD - crews));
            ("time_step", PInt (time_step e))]%string 8]
      else [] in
    let milestone :=
      match milestone_of progress with
      | Some m =>
          [mkIntent "milestone"
             [("message",
               PStr ("Rebuild progress reached " +:+ pretty m +:+ "%"));
              ("progress", PFloat (py_round2 progress));
              ("time_step", PInt (time_step e))]%string 4]
      | None => []
      end in
    (status_msg :: request ++ milestone, st).

Section Clock.
Variable time_time : Z → Q.

(** The body of the decision loop of [act] for one intent. *)
Definition execute (d : Intent) (env : Environment.t)
    (b : MessageBus.t) : Environment.t * MessageBus.t :=
  let payload := intent_payload d in
  let prio := intent_priority d in
  if String.eqb (intent_type d) "repair_request" then
    let needed := get_int "needed" payload in
    let available_food := default 0 (resources env !! "food_packs") in
    let max_from_food := available_food / FOOD_COST_PER_CREW in
    let blocked_msg :=
      emit time_time name "repair_blocked"
        [("reason", PStr "insufficient_food_for_recruitment");
         ("needed", PInt needed);
         ("available_food", PInt available_food);
         ("required_food", PInt (needed * FOOD_COST_PER_CREW));
         ("time_step", default PNone (dict_get "time_step" payload))]%string
        (Z.max 1 (prio - 2)) in
    if 0 <? max_from_food then
      let add := Z.min needed max_from_food in
      let '(env1, food_used) :=
        use_resource "food_packs" (add * FOOD_COST_PER_CREW) env in
      if 0 <? food_used then
        let crews_added := food_used / FOOD_COST_PER_CREW in
        let env2 :=
          set_resources
            (<["repair_crews" :=
                 default 0 (resources env1 !! "repair_crews")
                 + crews_added]> (resources env1)) env1 in
        (env2,
         emit time_time name "repair_alloc"
           [("added_crews", PInt crews_added);
            ("source", PStr "food_recruitment");
            ("food_used", PInt food_used);
            ("time_step",
             default PNone (dict_get "time_step" payload))]%string
           prio b)
      else (env1, blocked_msg b)
    else (env, blocked_msg b)
  else if String.eqb (intent_type d) "milestone" then
    (env, emit time_time name (intent_type d) payload prio b)
  else
    (env, emit time_time name
               (if String.eqb (intent_type d) "" then "info"
                else intent_type d)
               payload prio b).

(** [act(env, bus)]. *)
Definition act (env : Environment.t) (b : MessageBus.t) (st : state)
  : Environment.t * MessageBus.t * state :=
  let '(decisions, st1) := decide (sense name env b) st in
  let '(env', b') :=
    foldl (λ acc d, execute d acc.1 acc.2) (env, b) decisions in
  (env', b', st1).
End Clock.

End RebuildAgent.

(* ===================================================================== *)
(** * backend/orchestrator.py *)
(* ===================================================================== *)

Module Orchestrator.
Import Random.

(** The orchestrator with the objects it drives; the private fields of
    the agents ride along.  The cosmetic pool of rescue units is left
    out: nothing in the core reads it. *)
Record t : Type := mkOrch {
  env : Environment.t;
  bus : MessageBus.t;
  paused : bool;
  cycle_count : Z;
  reflex : ReflexAgent.state;
  drone_recon : DroneReconAgent.state;
  goal : GoalBasedAgent.state;
  utility : UtilityAgent.state;
  rebuilder : RebuildAgent.state
}.

Definition new (max_history : nat) : t :=
  mkOrch Environment.init (MessageBus.new max_history) false 0
         ReflexAgent.init DroneReconAgent.init GoalBasedAgent.init
         UtilityAgent.init RebuildAgent.init.

Section World.
Variable tape : nat → Z.
Variable time_time : Z → Q.

(** [run_cycle()]: every agent acts in the fixed order (an agent whose
    [act] raises is skipped), then the environment advances, then the
    bus is compacted on every 10th cycle. *)
Definition run_cycle (o : t) : Rand t :=
  if paused o then ret o
  else
    let n := cycle_count o + 1 in
    let '(b1, s_reflex) :=
      match Agent.act time_time ReflexAgent.name
              (λ obs st, Some (ReflexAgent.decide obs st))
              (env o) (bus o) (reflex o) with
      | Some r => r
      | None => (bus o, reflex o)
      end in
    let '(b2, s_drone) :=
      DroneReconAgent.act time_time (env o) b1 (drone_recon o) in
    let '(b3, s_goal) :=
      match Agent.act time_time GoalBasedAgent.name
              GoalBasedAgent.decide (env o) b2 (goal o) with
      | Some r => r
      | None => (b2, goal o)
      end in
    let '(e4, b4, s_utility) :=
      UtilityAgent.act time_time (env o) b3 (utility o) in
    let '(e5, b5, s_rebuild) :=
      RebuildAgent.act time_time e4 b4 (rebuilder o) in
    let* e6 := Environment.update tape e5 in
    let b6 := if n mod 10 =? 0
              then MessageBus.clear_old_messages 100 b5 else b5 in
    ret (mkOrch e6 b6 false n s_reflex s_drone s_goal s_utility
                s_rebuild).
End World.

Definition pause (o : t) : t :=
  mkOrch (env o) (bus o) true (cycle_count o) (reflex o) (drone_recon o)
         (goal o) (utility o) (rebuilder o).

Definition resume (o : t) : t :=
  mkOrch (env o) (bus o) false (cycle_count o) (reflex o) (drone_recon o)
         (goal o) (utility o) (rebuilder o).

(** [reset()]: the environment and the bus are reset; of the agents only
    the [state] dictionary of the base class is cleared, which none of
    them uses, so their private fields stay as they are. *)
Definition reset (o : t) : t :=
  mkOrch (Environment.reset (env o)) (MessageBus.reset (bus o)) false 0
         (reflex o) (drone_recon o) (goal o) (utility o) (rebuilder o).

End Orchestrator.

(* ===================================================================== *)
(** * Vocabulary of the bus properties *)
(* ===================================================================== *)

Module BusSpec.
Import MessageBus.

(** Strictly increasing message ids. *)
Definition id_lt (m1 m2 : Message) : Prop := msg_id m1 < msg_id m2.

(** What holds of a run observed by consumer [c], whatever the
    operations. *)
Record run_inv (c : string) (s : run_state) : Prop := {
  inv_bound : Forall (λ m, msg_id m ≤ message_id_counter (bus s))
                     (messages (bus s));
  inv_last : ∀ m, last (messages (bus s)) = Some m →
                  msg_id m = message_id_counter (bus s);
  inv_cursor : default 0 (consumer_offsets (bus s) !! c)
               ≤ message_id_counter (bus s);
  inv_sub : (delivered s ++ unread c (bus s)) `sublist_of` sent s
}.

(** What holds besides as long as the bus is not reset: the ids of the
    messages sent increase, up to the id counter. *)
Record order_inv (s : run_state) : Prop := {
  ord_sorted : StronglySorted id_lt (sent s);
  ord_bound : Forall (λ m, msg_id m ≤ message_id_counter (bus s)) (sent s)
}.

(** The messages of a run that [c] has received or would receive from
    its next read. *)
Definition accounted (c : string) (s : run_state) : nat :=
  length (delivered s) + length (unread c (bus s)).

(** A trace in which nothing is removed unread: [c1] has read every
    message before the compaction and before the clearing read of
    another party. *)
Definition demo_trace : list op :=
  [ReadAll "c1" false; Send "A" "x" (PDict []) 1 0%Q;
   Send "B" "y" (PDict []) 1 0%Q; ReadAll "c1" false;
   ClearOld 1; Send "A" "z" (PDict []) 1 0%Q; ReadAll "c1" false;
   ReadAll "legacy" true; Send "B" "w" (PDict []) 1 0%Q].

(** A trace in which [clear_old_messages] removes the first message
    before [c1] has read it, that message, and a continuation. *)
Definition lossy_trace : list op :=
  [ReadAll "c1" false; Send "A" "x" (PDict []) 1 0%Q;
   Send "B" "y" (PDict []) 1 0%Q; ClearOld 1].

Definition first_message : Message :=
  mkMessage 1 "x" "A" (PDict []) 1 0%Q.

Definition later_trace : list op :=
  [ReadAll "c1" false; Send "A" "z" (PDict []) 1 0%Q; ReadAll "c1" false].

(** What a run that never resets the bus keeps of the messages it
    sent: the history is the window of the last [n], and the ids count
    the sends. *)
Record window_inv (n : nat) (s : run_state) : Prop := {
  win_max : max_history (bus s) = n;
  win_history : history (bus s) = drop (length (sent s) - n) (sent s);
  win_ids : msg_id <$> sent s = seqZ 1 (Z.of_nat (length (sent s)));
  win_counter : message_id_counter (bus s) = Z.of_nat (length (sent s))
}.

End BusSpec.

(* ===================================================================== *)
(** * Vocabulary of the environment properties *)
(* ===================================================================== *)

Module EnvSpec.
Import Environment.

(** Every count of a ledger map is at least 0. *)
Definition nonneg (m : gmap string Z) : Prop := map_Forall (λ _ v, 0 ≤ v) m.

(** The states the public operations can produce from a fresh
    environment, for every tape of draws, clock and bus state.  The
    reflex, recon and goal agents only read the environment, so their
    [act] adds no state. *)
Inductive reachable : Environment.t → Prop :=
  | reach_init : reachable init
  | reach_trigger e tape pos scenario_ intensity given :
      reachable e →
      reachable (trigger_disaster tape scenario_ intensity given e pos).1
  | reach_update e tape pos :
      reachable e → reachable (update tape e pos).1
  | reach_use_resource e resource_name amount :
      reachable e → reachable (use_resource resource_name amount e).1
  | reach_save_victims e count :
      reachable e → reachable (save_victims count e).1
  | reach_reset e :
      reachable e → reachable (reset e)
  | reach_utility_act e time_time b st :
      reachable e → reachable (UtilityAgent.act time_time e b st).1.1
  | reach_rebuild_act e time_time b st :
      reachable e → reachable (RebuildAgent.act time_time e b st).1.1.

(** The states the public operations can produce from a fresh
    environment when no caller passes a negative amount to
    [use_resource]. *)
Inductive reachable_nonneg_amounts : Environment.t → Prop :=
  | nn_init : reachable_nonneg_amounts init
  | nn_trigger e tape pos scenario_ intensity given :
      reachable_nonneg_amounts e →
      reachable_nonneg_amounts
        (trigger_disaster tape scenario_ intensity given e pos).1
  | nn_update e tape pos :
      reachable_nonneg_amounts e →
      reachable_nonneg_amounts (update tape e pos).1
  | nn_use_resource e resource_name amount :
      0 ≤ amount →
      reachable_nonneg_amounts e →
      reachable_nonneg_amounts (use_resource resource_name amount e).1
  | nn_save_victims e count :
      reachable_nonneg_amounts e →
      reachable_nonneg_amounts (save_victims count e).1
  | nn_reset e :
      reachable_nonneg_amounts e → reachable_nonneg_amounts (reset e)
  | nn_utility_act e time_time b st :
      reachable_nonneg_amounts e →
      reachable_nonneg_amounts (UtilityAgent.act time_time e b st).1.1
  | nn_rebuild_act e time_time b st :
      reachable_nonneg_amounts e →
      reachable_nonneg_amounts (RebuildAgent.act time_time e b st).1.1.

(** What holds in every reachable state. *)
Record env_inv (e : Environment.t) : Prop := {
  inv_victims : 0 ≤ victims e;
  inv_resources : nonneg (resources e);
  inv_initial : nonneg (initial_resources e);
  inv_cooldown : 0 ≤ cooldown_counter e;
  inv_params : params e = default_params
}.

(** What holds besides when no caller passes a negative amount to
    [use_resource]: the used-counters are at least 0. *)
Definition used_inv (e : Environment.t) : Prop :=
  env_inv e ∧ nonneg (resources_used e).

(** An intent of the rebuild agent that requests crews asks for at least
    one. *)
Definition asks_crews (d : Agent.Intent) : Prop :=
  Agent.intent_type d = "repair_request" →
  1 ≤ Agent.get_int "needed" (Agent.intent_payload d).

(** Non-negativity of the ledger with its used-counters. *)
Definition ledger_nonneg (e : Environment.t) : Prop :=
  nonneg (resources e) ∧ nonneg (resources_used e).

(** The victim count as the specification words it: the untruncated
    population-weighted sum, floored at 10. *)
Definition claimed_victims (scenario_ : string) (seismic : Q)
    (affected : list Node) : Q :=
  Qmax 10 (foldr (λ n acc,
                    (inject_Z (population n) * 0.01 * seismic
                     * vuln_get scenario_ (vulnerability n) + acc)%Q)
                 0%Q affected).

(** The victim count with every node's share truncated to an integer. *)
Definition truncated_victims (scenario_ : string) (seismic : Q)
    (affected : list Node) : Z :=
  Z.max 10 (foldr (λ n acc,
                     py_int (inject_Z (population n) * 0.01 * seismic
                             * vuln_get scenario_ (vulnerability n))%Q + acc)
                  0 affected).

(** The phase changes the specification lists, between a state [e] and
    its successor [e']. *)
Definition listed_transition (e e' : Environment.t) : Prop :=
  phase e' = phase e
  ∨ (phase e = idle ∧ phase e' = response)
  ∨ (phase e = response ∧ phase e' = rebuild
     ∧ victims e' = 0 ∧ aftershock e' = false)
  ∨ (phase e = rebuild ∧ phase e' = recovered
     ∧ (100 <= rebuild_progress e')%Q)
  ∨ (phase e = recovered ∧ phase e' = response ∧ cooldown_counter e = 0).

(** A tape whose every draw is [random() = 0.5]. *)
Definition half_tape : nat → Z := λ _, 2 ^ 52.

(** A tape whose every draw is 0. *)
Definition zero_tape : nat → Z := λ _, 0.

(** A state in the rebuild phase: an earthquake, every victim saved, one
    tick without aftershock. *)
Definition rebuilding : Environment.t :=
  (update half_tape
     (save_victims 271039
        (trigger_disaster half_tape "earthquake" 1 None init 0%nat).1).1
     0%nat).1.

(** A response phase: a fresh environment struck by an earthquake of
    full intensity, resources drawn on [half_tape]. *)
Definition struck : Environment.t :=
  (trigger_disaster half_tape "earthquake" 1 None init 0%nat).1.

(** The same with every victim saved, still in the response phase. *)
Definition cleared : Environment.t := (save_victims 271039 struck).1.

End EnvSpec.

(* ===================================================================== *)
(** * Vocabulary of the agent properties *)
(* ===================================================================== *)

Module AgentSpec.
Import MessageBus Environment Agent EnvSpec.

(** [resources.get(name, 0)]. *)
Definition count (name : string) (e : Environment.t) : Z :=
  default 0 (resources e !! name).

(** The messages appended to the bus between two of its states. *)
Definition new_messages (before after : MessageBus.t) : list Message :=
  drop (length (messages before)) (messages after).

(** The milestone texts among the intents of one tick. *)
Definition milestone_texts (ds : list Intent) : list pyval :=
  ds ≫= (λ d, if String.eqb (intent_type d) "milestone"
              then option_list (dict_get "message" (intent_payload d))
              else []).

(** [n] orchestrator cycles in a row. *)
Fixpoint run_cycles (tape : nat → Z) (time_time : Z → Q) (n : nat)
    (o : Orchestrator.t) : Random.Rand Orchestrator.t :=
  match n with
  | O => Random.ret o
  | S n' =>
      Random.bind (Orchestrator.run_cycle tape time_time o)
                  (run_cycles tape time_time n')
  end.

(** A clock that always reads 0. *)
Definition still_clock : Z → Q := λ _, 0%Q.

(** [env.trigger_disaster(...)] on the orchestrator's environment. *)
Definition triggered (tape : nat → Z) (scenario_ : string) (intensity : Q)
    (given : option (gmap string Z)) (o : Orchestrator.t) : Orchestrator.t :=
  Orchestrator.mkOrch
    (trigger_disaster tape scenario_ intensity given (Orchestrator.env o)
                      0%nat).1
    (Orchestrator.bus o) (Orchestrator.paused o) (Orchestrator.cycle_count o)
    (Orchestrator.reflex o) (Orchestrator.drone_recon o)
    (Orchestrator.goal o) (Orchestrator.utility o)
    (Orchestrator.rebuilder o).

(** The milestone intent for band [m]. *)
Definition milestone_intent (e : Environment.t) (m : Z) : Intent :=
  mkIntent "milestone"
    [("message", PStr ("Rebuild progress reached " +:+ pretty m +:+ "%"));
     ("progress", PFloat (py_round2 (rebuild_progress e)));
     ("time_step", PInt (time_step e))]%string 4.

(** Progress lies in the half-open band [m, m + 5). *)
Definition in_band (m : Z) (progress : Q) : Prop :=
  (inject_Z m <= progress)%Q ∧ (progress < inject_Z m + 5)%Q.


(** The text and tick of every milestone message in the bus history. *)
Definition milestone_log (b : MessageBus.t) : list (pyval * pyval) :=
  history b ≫=
    (λ m, if String.eqb (msg_type m) "milestone" then
            match msg_payload m with
            | PDict d => [(default PNone (dict_get "message" d),
                           default PNone (dict_get "time_step" d))]
            | _ => []
            end
          else []).

(** Resources with many ambulances, 16 drones and neither crews nor
    food: every victim is saved in one tick and the rebuild advances by
    2.4 per tick on [half_tape]. *)
Definition crewless : gmap string Z :=
  <["ambulances" := 1000]> (<["drones" := 16]> (<["medical_kits" := 0]>
    (<["repair_crews" := 0]> (<["food_packs" := 0]> ∅)))).

(** Resources too few to clear an earthquake in a few ticks. *)
Definition few : gmap string Z :=
  <["ambulances" := 1]> (<["drones" := 1]> (<["medical_kits" := 0]>
    (<["repair_crews" := 0]> (<["food_packs" := 0]> ∅)))).

(** An orchestrator [n] cycles into an earthquake with the given
    resources. *)
Definition quake_after (given : gmap string Z) (n : nat) : Orchestrator.t :=
  (run_cycles half_tape still_clock n
     (triggered half_tape "earthquake" 1 (Some given) (Orchestrator.new 500))
     0%nat).1.

(** A second earthquake started the way the transport layer starts one:
    [reset()], then [trigger_disaster]. *)
Definition restarted (o : Orchestrator.t) : Orchestrator.t :=
  triggered half_tape "earthquake" 1 (Some few) (Orchestrator.reset o).

(** The message types in the bus history. *)
Definition history_types (o : Orchestrator.t) : list string :=
  msg_type <$> history (Orchestrator.bus o).

(** What the rebuild agent observes twelve cycles into that run, with
    the progress at 26.4. *)
Definition band_obs : Observation :=
  sense RebuildAgent.name (Orchestrator.env (quake_after crewless 12))
        (MessageBus.new 500).

End AgentSpec.

(* ===================================================================== *)
(** * Vocabulary of the route-planning properties *)
(* ===================================================================== *)

Module GraphSpec.
Import Environment GoalBasedAgent.

(** Edge [ed] of the snapshot can be driven from [u] to [y]: roads are
    two-way, and a blocked one is closed when blocked roads are avoided. *)
Definition drives (avoid_blocked : bool) (ed : Edge) (u y : Z) : Prop :=
  avoid_blocked && blocked ed = false
  ∧ ((edge_from ed = u ∧ edge_to ed = y)
     ∨ (edge_to ed = u ∧ edge_from ed = y)).

(** [route es avoid start v p c]: [p] is the node list of a walk from
    [start] to [v] along edges of [es], of summed distance [c]. *)
Inductive route (es : list Edge) (avoid_blocked : bool) (start : Z)
  : Z → list Z → Q → Prop :=
  | route_start : route es avoid_blocked start start [start] 0%Q
  | route_step u p c ed y :
      route es avoid_blocked start u p c →
      ed ∈ es → drives avoid_blocked ed u y →
      route es avoid_blocked start y (p ++ [y]) (c + distance ed)%Q.

(** [p] is a shortest walk from [start] to [target]. *)
Definition shortest (es : list Edge) (avoid_blocked : bool)
    (start target : Z) (p : list Z) : Prop :=
  ∃ c, route es avoid_blocked start target p c
       ∧ ∀ p' c', route es avoid_blocked start target p' c' → (c <= c')%Q.

(** No walk leads from [start] to [target]. *)
Definition unreachable (es : list Edge) (avoid_blocked : bool)
    (start target : Z) : Prop :=
  ∀ p c, ¬ route es avoid_blocked start target p c.

(** The same walks, read off the agent's adjacency structure. *)
Inductive walk (adj : adjacency) (avoid_blocked : bool) (start : Z)
  : Z → list Z → Q → Prop :=
  | walk_start : walk adj avoid_blocked start start [start] 0%Q
  | walk_step u p c nb :
      walk adj avoid_blocked start u p c →
      nb ∈ default [] (adj !! u) →
      avoid_blocked && nb.2 = false →
      walk adj avoid_blocked start nb.1.1 (p ++ [nb.1.1]) (c + nb.1.2)%Q.

(** The invariant of the search loop: every heap entry is a walk of the
    stated cost; the start is in the heap until visited; every open edge
    out of a visited node has put its unvisited end in the heap, at no
    more than any walk through that node costs; the target is unvisited. *)
Record search_inv (adj : adjacency) (avoid_blocked : bool)
    (start end_ : Z) (pq : list entry) (visited : gset Z) : Prop := {
  inv_entries : ∀ d v p, (d, v, p) ∈ pq → walk adj avoid_blocked start v p d;
  inv_start : start ∉ visited → ∃ d p, (d, start, p) ∈ pq ∧ (d <= 0)%Q;
  inv_frontier :
    ∀ u nb, u ∈ visited → nb ∈ default [] (adj !! u) →
            avoid_blocked && nb.2 = false → nb.1.1 ∉ visited →
            ∃ d p, (d, nb.1.1, p) ∈ pq
                   ∧ ∀ q c, walk adj avoid_blocked start u q c →
                            (d <= c + nb.1.2)%Q;
  inv_target : end_ ∉ visited
}.

(** The entries still to be pushed: the adjacency lists of the
    unvisited nodes. *)
Definition pending (adj : adjacency) (visited : gset Z) : nat :=
  sum_list ((λ kv : Z * list (Z * Q * bool),
               if bool_decide (kv.1 ∈ visited) then 0%nat else length kv.2)
              <$> map_to_list adj).

(** The entries of the adjacency lists that edge [ed] accounts for. *)
Definition entry_of (ed : Edge) (u : Z) (x : Z * Q * bool) : Prop :=
  (u = edge_from ed ∧ x = (edge_to ed, distance ed, blocked ed))
  ∨ (u = edge_to ed ∧ x = (edge_from ed, distance ed, blocked ed)).

(** What never changes in an edge: its ends, distance and type. *)
Definition skeleton (es : list Edge) : list (Z * Z * Q * string) :=
  (λ ed, (edge_from ed, edge_to ed, distance ed, edge_type ed)) <$> es.

(** Every edge joins two nodes of [ns] and has no negative distance. *)
Definition well_formed (ns : list Node) (sk : list (Z * Z * Q * string))
  : bool :=
  forallb (λ x, bool_decide (x.1.1.1 ∈ node_id <$> ns)
                && bool_decide (x.1.1.2 ∈ node_id <$> ns)
                && Qle_bool 0 x.1.2) sk.

(** The built-in graph with the road between node 26 and node 0 blocked. *)
Definition cut_off : Environment.t :=
  set_scenario (Some "earthquake"%string)
    (set_affected_nodes [7; 8]
       (set_edges (alter (set_blocked true) 28%nat initial_edges)
                  Environment.init)).

End GraphSpec.

(* ===================================================================== *)
(** * Vocabulary of the environment dynamics *)
(* ===================================================================== *)

Module EnvDynamics.
Import Environment.

(** The level and the progress stay in their ranges. *)
Definition in_ranges (e : Environment.t) : Prop :=
  (0 <= seismic_level e)%Q ∧ (seismic_level e <= 1)%Q
  ∧ (0 <= rebuild_progress e)%Q ∧ (rebuild_progress e <= 100)%Q.

(** [e'] differs from [e] at most in the resource ledger, its
    used-counters and the two victim counts. *)
Definition same_but_ledger (e e' : Environment.t) : Prop :=
  e' = set_victims_saved (victims_saved e')
         (set_victims (victims e')
            (set_resources_used (resources_used e')
               (set_resources (resources e') e))).

(** An edge touches one of the nodes [affected]. *)
Definition touches (affected : list Z) (ed : Edge) : Prop :=
  edge_from ed ∈ affected ∨ edge_to ed ∈ affected.

(** How one edge comes out of [trigger_disaster]: unchanged, or blocked
    where it was not, which only happens to an edge that touches the
    affected area. *)
Definition edge_after (affected : list Z) (ed ed' : Edge) : Prop :=
  ed' = ed ∨ (ed' = set_blocked true ed ∧ touches affected ed).

(** How one edge comes out of a rebuild tick: unchanged or unblocked. *)
Definition edge_eased (ed ed' : Edge) : Prop :=
  ed' = ed ∨ ed' = set_blocked false ed.

(** A resource count [v'] restored from the count [v] of the snapshot:
    the integer part of [v] times a factor between 0.9 and 1.1. *)
Definition restored (v v' : Z) : Prop :=
  0 ≤ v' ∧ 9 * v - 10 < 10 * v' ∧ 10 * v' ≤ 11 * v.

(** The ranges [random.randint] draws the five resources from, per
    scenario, in the order ambulances, drones, medical kits, repair
    crews, food packs. *)
Definition scenario_ranges (scenario_ : string)
  : option (list (string * (Z * Z))) :=
  if String.eqb scenario_ "earthquake" then
    Some [("ambulances", (3, 8)); ("drones", (1, 4));
          ("medical_kits", (20, 80)); ("repair_crews", (1, 4));
          ("food_packs", (30, 100))]%string
  else if String.eqb scenario_ "flood" then
    Some [("ambulances", (2, 6)); ("drones", (2, 6));
          ("medical_kits", (15, 60)); ("repair_crews", (2, 6));
          ("food_packs", (40, 120))]%string
  else if String.eqb scenario_ "wildfire" then
    Some [("ambulances", (1, 4)); ("drones", (3, 8));
          ("medical_kits", (10, 40)); ("repair_crews", (3, 8));
          ("food_packs", (20, 80))]%string
  else None.

(** The books of the ledger balance: for every resource, what is left
    plus what was used is what the disaster started with. *)
Definition balanced (e : Environment.t) : Prop :=
  ∀ k, match initial_resources e !! k with
       | Some ini =>
           ∃ v u, resources e !! k = Some v
                  ∧ resources_used e !! k = Some u ∧ v + u = ini
       | None => resources e !! k = None ∧ resources_used e !! k = None
       end.

(** The states of one response: from a [trigger_disaster] on, through
    any [use_resource] and [save_victims] calls, the utility agent's
    [act], and the ticks of [update] taken in the response phase. *)
Inductive responding : Environment.t → Prop :=
  | resp_trigger e tape pos scenario_ intensity given :
      EnvSpec.reachable e →
      responding (trigger_disaster tape scenario_ intensity given e pos).1
  | resp_use_resource e resource_name amount :
      responding e → responding (use_resource resource_name amount e).1
  | resp_save_victims e count :
      responding e → responding (save_victims count e).1
  | resp_utility_act e time_time b st :
      responding e → responding (UtilityAgent.act time_time e b st).1.1
  | resp_update e tape pos :
      responding e → phase e = response →
      responding (update tape e pos).1.

(** A flood of intensity 0.5 on the fresh environment. *)
Definition flooded : Environment.t :=
  (trigger_disaster EnvSpec.half_tape "flood" 0.5 None init 0%nat).1.

(** A rebuild phase with 60 repair crews at hand: an earthquake, every
    victim saved, one tick without aftershock. *)
Definition well_staffed : Environment.t :=
  (update EnvSpec.half_tape
     (save_victims 271039
        (trigger_disaster EnvSpec.half_tape "earthquake" 1
           (Some (<["repair_crews" := 60]> ∅)) init 0%nat).1).1
     0%nat).1.

(** The recovered phase that follows: one more tick completes the
    rebuild and draws a cooldown. *)
Definition cooling : Environment.t :=
  (update EnvSpec.half_tape well_staffed 0%nat).1.

(** A flooded environment whose caller fixes two resource counts, one of
    them negative, and names a resource the ledger does not have. *)
Definition flood_with_given : Environment.t :=
  (trigger_disaster EnvSpec.half_tape "flood" 0.5
     (Some (<["drones" := 7]> (<["food_packs" := -4]>
              (<["helicopters" := 2]> ∅))))
     init 0%nat).1.

End EnvDynamics.

(* ===================================================================== *)
(** * Vocabulary of the agent behaviour *)
(* ===================================================================== *)

Module AgentBehaviour.
Import MessageBus Environment Agent EnvSpec AgentSpec.

(** An observation of [e] with no messages around. *)
Definition observe (e : Environment.t) : Observation := mkObs e [] 0.

(** The flood of [EnvDynamics.flooded], observed. *)
Definition flood_obs : Observation := observe EnvDynamics.flooded.

End AgentBehaviour.

(* ===================================================================== *)
(** * Proof automation *)
(* ===================================================================== *)

(** Reading boolean tests back as facts. *)
Ltac bool_facts :=
  repeat match goal with
         | H : _ && _ = true |- _ => apply andb_true_iff in H as [? ?]
         | H : _ && _ = false |- _ => apply andb_false_iff in H
         | H : negb _ = true |- _ => apply negb_true_iff in H
         | H : negb _ = false |- _ => apply negb_false_iff in H
         | H : (_ <=? _) = true |- _ => apply Z.leb_le in H
         | H : (_ <=? _) = false |- _ => apply Z.leb_gt in H
         | H : (_ <? _) = true |- _ => apply Z.ltb_lt in H
         | H : (_ <? _) = false |- _ => apply Z.ltb_ge in H
         | H : bool_decide _ = true |- _ => apply bool_decide_eq_true in H
         | H : bool_decide _ = false |- _ => apply bool_decide_eq_false in H
         | H : (_, _) = (_, _) |- _ => injection H as ? ?
         end;
  subst; simpl in *; try done; try lia.

(** Case analysis on the draws and tests of a computation. *)
Ltac rand_cases :=
  repeat first
    [ match goal with
      | |- context [let '(_, _) := ?m in _] => destruct m as [? ?] eqn:?
      end
    | case_match ].


(* ===================================================================== *)
(** * Properties of the message bus *)
(* ===================================================================== *)

Module BusFacts.
Import MessageBus BusSpec.

Lemma clear_old_messages_drop k b :
  ∃ j, messages (clear_old_messages k b) = drop j (messages b).
Proof.
  unfold clear_old_messages, py_slice_from. case_match; simpl; eauto.
  by exists 0%nat.
Qed.

Lemma clear_old_messages_counter k b :
  message_id_counter (clear_old_messages k b) = message_id_counter b.
Proof. unfold clear_old_messages. by case_match. Qed.

Lemma clear_old_messages_offsets k b :
  consumer_offsets (clear_old_messages k b) = consumer_offsets b.
Proof. unfold clear_old_messages. by case_match. Qed.

Lemma unread_eq c b :
  unread c b
  = filter (λ m, default 0 (consumer_offsets b !! c) < msg_id m)
           (messages b).
Proof. reflexivity. Qed.

Lemma filter_none {A} (P : A → Prop) `{!∀ x, Decision (P x)} (l : list A) :
  Forall (λ x, ¬ P x) l → filter P l = [].
Proof.
  induction 1 as [|x l Hx _ IH]; [done|].
  by rewrite filter_cons_False.
Qed.

Lemma filter_sublist {A} (P : A → Prop) `{!∀ x, Decision (P x)}
    (l k : list A) :
  l `sublist_of` k → filter P l `sublist_of` filter P k.
Proof.
  induction 1 as [|x l k _ IH|x l k _ IH]; [done| |].
  - rewrite !filter_cons. case_decide; [by constructor | done].
  - rewrite filter_cons. case_decide; [by constructor | done].
Qed.

Lemma sublist_all {A} (P : A → Prop) (l k : list A) :
  l `sublist_of` k → Forall P k → Forall P l.
Proof.
  induction 1 as [|x l k _ IH|x l k _ IH]; intros Hk; [done| |].
  - apply Forall_cons in Hk as [? ?]. constructor; auto.
  - apply Forall_cons in Hk as [? ?]. auto.
Qed.

Lemma sublist_same_length {A} (l k : list A) :
  l `sublist_of` k → length l = length k → l = k.
Proof.
  induction 1 as [|x l k _ IH|x l k Hsub _]; intros Hlen; [done| |].
  - f_equal. apply IH. simpl in Hlen. lia.
  - apply sublist_length in Hsub. simpl in Hlen. lia.
Qed.

Lemma last_drop_Some {A} (j : nat) (l : list A) (x : A) :
  last (drop j l) = Some x → last l = Some x.
Proof.
  intros H. rewrite <- (take_drop j l). apply last_app_Some. by left.
Qed.

(** ** One step of a trace *)

Lemma step_read c c' s :
  step c (ReadAll c' false) s
  = mkRun (read_all c' false (bus s)).1
          (if String.eqb c c' then delivered s ++ unread c' (bus s)
           else delivered s)
          (sent s).
Proof. reflexivity. Qed.

Lemma step_drain c c' s :
  step c (ReadAll c' true) s
  = mkRun (read_all c' true (bus s)).1 (delivered s) (sent s).
Proof. reflexivity. Qed.

Lemma step_send c sender ty payload prio ts s :
  step c (Send sender ty payload prio ts) s
  = mkRun (send sender ty payload prio ts (bus s)).1 (delivered s)
          (sent s ++ [mkMessage (message_id_counter (bus s) + 1) ty sender
                        (if truthy payload then payload else PDict [])
                        prio ts]).
Proof. unfold step. simpl. by rewrite last_snoc. Qed.

Lemma unread_after_read c s :
  run_inv c s → unread c (read_all c false (bus s)).1 = [].
Proof.
  intros Hinv. rewrite unread_eq. simpl.
  destruct (last (messages (bus s))) as [m|] eqn:Hlast; simpl.
  - rewrite lookup_insert_eq. simpl.
    apply filter_none. rewrite (inv_last c s Hinv m Hlast).
    eapply Forall_impl; [apply Hinv|]. simpl. intros; lia.
  - apply last_None in Hlast. by rewrite Hlast.
Qed.

Lemma unread_other c c' b :
  c ≠ c' → unread c (read_all c' false b).1 = unread c b.
Proof.
  intros Hne. rewrite !unread_eq. simpl.
  destruct (last (messages b)); simpl; [|done].
  by rewrite lookup_insert_ne.
Qed.

Lemma unread_send c sender ty payload prio ts b :
  default 0 (consumer_offsets b !! c) ≤ message_id_counter b →
  unread c (send sender ty payload prio ts b).1
  = unread c b ++ [mkMessage (message_id_counter b + 1) ty sender
                     (if truthy payload then payload else PDict [])
                     prio ts].
Proof.
  intros Hc. rewrite !unread_eq. simpl. rewrite filter_app. f_equal.
  rewrite filter_cons_True; [done | simpl; lia].
Qed.

Lemma unread_clear_old c k b :
  unread c (clear_old_messages k b) `sublist_of` unread c b.
Proof.
  destruct (clear_old_messages_drop k b) as [j Hj].
  rewrite !unread_eq, clear_old_messages_offsets, Hj.
  apply filter_sublist, sublist_drop.
Qed.

Lemma delivered_sublist c s :
  run_inv c s → delivered s `sublist_of` sent s.
Proof.
  intros Hinv. etrans; [|apply (inv_sub c s Hinv)].
  by apply sublist_inserts_r.
Qed.

(** ** What every run keeps *)

Lemma run_inv_start c n : run_inv c (start n).
Proof. split; simpl; try done; constructor. Qed.

Lemma step_inv c o s : run_inv c s → run_inv c (step c o s).
Proof.
  intros Hinv.
  destruct o as [sender ty payload prio ts | c' [|] | k | ].
  - rewrite step_send. split; simpl.
    + apply Forall_app. split.
      * eapply Forall_impl; [apply Hinv|]. simpl. intros; lia.
      * repeat constructor. simpl. lia.
    + intros m'. rewrite last_snoc. by intros [= <-].
    + pose proof (inv_cursor c s Hinv). lia.
    + change (mkBus _ _ _ _ _) with (send sender ty payload prio ts (bus s)).1.
      rewrite unread_send by apply Hinv.
      rewrite app_assoc. apply sublist_app; [apply Hinv | done].
  - rewrite step_drain. split; simpl.
    + constructor.
    + by intros m.
    + apply (inv_cursor c s Hinv).
    + rewrite unread_eq. simpl. rewrite app_nil_r.
      by apply (delivered_sublist c).
  - rewrite step_read. split; simpl; try apply Hinv.
    + destruct (last (messages (bus s))) as [m|] eqn:Hlast; simpl;
        [|apply Hinv].
      destruct (decide (c' = c)) as [->|Hne].
      * rewrite lookup_insert_eq. simpl.
        rewrite (inv_last c s Hinv m Hlast). lia.
      * rewrite lookup_insert_ne by done. apply Hinv.
    + change (mkBus _ _ _ _ _) with (read_all c' false (bus s)).1.
      destruct (String.eqb_spec c c') as [<-|Hne].
      * rewrite unread_after_read by done. rewrite app_nil_r. apply Hinv.
      * rewrite unread_other by done. apply Hinv.
  - unfold step. simpl.
    destruct (clear_old_messages_drop k (bus s)) as [j Hj].
    split; simpl; rewrite ?clear_old_messages_counter.
    + rewrite Hj. apply Forall_drop, Hinv.
    + intros m. rewrite Hj. intros Hm%last_drop_Some. by apply Hinv.
    + rewrite clear_old_messages_offsets. apply Hinv.
    + etrans; [|apply (inv_sub c s Hinv)].
      apply sublist_app; [done | apply unread_clear_old].
  - unfold step. split; simpl.
    + constructor.
    + by intros m.
    + by rewrite lookup_empty.
    + rewrite unread_eq. simpl. rewrite app_nil_r.
      by apply (delivered_sublist c).
Qed.

Lemma run_inv_run c ops s : run_inv c s → run_inv c (run c ops s).
Proof.
  revert s. induction ops as [|o ops IH]; intros s Hinv; [done|].
  apply IH, step_inv, Hinv.
Qed.

(** ** Id order, as long as the bus is not reset *)

Lemma order_inv_start n : order_inv (start n).
Proof. split; simpl; constructor. Qed.

Lemma step_order c o s :
  match o with Reset => false | _ => true end = true →
  order_inv s → order_inv (step c o s).
Proof.
  intros Ho [Hs Hb].
  destruct o as [sender ty payload prio ts | c' [|] | k | ]; [| | | |done].
  - rewrite step_send. split; simpl.
    + apply StronglySorted_app_2; [| done | repeat constructor].
      intros x1 x2 Hx1 Hx2. apply list_elem_of_singleton in Hx2 as ->.
      rewrite Forall_forall in Hb. specialize (Hb x1 Hx1).
      unfold id_lt. simpl. lia.
    + apply Forall_app. split.
      * eapply Forall_impl; [exact Hb|]. simpl. intros; lia.
      * repeat constructor. simpl. lia.
  - rewrite step_drain. by split.
  - rewrite step_read. by split.
  - unfold step. split; simpl; [done|].
    by rewrite clear_old_messages_counter.
Qed.

Lemma run_order c ops s :
  reset_free ops = true → order_inv s → order_inv (run c ops s).
Proof.
  revert s. induction ops as [|o ops IH]; intros s Hfree Hinv; [done|].
  simpl in Hfree. apply andb_true_iff in Hfree as [Ho Hfree].
  apply IH; [done|]. by apply step_order.
Qed.

Lemma sorted_sublist (l k : list Message) :
  l `sublist_of` k → StronglySorted id_lt k → StronglySorted id_lt l.
Proof.
  induction 1 as [|x l k Hsub IH|x l k Hsub IH]; intros Hs.
  - constructor.
  - apply StronglySorted_inv in Hs as [Hs Hall]. constructor; [by apply IH|].
    eapply sublist_all; done.
  - apply StronglySorted_inv in Hs as [Hs _]. by apply IH.
Qed.

(** ** Counting what is removed unread *)

Lemma step_count c o s :
  run_inv c s →
  (accounted c (step c o s) + dropped c o (bus s) + length (sent s)
   = accounted c s + length (sent (step c o s)))%nat.
Proof.
  intros Hinv. unfold accounted.
  destruct o as [sender ty payload prio ts | c' [|] | k | ].
  - rewrite step_send. simpl.
    change (mkBus _ _ _ _ _) with (send sender ty payload prio ts (bus s)).1.
    rewrite unread_send by apply Hinv. rewrite !length_app. simpl. lia.
  - rewrite step_drain. unfold dropped. cbn [bus delivered sent].
    assert (H : unread c (read_all c' true (bus s)).1 = []) by done.
    rewrite !H. simpl. lia.
  - rewrite step_read. simpl.
    change (mkBus _ _ _ _ _) with (read_all c' false (bus s)).1.
    destruct (String.eqb_spec c c') as [<-|Hne].
    + rewrite unread_after_read by done. rewrite length_app. simpl. lia.
    + rewrite unread_other by done. lia.
  - unfold step. simpl.
    pose proof (sublist_length _ _ (unread_clear_old c k (bus s))). lia.
  - unfold step, dropped. cbn [bus delivered sent].
    assert (H : unread c (reset (bus s)) = []) by done.
    rewrite !H. simpl. lia.
Qed.

Lemma run_count c ops s :
  run_inv c s →
  (accounted c (run c ops s) + lost c ops s + length (sent s)
   = accounted c s + length (sent (run c ops s)))%nat.
Proof.
  revert s. induction ops as [|o ops IH]; intros s Hinv; [simpl; lia|].
  pose proof (step_count c o s Hinv) as H1.
  pose proof (IH (step c o s) (step_inv c o s Hinv)) as H2.
  change (run c (o :: ops) s) with (run c ops (step c o s)).
  cbn [lost]. lia.
Qed.

(** ** What is missing stays missing, as long as the bus is not reset *)

Lemma step_fresh c o s (D : list Message) (k : Z) :
  match o with Reset => false | _ => true end = true →
  run_inv c s →
  k ≤ message_id_counter (bus s) →
  Forall (λ m, m ∈ D ∨ k < msg_id m) (delivered s ++ unread c (bus s)) →
  k ≤ message_id_counter (bus (step c o s))
  ∧ Forall (λ m, m ∈ D ∨ k < msg_id m)
           (delivered (step c o s) ++ unread c (bus (step c o s))).
Proof.
  intros Ho Hinv Hk Hall.
  destruct o as [sender ty payload prio ts | c' [|] | k' | ]; [| | | |done].
  - rewrite step_send. cbn [bus delivered]. split; [simpl; lia|].
    rewrite unread_send by apply (inv_cursor c s Hinv).
    rewrite app_assoc. apply Forall_app. split; [done|].
    apply Forall_singleton. right. simpl. lia.
  - rewrite step_drain. cbn [bus delivered]. split; [done|].
    change (unread c (read_all c' true (bus s)).1) with (@nil Message).
    rewrite app_nil_r. apply Forall_app in Hall. apply Hall.
  - rewrite step_read. cbn [bus delivered]. split; [done|].
    destruct (String.eqb_spec c c') as [<-|Hne].
    + rewrite unread_after_read by done. by rewrite app_nil_r.
    + by rewrite unread_other.
  - unfold step. cbn [bus delivered]. rewrite clear_old_messages_counter.
    split; [done|].
    apply Forall_app in Hall as [H1 H2]. apply Forall_app. split; [done|].
    eapply sublist_all; [apply unread_clear_old | done].
Qed.

Lemma run_fresh c ops s (D : list Message) (k : Z) :
  reset_free ops = true →
  run_inv c s →
  k ≤ message_id_counter (bus s) →
  Forall (λ m, m ∈ D ∨ k < msg_id m) (delivered s ++ unread c (bus s)) →
  Forall (λ m, m ∈ D ∨ k < msg_id m)
         (delivered (run c ops s) ++ unread c (bus (run c ops s))).
Proof.
  revert s. induction ops as [|o ops IH]; intros s Hfree Hinv Hk Hall;
    [done|].
  simpl in Hfree. apply andb_true_iff in Hfree as [Ho Hfree].
  destruct (step_fresh c o s D k Ho Hinv Hk Hall) as [Hk' Hall'].
  change (run c (o :: ops) s) with (run c ops (step c o s)).
  apply IH; [done | by apply step_inv | done | done].
Qed.

(** C1 (as amended).  Whatever operations run on a fresh bus (sends,
    reads with or without [clear], [clear_old_messages], [reset]), what
    consumer [c] has received from its successive [read_all(c)] calls
    with [clear=False] is a selection of the messages sent, in send
    order, none twice; as long as the bus is not reset their ids strictly
    increase.  The number received plus the number the next
    [read_all(c)] would return is the number sent less the number removed
    from the active list before [c] had read them (by
    [clear_old_messages], by a read with [clear=True], or by [reset]);
    when none was removed unread, what [c] received followed by what its
    next [read_all(c)] would return is exactly the list of all messages
    sent since the bus was created.  And as long as the bus is not reset,
    a message sent that [c] has neither received nor would receive from
    its next read is never delivered to it, whatever follows. *)
Theorem read_all_replay (n : nat) (c : string) (ops : list op) :
  let s := run c ops (start n) in
  delivered s `sublist_of` sent s
  ∧ (delivered s ++ unread c (bus s)) `sublist_of` sent s
  ∧ (reset_free ops = true → StronglySorted id_lt (delivered s))
  ∧ (length (delivered s) + length (unread c (bus s))
     + lost c ops (start n) = length (sent s))%nat
  ∧ (lost c ops (start n) = 0%nat →
     delivered s ++ unread c (bus s) = sent s)
  ∧ (∀ (more : list op) (m : Message),
       reset_free (ops ++ more) = true →
       m ∈ sent s →
       m ∉ delivered s ++ unread c (bus s) →
       m ∉ delivered (run c more s) ++ unread c (bus (run c more s))).
Proof.
  intros s. pose proof (run_inv_run c ops _ (run_inv_start c n)) as Hinv.
  fold s in Hinv.
  pose proof (run_count c ops _ (run_inv_start c n)) as Hcount.
  fold s in Hcount. unfold accounted in Hcount. simpl in Hcount.
  split; [by apply (delivered_sublist c)|].
  split; [apply Hinv|]. split; [|split; [lia|split]].
  - intros Hfree.
    eapply sorted_sublist; [by apply (delivered_sublist c)|].
    apply (run_order c ops _ Hfree (order_inv_start n)).
  - intros Hlost. apply sublist_same_length; [apply Hinv|].
    rewrite length_app. lia.
  - intros more m Hfree Hsent Hmiss Hlater.
    unfold reset_free in Hfree. rewrite forallb_app in Hfree.
    apply andb_true_iff in Hfree as [Hfree1 Hfree2].
    pose proof (run_order c ops _ Hfree1 (order_inv_start n)) as [_ Hb].
    fold s in Hb. rewrite Forall_forall in Hb. specialize (Hb m Hsent).
    pose proof (run_fresh c more s (delivered s ++ unread c (bus s))
                  (message_id_counter (bus s)) Hfree2 Hinv (Z.le_refl _))
      as Hall.
    rewrite !Forall_forall in Hall.
    destruct (Hall (λ x Hx, or_introl Hx) m Hlater) as [?|?]; [done | lia].
Qed.

Lemma read_all_replay_witness :
  (reset_free demo_trace = true
   ∧ lost "c1" demo_trace (start 500) = 0%nat
   ∧ StronglySorted id_lt (delivered (run "c1" demo_trace (start 500)))
   ∧ delivered (run "c1" demo_trace (start 500))
     ++ unread "c1" (bus (run "c1" demo_trace (start 500)))
     = sent (run "c1" demo_trace (start 500)))
  ∧ (reset_free (lossy_trace ++ later_trace) = true
     ∧ first_message ∈ sent (run "c1" lossy_trace (start 500))
     ∧ lost "c1" lossy_trace (start 500) = 1%nat
     ∧ first_message
       ∉ delivered (run "c1" later_trace (run "c1" lossy_trace (start 500)))
         ++ unread "c1"
              (bus (run "c1" later_trace
                      (run "c1" lossy_trace (start 500))))).
Proof.
  assert (Hfree : reset_free demo_trace = true) by reflexivity.
  assert (Hlost : lost "c1" demo_trace (start 500) = 0%nat)
    by (vm_compute; reflexivity).
  assert (Hfree' : reset_free (lossy_trace ++ later_trace) = true)
    by reflexivity.
  assert (Hsent : first_message ∈ sent (run "c1" lossy_trace (start 500)))
    by (vm_compute; left).
  assert (Hlost' : lost "c1" lossy_trace (start 500) = 1%nat)
    by (vm_compute; reflexivity).
  assert (Hmiss : first_message
                  ∉ delivered (run "c1" lossy_trace (start 500))
                    ++ unread "c1" (bus (run "c1" lossy_trace (start 500)))).
  { vm_compute. intros H. apply list_elem_of_singleton in H. discriminate. }
  pose proof (read_all_replay 500 "c1" demo_trace) as (_ & _ & Ho & _ & He & _).
  pose proof (read_all_replay 500 "c1" lossy_trace)
    as (_ & _ & _ & _ & _ & Hm).
  exact (conj (conj Hfree (conj Hlost (conj (Ho Hfree) (He Hlost))))
              (conj Hfree' (conj Hsent (conj Hlost'
                 (Hm later_trace first_message Hfree' Hsent Hmiss))))).
Defined.

(** C1 (as stated) fails: [c1] reads an empty bus, two messages are
    sent, [clear_old_messages(1)] drops the first, and the next
    [read_all("c1")] returns only the second. *)
Lemma read_all_replay_counterexample :
  let s := run "c1" [ReadAll "c1" false; Send "A" "x" (PDict []) 1 0%Q;
                     Send "B" "y" (PDict []) 1 0%Q; ClearOld 1;
                     ReadAll "c1" false] (start 500) in
  msg_id <$> sent s = [1; 2]
  ∧ msg_id <$> delivered s = [2]
  ∧ delivered s ≠ sent s.
Proof.
  split; [reflexivity|]. split; [reflexivity|].
  intros H. apply (f_equal length) in H. vm_compute in H. discriminate.
Qed.

(** The other two ways of losing a message: a read with [clear=True] by
    another party empties the active list before [c1] reads, and a
    [reset] both empties it and restarts the ids, so that [c1] receives
    two messages with id 1. *)
Lemma read_all_replay_cleared :
  let drained := run "c1" [ReadAll "c1" false; Send "A" "x" (PDict []) 1 0%Q;
                           ReadAll "legacy" true; ReadAll "c1" false]
                     (start 500) in
  let restarted := run "c1" [Send "A" "x" (PDict []) 1 0%Q;
                             ReadAll "c1" false; Reset;
                             Send "B" "y" (PDict []) 1 0%Q;
                             ReadAll "c1" false] (start 500) in
  (msg_id <$> sent drained = [1] ∧ delivered drained = [])
  ∧ (msg_id <$> sent restarted = [1; 1]
     ∧ msg_id <$> delivered restarted = [1; 1]).
Proof. repeat split; reflexivity. Qed.

End BusFacts.

(* ===================================================================== *)
(** * Properties of the environment *)
(* ===================================================================== *)

Module EnvFacts.
Import Random Environment EnvSpec.

Lemma nonneg_insert (m : gmap string Z) k v :
  nonneg m → 0 ≤ v → nonneg (<[k := v]> m).
Proof. intros Hm Hv. by apply map_Forall_insert_2. Qed.

Lemma nonneg_default : nonneg default_resources.
Proof.
  unfold default_resources. repeat (apply nonneg_insert; [|lia]).
  apply map_Forall_empty.
Qed.

Lemma nonneg_clamp (m : gmap string Z) : nonneg (Z.max 0 <$> m).
Proof.
  intros k v. rewrite lookup_fmap. destruct (m !! k); simpl; [|done].
  intros [= <-]. lia.
Qed.

Lemma randint_range tape a b pos :
  a ≤ b → a ≤ (randint tape a b pos).1 ≤ b.
Proof.
  intros Hab. unfold randint, randbelow, bind, ret. simpl.
  pose proof (Z.mod_pos_bound (tape pos) (b - a + 1)). lia.
Qed.

Lemma draw_each_all tape (P : Z → Prop) f (m : gmap string Z) pos :
  (∀ v raw, P (f v raw)) →
  map_Forall (λ _ v, P v) (draw_each tape f m pos).1.
Proof.
  intros HP k v. unfold draw_each. simpl. intros H.
  apply elem_of_list_to_map_2 in H.
  apply elem_of_lookup_imap in H as (i & kv & Heq & _).
  injection Heq as _ ->. apply HP.
Qed.

Lemma randomize_nonneg tape amb drn kit crw fod r pos :
  0 ≤ amb.1 ≤ amb.2 → 0 ≤ drn.1 ≤ drn.2 → 0 ≤ kit.1 ≤ kit.2 →
  0 ≤ crw.1 ≤ crw.2 → 0 ≤ fod.1 ≤ fod.2 →
  nonneg r → nonneg (randomize tape amb drn kit crw fod r pos).1.
Proof.
  intros Ha Hd Hk Hc Hf Hr. unfold randomize, bind, ret.
  destruct (randint tape amb.1 amb.2 pos) as [a p1] eqn:E1.
  destruct (randint tape drn.1 drn.2 p1) as [d p2] eqn:E2.
  destruct (randint tape kit.1 kit.2 p2) as [k p3] eqn:E3.
  destruct (randint tape crw.1 crw.2 p3) as [c p4] eqn:E4.
  destruct (randint tape fod.1 fod.2 p4) as [f p5] eqn:E5.
  simpl.
  pose proof (randint_range tape amb.1 amb.2 pos) as R1.
  pose proof (randint_range tape drn.1 drn.2 p1) as R2.
  pose proof (randint_range tape kit.1 kit.2 p2) as R3.
  pose proof (randint_range tape crw.1 crw.2 p3) as R4.
  pose proof (randint_range tape fod.1 fod.2 p4) as R5.
  rewrite E1 in R1. rewrite E2 in R2. rewrite E3 in R3.
  rewrite E4 in R4. rewrite E5 in R5. simpl in *.
  repeat (apply nonneg_insert; [|lia]). done.
Qed.

Lemma random_resources_nonneg tape sc seismic r pos :
  nonneg r → nonneg (random_resources tape sc seismic r pos).1.
Proof.
  intros Hr. unfold random_resources.
  repeat case_match; try (apply randomize_nonneg; simpl; (lia || done)).
  apply (draw_each_all tape (λ v, 0 ≤ v)). intros; lia.
Qed.

Lemma given_resources_nonneg (g r : gmap string Z) :
  nonneg r →
  nonneg (map_imap (λ k old, Some (match g !! k with
                                   | Some v => Z.max 0 v
                                   | None => old
                                   end)) r).
Proof.
  intros Hr k v. rewrite map_lookup_imap.
  destruct (r !! k) as [old|] eqn:Hk; simpl; [|done].
  intros [= <-]. destruct (g !! k); [lia|]. by apply (Hr k).
Qed.

(** The fields of the state [trigger_disaster] builds. *)
Lemma trigger_disaster_shape tape sc intensity given e pos :
  let e' := (trigger_disaster tape sc intensity given e pos).1 in
  phase e' = response
  ∧ 10 ≤ victims e'
  ∧ cooldown_counter e' = cooldown_counter e
  ∧ params e' = params e
  ∧ initial_resources e' = resources e'
  ∧ (nonneg (resources e) → nonneg (resources e')).
Proof.
  unfold trigger_disaster, bind, ret.
  repeat match goal with
         | |- context [let '(_, _) := ?m in _] =>
             let x := fresh "x" in let p := fresh "p" in
             destruct m as [x p] eqn:?
         end.
  simpl. repeat split; try lia.
  intros Hr.
  match goal with
  | Hres : _ = (?r, _) |- nonneg ?r =>
      apply (f_equal fst) in Hres; simpl in Hres; subst r
  end.
  repeat case_match; simpl;
    by (apply random_resources_nonneg || apply given_resources_nonneg).
Qed.

(** What one response-phase tick does to the fields the properties
    mention. *)
Lemma update_response_shape tape e pos :
  let e' := (update_response tape e pos).1 in
  initial_resources e' = initial_resources e
  ∧ cooldown_counter e' = cooldown_counter e
  ∧ params e' = params e
  ∧ (phase e' = phase e
     ∨ (phase e' = rebuild ∧ victims e' = victims e ∧ victims e ≤ 0
        ∧ aftershock e' = false)).
Proof.
  unfold update_response, bind, ret, random, randint, randbelow.
  cbv zeta. cbv beta iota.
  repeat case_match; simpl; repeat split; auto.
  all: right; repeat split; auto; bool_facts.
Qed.

Lemma update_recovered_shape tape e pos :
  let e' := (update_recovered tape e pos).1 in
  (nonneg (resources e) → nonneg (resources e'))
  ∧ (nonneg (initial_resources e) → nonneg (resources e) →
     nonneg (initial_resources e'))
  ∧ (0 ≤ cooldown_counter e → 0 ≤ cooldown_counter e')
  ∧ params e' = params e
  ∧ (phase e' = phase e
     ∨ (phase e' = response ∧ cooldown_counter e ≤ 0)).
Proof.
  unfold update_recovered. case_match; bool_facts.
  - unfold ret. simpl. repeat split; auto. lia.
  - unfold choice, randbelow, random, bind, ret. cbv beta iota zeta.
    match goal with
    | |- context [trigger_disaster ?t ?s ?i ?g e ?p] =>
        pose proof (trigger_disaster_shape t s i g e p) as (Hp & Hv & Hc & Hpa & Hi & Hr);
        cbv zeta in *; set (e' := (trigger_disaster t s i g e p).1) in *
    end.
    repeat split; auto.
    + intros _ Hn. rewrite Hi. auto.
    + lia.
Qed.

Lemma update_rebuild_shape tape e pos :
  let e' := (update_rebuild tape e pos).1 in
  initial_resources e' = initial_resources e
  ∧ (0 ≤ cooldown_counter e → 0 ≤ cooldown_counter e')
  ∧ params e' = params e
  ∧ (phase e' = phase e
     ∨ (phase e' = recovered
        ∧ (rebuild_required (params e) <= rebuild_progress e')%Q)).
Proof.
  unfold update_rebuild, randint, randbelow, random, bind, ret.
  cbv beta iota zeta. rand_cases; simpl; repeat split; auto.
  - intros _. bool_facts. pose proof (Z.mod_pos_bound (tape n0) (6 - 2 + 1)).
    lia.
  - right. split; [done|]. by apply Qle_bool_iff.
Qed.

Lemma clamp_shape e :
  0 ≤ victims (clamp e) ∧ nonneg (resources (clamp e))
  ∧ initial_resources (clamp e) = initial_resources e
  ∧ cooldown_counter (clamp e) = cooldown_counter e
  ∧ params (clamp e) = params e
  ∧ phase (clamp e) = phase e
  ∧ aftershock (clamp e) = aftershock e
  ∧ rebuild_progress (clamp e) = rebuild_progress e
  ∧ victims (clamp e) = Z.max 0 (victims e).
Proof.
  unfold clamp. simpl. repeat split; auto; [lia | apply nonneg_clamp].
Qed.

Lemma tick_shape e :
  victims (tick e) = victims e ∧ resources (tick e) = resources e
  ∧ initial_resources (tick e) = initial_resources e
  ∧ cooldown_counter (tick e) = cooldown_counter e
  ∧ params (tick e) = params e ∧ phase (tick e) = phase e.
Proof. done. Qed.

Lemma update_inv tape e pos : env_inv e → env_inv (update tape e pos).1.
Proof.
  intros [Hv Hr Hi Hc Hp]. unfold update.
  destruct (phase e) eqn:Hph; [done | | |]; unfold bind, ret.
  - destruct (update_response tape (tick e) pos) as [e1 p1] eqn:E.
    pose proof (update_response_shape tape (tick e) pos) as (H1 & H2 & H3 & _).
    rewrite E in *. simpl in *.
    destruct (clamp_shape e1) as (? & ? & Hi' & Hc' & Hp' & _).
    split; [done | done | rewrite Hi', H1 | rewrite Hc', H2
           | rewrite Hp', H3]; done.
  - destruct (update_rebuild tape (tick e) pos) as [e1 p1] eqn:E.
    pose proof (update_rebuild_shape tape (tick e) pos) as (H1 & H2 & H3 & _).
    rewrite E in *. simpl in *.
    destruct (clamp_shape e1) as (? & ? & Hi' & Hc' & Hp' & _).
    split; [done | done | rewrite Hi', H1 | rewrite Hc'; auto
           | rewrite Hp', H3]; done.
  - destruct (update_recovered tape (tick e) pos) as [e1 p1] eqn:E.
    pose proof (update_recovered_shape tape (tick e) pos)
      as (H0 & H1 & H2 & H3 & _).
    rewrite E in *. simpl in *.
    destruct (clamp_shape e1) as (? & ? & Hi' & Hc' & Hp' & _).
    split; [done | done | rewrite Hi'; auto | rewrite Hc'; auto
           | rewrite Hp', H3]; done.
Qed.

Lemma use_resource_inv name amount e :
  env_inv e → env_inv (use_resource name amount e).1.
Proof.
  intros [Hv Hr Hi Hc Hp]. unfold use_resource.
  destruct (resources e !! name) as [have|] eqn:Hk; [|done].
  split; simpl; try done.
  apply nonneg_insert; [done|]. specialize (Hr name have Hk). simpl in Hr. lia.
Qed.

Lemma save_victims_inv count e :
  env_inv e → env_inv (save_victims count e).1.
Proof. intros [Hv Hr Hi Hc Hp]. split; simpl; try done. lia. Qed.

Lemma reset_inv e : env_inv e → env_inv (reset e).
Proof.
  intros [Hv Hr Hi Hc Hp].
  split; simpl; try done; apply nonneg_default.
Qed.

Lemma init_inv : env_inv init.
Proof. split; simpl; try done; apply nonneg_default. Qed.

Lemma trigger_disaster_inv tape sc intensity given e pos :
  env_inv e → env_inv (trigger_disaster tape sc intensity given e pos).1.
Proof.
  intros [Hv Hr Hi Hc Hp].
  pose proof (trigger_disaster_shape tape sc intensity given e pos)
    as (H1 & H2 & H3 & H4 & H5 & H6). cbv zeta in *.
  split; try lia; try congruence; auto. rewrite H5. auto.
Qed.

Lemma foldl_fst_inv {A B C} (f : B * C → A → B * C) (P : B → Prop)
    (l : list A) (acc : B * C) :
  (∀ acc d, P acc.1 → P (f acc d).1) → P acc.1 → P (foldl f acc l).1.
Proof.
  intros Hf. revert acc. induction l as [|d l IH]; intros acc Hacc; [done|].
  simpl. apply IH, Hf, Hacc.
Qed.

Lemma foldl_inv {A B} (f : B → A → B) (P : B → Prop) (l : list A) (acc : B) :
  (∀ acc d, P acc → P (f acc d)) → P acc → P (foldl f acc l).
Proof.
  intros Hf. revert acc. induction l as [|d l IH]; intros acc Hacc; [done|].
  simpl. apply IH, Hf, Hacc.
Qed.

Lemma utility_consume_inv alloc e :
  env_inv e → env_inv (UtilityAgent.consume alloc e).
Proof.
  intros He. unfold UtilityAgent.consume. apply foldl_inv; [|done].
  intros acc d Hacc. repeat case_match; try done.
  by apply use_resource_inv.
Qed.

Lemma utility_execute_inv d e :
  env_inv e → env_inv (UtilityAgent.execute d e).1.
Proof.
  intros He. unfold UtilityAgent.execute.
  repeat case_match; simpl; try done; try by apply utility_consume_inv.
  match goal with
  | H : save_victims ?c ?e1 = (?e2, _) |- env_inv ?e2 =>
      replace e2 with (save_victims c e1).1 by (by rewrite H)
  end.
  by apply save_victims_inv, utility_consume_inv.
Qed.

Lemma utility_act_env time_time e b st :
  ∃ ds, (UtilityAgent.act time_time e b st).1.1
        = (foldl (λ acc d,
                    let '(env1, payload) := UtilityAgent.execute d acc.1 in
                    (env1, Agent.emit time_time UtilityAgent.name
                                      (Agent.intent_type d) payload
                                      (Agent.intent_priority d) acc.2))
                 (e, b) ds).1.
Proof.
  unfold UtilityAgent.act.
  destruct (UtilityAgent.decide _ st) as [ds st1]. exists ds.
  by destruct (foldl _ _ ds).
Qed.

Lemma utility_act_inv time_time e b st :
  env_inv e → env_inv (UtilityAgent.act time_time e b st).1.1.
Proof.
  intros He. destruct (utility_act_env time_time e b st) as [ds ->].
  apply (foldl_fst_inv _ env_inv); [|done].
  intros acc d Hacc.
  pose proof (utility_execute_inv d acc.1 Hacc) as H.
  by destruct (UtilityAgent.execute d acc.1).
Qed.

Lemma rebuild_execute_inv time_time d e b :
  env_inv e → env_inv (RebuildAgent.execute time_time d e b).1.
Proof.
  intros He. unfold RebuildAgent.execute.
  repeat case_match; simpl; try done.
  - match goal with
    | H : use_resource ?n ?a e = (?e1, ?u) |- _ =>
        pose proof (use_resource_inv n a e He) as [Hv Hr Hi Hc Hp];
        rewrite H in *; simpl in *
    end.
    split; simpl; try done. apply nonneg_insert; [done|].
    bool_facts.
    match goal with
    | |- 0 ≤ default 0 (?m !! ?k) + ?u / _ =>
        assert (0 ≤ default 0 (m !! k))
          by (destruct (m !! k) as [v|] eqn:Hk; simpl;
              [apply (Hr k v Hk) | lia]);
        assert (0 ≤ u / RebuildAgent.FOOD_COST_PER_CREW)
          by (apply Z.div_pos; unfold RebuildAgent.FOOD_COST_PER_CREW; lia)
    end.
    lia.
  - match goal with
    | H : use_resource ?n ?a e = (?e1, ?u) |- _ =>
        pose proof (use_resource_inv n a e He) as Hinv;
        by rewrite H in Hinv
    end.
Qed.

Lemma rebuild_act_inv time_time e b st :
  env_inv e → env_inv (RebuildAgent.act time_time e b st).1.1.
Proof.
  intros He. unfold RebuildAgent.act.
  destruct (RebuildAgent.decide _ st) as [ds st1].
  pose proof (foldl_fst_inv
                (λ acc d, RebuildAgent.execute time_time d acc.1 acc.2)
                env_inv ds (e, b)) as H.
  destruct (foldl _ _ ds) as [e' b']. simpl in *. apply H; [|done].
  intros acc d. apply rebuild_execute_inv.
Qed.

Lemma reachable_inv e : reachable e → env_inv e.
Proof.
  induction 1.
  - apply init_inv.
  - by apply trigger_disaster_inv.
  - by apply update_inv.
  - by apply use_resource_inv.
  - by apply save_victims_inv.
  - by apply reset_inv.
  - by apply utility_act_inv.
  - by apply rebuild_act_inv.
Qed.

(** ** The used-counters *)

Lemma reachable_nonneg_amounts_reachable e :
  reachable_nonneg_amounts e → reachable e.
Proof. induction 1; by constructor. Qed.

Lemma nonneg_zeros (m : gmap string Z) : nonneg ((λ _, 0) <$> m).
Proof.
  intros k v. rewrite lookup_fmap. destruct (m !! k); simpl; [|done].
  by intros [= <-].
Qed.

Lemma trigger_disaster_used tape sc intensity given e pos :
  nonneg (resources_used (trigger_disaster tape sc intensity given e pos).1).
Proof.
  unfold trigger_disaster, bind, ret.
  repeat match goal with
         | |- context [let '(_, _) := ?m in _] => destruct m as [? ?]
         end.
  simpl. apply nonneg_zeros.
Qed.

Lemma update_response_used tape e pos :
  resources_used (update_response tape e pos).1 = resources_used e.
Proof.
  unfold update_response, bind, ret, random, randint, randbelow.
  cbv zeta. cbv beta iota. by repeat case_match.
Qed.

Lemma update_rebuild_used tape e pos :
  resources_used (update_rebuild tape e pos).1 = resources_used e.
Proof.
  unfold update_rebuild, randint, randbelow, random, bind, ret.
  cbv beta iota zeta. by rand_cases.
Qed.

Lemma update_used tape e pos :
  nonneg (resources_used e) → nonneg (resources_used (update tape e pos).1).
Proof.
  intros Hu. unfold update.
  destruct (phase e); [done | | |]; unfold bind, ret.
  - pose proof (update_response_used tape (tick e) pos) as H.
    destruct (update_response tape (tick e) pos) as [e1 p1].
    simpl in *. by rewrite H.
  - pose proof (update_rebuild_used tape (tick e) pos) as H.
    destruct (update_rebuild tape (tick e) pos) as [e1 p1].
    simpl in *. by rewrite H.
  - assert (H : nonneg (resources_used (update_recovered tape (tick e) pos).1)).
    { unfold update_recovered. case_match; [done|].
      unfold choice, randbelow, random, bind, ret. cbv beta iota zeta.
      apply trigger_disaster_used. }
    by destruct (update_recovered tape (tick e) pos) as [e1 p1].
Qed.

Lemma use_resource_used name amount e :
  0 ≤ amount → nonneg (resources e) → nonneg (resources_used e) →
  nonneg (resources_used (use_resource name amount e).1).
Proof.
  intros Ha Hr Hu. unfold use_resource.
  destruct (resources e !! name) as [have|] eqn:Hk; [|done].
  pose proof (Hr name have Hk) as Hh. simpl in Hh.
  simpl. apply nonneg_insert; [done|].
  destruct (resources_used e !! name) as [u|] eqn:Hku; simpl; [|lia].
  pose proof (Hu name u Hku) as Hu'. simpl in Hu'. lia.
Qed.

Lemma utility_consume_used alloc e :
  used_inv e → used_inv (UtilityAgent.consume alloc e).
Proof.
  unfold UtilityAgent.consume. apply (foldl_inv _ used_inv).
  intros acc kv [Hacc Hu]. destruct kv.2; try done.
  destruct (0 <? z) eqn:Hz; [|done]. apply Z.ltb_lt in Hz.
  split; [by apply use_resource_inv|].
  apply use_resource_used; [lia | apply Hacc | done].
Qed.

Lemma utility_act_used time_time e b st :
  used_inv e → used_inv (UtilityAgent.act time_time e b st).1.1.
Proof.
  intros He. destruct (utility_act_env time_time e b st) as [ds ->].
  apply (foldl_fst_inv _ used_inv); [|exact He].
  intros acc d Hacc.
  split; [pose proof (utility_execute_inv d acc.1 (proj1 Hacc)) as H;
          by destruct (UtilityAgent.execute d acc.1)|].
  unfold UtilityAgent.execute.
  destruct (String.eqb _ _); [|apply Hacc].
  apply (utility_consume_used
           (Agent.get_dict "allocation" (Agent.intent_payload d))) in Hacc.
  destruct (0 <? _); [|apply Hacc].
  unfold save_victims. simpl. apply Hacc.
Qed.

Lemma rebuild_decide_asks obs st :
  Forall asks_crews (RebuildAgent.decide obs st).1.
Proof.
  unfold RebuildAgent.decide. case_match; [constructor|]. simpl.
  constructor; [by intros ?|]. apply Forall_app. split.
  - case_match; [|constructor]. apply Forall_singleton. intros _.
    bool_facts. cbn. unfold RebuildAgent.MIN_CREWS_FOR_REBUILD in *. lia.
  - case_match; [|constructor]. apply Forall_singleton. by intros ?.
Qed.

Lemma rebuild_execute_used time_time d e b :
  asks_crews d → used_inv e →
  used_inv (RebuildAgent.execute time_time d e b).1.
Proof.
  intros Hd [He Hu]. split; [by apply rebuild_execute_inv|].
  unfold RebuildAgent.execute.
  destruct (String.eqb_spec (Agent.intent_type d) "repair_request")
    as [Hty|Hty]; [|by repeat case_match].
  specialize (Hd Hty).
  destruct (0 <? _) eqn:Hfood; [|done]. apply Z.ltb_lt in Hfood.
  match goal with
  | |- context [use_resource ?n ?a e] =>
      pose proof (use_resource_used n a e) as H;
      destruct (use_resource n a e) as [e1 used] eqn:E
  end.
  simpl in H.
  assert (Hused : nonneg (resources_used e1)).
  { apply H; [|apply He|done].
    unfold RebuildAgent.FOOD_COST_PER_CREW in *. lia. }
  by destruct (0 <? used).
Qed.

Lemma foldl_fst_inv_on {A B C} (f : B * C → A → B * C) (P : B → Prop)
    (Q : A → Prop) (l : list A) (acc : B * C) :
  (∀ acc d, Q d → P acc.1 → P (f acc d).1) →
  Forall Q l → P acc.1 → P (foldl f acc l).1.
Proof.
  intros Hf Hl. revert acc.
  induction Hl as [|d l Hd _ IH]; intros acc Hacc; [done|].
  simpl. by apply IH, Hf.
Qed.

Lemma rebuild_act_used time_time e b st :
  used_inv e → used_inv (RebuildAgent.act time_time e b st).1.1.
Proof.
  intros He. unfold RebuildAgent.act.
  pose proof (rebuild_decide_asks (Agent.sense RebuildAgent.name e b) st)
    as Hds.
  destruct (RebuildAgent.decide _ st) as [ds st1]. simpl in Hds.
  pose proof (foldl_fst_inv_on
                (λ acc d, RebuildAgent.execute time_time d acc.1 acc.2)
                used_inv asks_crews ds (e, b)) as H.
  destruct (foldl _ _ ds) as [e' b']. simpl in *. apply H; [|done|done].
  intros acc d. apply rebuild_execute_used.
Qed.

Lemma reachable_nonneg_amounts_used e :
  reachable_nonneg_amounts e → used_inv e.
Proof.
  induction 1 as [|e tape pos sc intensity given _ [He Hu]
                  |e tape pos _ [He Hu]
                  |e name amount Ha _ [He Hu]
                  |e count _ [He Hu]
                  |e _ [He Hu]
                  |e time_time b st _ IH
                  |e time_time b st _ IH].
  - split; [apply init_inv | apply nonneg_zeros].
  - split; [by apply trigger_disaster_inv | apply trigger_disaster_used].
  - split; [by apply update_inv | by apply update_used].
  - split; [by apply use_resource_inv|].
    apply use_resource_used; [done | apply He | done].
  - split; [by apply save_victims_inv | done].
  - split; [by apply reset_inv | apply nonneg_zeros].
  - by apply utility_act_used.
  - by apply rebuild_act_used.
Qed.

(** C2 (as amended).  In every state the public operations can reach,
    the victim count and every count of the resource ledger (and of its
    initial snapshot) are at least 0; the used-counters of the ledger
    are at least 0 in every state reached without a negative amount
    passed to [use_resource]; and whatever the state before, a tick of
    [update] in a phase other than idle ends with victims and every
    resource count at least 0. *)
Theorem state_nonnegative :
  (∀ e, reachable e →
        0 ≤ victims e
        ∧ (∀ k v, resources e !! k = Some v → 0 ≤ v)
        ∧ (∀ k v, initial_resources e !! k = Some v → 0 ≤ v))
  ∧ (∀ e, reachable_nonneg_amounts e →
        ∀ k v, resources_used e !! k = Some v → 0 ≤ v)
  ∧ (∀ tape e pos, phase e ≠ idle →
        0 ≤ victims (update tape e pos).1
        ∧ (∀ k v, resources (update tape e pos).1 !! k = Some v → 0 ≤ v)).
Proof.
  split; [|split].
  - intros e [Hv Hr Hi _ _]%reachable_inv. done.
  - intros e [_ Hu]%reachable_nonneg_amounts_used. done.
  - intros tape e pos Hph. unfold update.
    destruct (phase e); [done | | |]; unfold bind, ret;
      match goal with
      | |- context [let '(_, _) := ?m in _] => destruct m as [e1 p1]
      end; simpl; destruct (clamp_shape e1) as (? & ? & _); done.
Qed.

Lemma state_nonnegative_witness :
  (reachable (use_resource "food_packs" 1000 init).1
   ∧ resources (use_resource "food_packs" 1000 init).1 !! "food_packs"
     = Some 0
   ∧ 0 ≤ victims (use_resource "food_packs" 1000 init).1)
  ∧ (reachable_nonneg_amounts (use_resource "food_packs" 1000 init).1
     ∧ resources_used (use_resource "food_packs" 1000 init).1
       !! "food_packs" = Some 50
     ∧ 0 ≤ 50).
Proof.
  split.
  - split; [apply reach_use_resource, reach_init|].
    split; [reflexivity|].
    apply (proj1 state_nonnegative).
    apply reach_use_resource, reach_init.
  - assert (H : reachable_nonneg_amounts
                  (use_resource "food_packs" 1000 init).1)
      by (apply nn_use_resource; [lia | apply nn_init]).
    split; [exact H|]. split; [reflexivity|].
    exact (proj1 (proj2 state_nonnegative) _ H "food_packs" 50 eq_refl).
Defined.

(** C2 (as stated) fails for the used-counters of the ledger:
    [use_resource("food_packs", -5)] on a fresh environment leaves the
    used-counter of food packs at -5. *)
Lemma state_nonnegative_counterexample :
  reachable (use_resource "food_packs" (-5) init).1
  ∧ resources_used (use_resource "food_packs" (-5) init).1 !! "food_packs"
    = Some (-5)
  ∧ ¬ nonneg (resources_used (use_resource "food_packs" (-5) init).1).
Proof.
  split; [apply reach_use_resource, reach_init|].
  split; [reflexivity|].
  intros H. specialize (H "food_packs" (-5) eq_refl). simpl in H. lia.
Qed.

(** C10.  On a reachable state, for a resource [name] present in the
    ledger and a negative amount [a], [use_resource(name, a)] returns [a],
    raises [resources[name]] by [-a] and lowers [resources_used[name]] by
    [-a].  Non-negativity of the ledger with its used-counters is kept by
    every amount that is at least 0, and is broken by every negative
    amount on a fresh environment. *)
Theorem use_resource_negative_amount :
  (∀ e name have a,
      reachable e → resources e !! name = Some have → a < 0 →
      (use_resource name a e).2 = a
      ∧ resources (use_resource name a e).1 !! name = Some (have + - a)
      ∧ resources_used (use_resource name a e).1 !! name
        = Some (default 0 (resources_used e !! name) - - a))
  ∧ (∀ e name amount,
      0 ≤ amount → ledger_nonneg e →
      ledger_nonneg (use_resource name amount e).1)
  ∧ (∀ name have a,
      resources init !! name = Some have → a < 0 →
      ¬ ledger_nonneg (use_resource name a init).1).
Proof.
  split; [|split].
  - intros e name have a [_ Hr _ _ _]%reachable_inv Hk Ha.
    specialize (Hr name have Hk). simpl in Hr.
    unfold use_resource. rewrite Hk. simpl.
    rewrite !lookup_insert_eq.
    replace (a `min` have) with a by lia.
    repeat split; f_equal; lia.
  - intros e name amount Ha [Hr Hu]. unfold use_resource.
    destruct (resources e !! name) as [have|] eqn:Hk; [|done].
    pose proof (Hr name have Hk) as Hh. simpl in Hh.
    split; simpl; (apply nonneg_insert; [done|]); [lia|].
    destruct (resources_used e !! name) as [u|] eqn:Hku; simpl; [|lia].
    pose proof (Hu name u Hku) as Hu'. simpl in Hu'. lia.
  - intros name have a Hk Ha [_ Hu]. unfold use_resource in Hu.
    rewrite Hk in Hu. simpl in Hu.
    assert (Hz : resources_used init !! name = Some 0).
    { simpl. rewrite lookup_fmap. simpl in Hk. by rewrite Hk. }
    specialize (Hu name (0 + a `min` have)). simpl in Hu.
    rewrite lookup_insert_eq in Hu. simpl in Hz. rewrite Hz in Hu. simpl in Hu.
    specialize (Hu eq_refl). lia.
Qed.

Lemma use_resource_negative_amount_witness :
  reachable init ∧ resources init !! "food_packs" = Some 50
  ∧ (use_resource "food_packs" (-5) init).2 = -5
  ∧ resources (use_resource "food_packs" (-5) init).1 !! "food_packs"
    = Some (50 + - -5).
Proof.
  split; [apply reach_init|]. split; [reflexivity|].
  pose proof (proj1 use_resource_negative_amount init "food_packs" 50 (-5)
                reach_init eq_refl eq_refl) as (H1 & H2 & _).
  exact (conj H1 H2).
Defined.

(** C3 (as amended).  From a reachable state, [update] changes the phase
    only from response to rebuild (with no victims left and no
    aftershock), from rebuild to recovered (with the progress at 100 or
    more), or from recovered to response (with the cooldown at 0), and it
    leaves an idle environment as it is; [trigger_disaster] sets the phase
    to response whatever the phase before. *)
Theorem update_phase_transitions :
  (∀ tape e pos,
      reachable e →
      listed_transition e (update tape e pos).1
      ∧ (phase e = idle → (update tape e pos).1 = e)
      ∧ (phase e = response → phase (update tape e pos).1 = rebuild →
         victims e = 0))
  ∧ (∀ tape scenario_ intensity given e pos,
      phase (trigger_disaster tape scenario_ intensity given e pos).1
      = response).
Proof.
  split.
  - intros tape e pos [Hv Hr Hi Hc Hp]%reachable_inv.
    unfold listed_transition, update.
    destruct (phase e) eqn:Hph; unfold bind, ret.
    + repeat split; auto; done.
    + destruct (update_response tape (tick e) pos) as [e1 p1] eqn:E.
      pose proof (update_response_shape tape (tick e) pos) as (_ & _ & _ & H).
      rewrite E in H. simpl in *.
      destruct (clamp_shape e1) as (_ & _ & _ & _ & _ & Hph' & Hs & _ & Hvv).
      rewrite ?Hph', ?Hs, ?Hvv in *. simpl in H. rewrite ?Hph in H.
      destruct H as [H | (H1 & H2 & H3 & H4)].
      * repeat split; try done; [by left | congruence].
      * repeat split; try done; [|lia].
        right; right; left. repeat split; auto. lia.
    + destruct (update_rebuild tape (tick e) pos) as [e1 p1] eqn:E.
      pose proof (update_rebuild_shape tape (tick e) pos) as (_ & _ & _ & H).
      rewrite E in H. simpl in *.
      destruct (clamp_shape e1) as (_ & _ & _ & _ & _ & Hph' & _ & Hpr & _).
      rewrite ?Hph', ?Hpr in *. simpl in H. rewrite ?Hph in H.
      destruct H as [H | (H1 & H2)]; (repeat split; try done).
      * by left.
      * right; right; right; left. repeat split; auto.
        rewrite Hp in H2. exact H2.
    + destruct (update_recovered tape (tick e) pos) as [e1 p1] eqn:E.
      pose proof (update_recovered_shape tape (tick e) pos)
        as (_ & _ & _ & _ & H).
      rewrite E in H. simpl in *.
      destruct (clamp_shape e1) as (_ & _ & _ & _ & _ & Hph' & _).
      rewrite ?Hph' in *. simpl in H. rewrite ?Hph in H.
      destruct H as [H | (H1 & H2)]; (repeat split; try done).
      * by left.
      * right; right; right; right. repeat split; auto. lia.
  - intros. apply trigger_disaster_shape.
Qed.

Lemma update_phase_transitions_witness :
  reachable cleared
  ∧ phase cleared = response
  ∧ phase (update half_tape cleared 0%nat).1 = rebuild
  ∧ listed_transition cleared (update half_tape cleared 0%nat).1
  ∧ victims cleared = 0.
Proof.
  assert (Hr : reachable cleared)
    by (unfold cleared, struck;
        apply reach_save_victims, reach_trigger, reach_init).
  assert (H1 : phase cleared = response) by (vm_compute; reflexivity).
  assert (H2 : phase (update half_tape cleared 0%nat).1 = rebuild)
    by (vm_compute; reflexivity).
  pose proof (proj1 update_phase_transitions half_tape cleared 0%nat Hr)
    as (Ht & _ & Hv).
  exact (conj Hr (conj H1 (conj H2 (conj Ht (Hv H1 H2))))).
Defined.

(** C3 (as stated) fails: a rebuilding environment is reachable, and a
    [trigger_disaster] call takes it from rebuild straight to response,
    which is none of the listed transitions. *)
Lemma update_phase_transitions_counterexample :
  reachable rebuilding
  ∧ phase rebuilding = rebuild
  ∧ phase (trigger_disaster half_tape "flood" 0.5 None rebuilding 0%nat).1
    = response
  ∧ ¬ listed_transition rebuilding
        (trigger_disaster half_tape "flood" 0.5 None rebuilding 0%nat).1.
Proof.
  assert (H1 : phase rebuilding = rebuild) by (vm_compute; reflexivity).
  assert (H2 : phase (trigger_disaster half_tape "flood" 0.5 None
                        rebuilding 0%nat).1 = response)
    by apply trigger_disaster_shape.
  split; [|split; [done | split; [done|]]].
  - apply reach_update, reach_save_victims, reach_trigger, reach_init.
  - unfold listed_transition. rewrite H1, H2. intuition congruence.
Qed.

Lemma trigger_earthquake_fields tape intensity given e pos :
  let e' := (trigger_disaster tape "earthquake" intensity given e pos).1 in
  affected_nodes e' = seqZ 0 (Z.of_nat (length nodes))
  ∧ victims e'
    = Z.max 10 (foldl (λ acc nid,
                         acc + base_victims "earthquake"
                                 (Qmax 0 (Qmin 1 intensity)) nid)
                      0 (seqZ 0 (Z.of_nat (length nodes)))).
Proof.
  unfold trigger_disaster, bind, ret. simpl String.eqb. cbv beta iota.
  repeat match goal with
         | |- context [let '(_, _) := ?m in _] =>
             destruct m as [? ?] eqn:?
         end.
  match goal with H : _ pos = (_, _) |- _ => simpl in H; injection H as <- <- end.
  split; reflexivity.
Qed.

(** C5 (as amended).  After [trigger_disaster("earthquake", 1.0)] on the
    full graph, whatever the draws, the resources given and the state
    before, the affected nodes are all node ids and the victims are
    max(10, the sum over the nodes of population x 0.01 x seismic_level x
    vulnerability, each term truncated to an integer), which is 271039. *)
Theorem earthquake_victims tape given e pos :
  let e' := (trigger_disaster tape "earthquake" 1 given e pos).1 in
  affected_nodes e' = node_id <$> nodes
  ∧ victims e' = truncated_victims "earthquake" 1 nodes
  ∧ victims e' = 271039.
Proof.
  pose proof (trigger_earthquake_fields tape 1 given e pos) as [Ha Hv].
  cbv zeta in *. rewrite Ha, Hv. repeat split; vm_compute; reflexivity.
Qed.

(** C5 (as stated) fails: the code truncates every node's share before
    adding, so the victims are 271039 while the untruncated sum of the
    specification is 271042.718, whose integer part is 271042. *)
Lemma earthquake_victims_counterexample :
  victims (trigger_disaster zero_tape "earthquake" 1 None init 0%nat).1
  = 271039
  ∧ (claimed_victims "earthquake" 1 nodes == 135521359 # 500)%Q
  ∧ Qfloor (claimed_victims "earthquake" 1 nodes) = 271042
  ∧ ¬ (inject_Z
         (victims (trigger_disaster zero_tape "earthquake" 1 None init 0%nat).1)
       == claimed_victims "earthquake" 1 nodes)%Q.
Proof.
  assert (Hv : victims (trigger_disaster zero_tape "earthquake" 1 None init
                          0%nat).1 = 271039).
  { pose proof (trigger_earthquake_fields zero_tape 1 None init 0%nat)
      as [_ ->]. vm_compute. reflexivity. }
  assert (Hc : (claimed_victims "earthquake" 1 nodes == 135521359 # 500)%Q)
    by (vm_compute; reflexivity).
  split; [done | split; [done | split; [vm_compute; reflexivity|]]].
  rewrite Hv, Hc. intros H. vm_compute in H. discriminate.
Qed.
End EnvFacts.

(* ===================================================================== *)
(** * Properties of the agents *)
(* ===================================================================== *)

Module AgentFacts.
Import MessageBus Environment Agent EnvSpec AgentSpec.

Lemma save_victims_exact n e :
  (save_victims n e).2 ≤ victims e
  ∧ victims e = victims (save_victims n e).1 + (save_victims n e).2
  ∧ victims_saved (save_victims n e).1
    = victims_saved e + (save_victims n e).2.
Proof. unfold save_victims. simpl. lia. Qed.

Lemma count_use_resource name amount e :
  0 ≤ count name e → 0 ≤ amount →
  count name (use_resource name amount e).1
  = count name e - Z.min amount (count name e)
  ∧ victims (use_resource name amount e).1 = victims e
  ∧ victims_saved (use_resource name amount e).1 = victims_saved e.
Proof.
  unfold count, use_resource. intros Hc Ha.
  destruct (resources e !! name) as [have|] eqn:Hk; simpl in *.
  - rewrite lookup_insert_eq. simpl. lia.
  - rewrite Hk. simpl. lia.
Qed.

Lemma count_use_resource_other name name' amount e :
  name ≠ name' →
  count name' (use_resource name amount e).1 = count name' e.
Proof.
  unfold count, use_resource. intros Hne.
  destruct (resources e !! name) as [have|] eqn:Hk; simpl; [|done].
  by rewrite lookup_insert_ne.
Qed.

Lemma count_save_victims name n e :
  count name (save_victims n e).1 = count name e.
Proof. reflexivity. Qed.

(** The environment after the rescue intent of [decide] is executed. *)
Lemma utility_execute_rescue e msg k f x1 x2 a d mk fp ts :
  (UtilityAgent.execute
     (mkIntent "rescue"
        [("message", msg);
         ("allocation",
          PDict [("ambulances", PInt 0); ("drones", PInt 0);
                 ("medical_kits", PInt k); ("food_packs", PInt f)]);
         ("expected_victims_helped", x1); ("remaining_victims", x2);
         ("active_resources",
          PDict [("ambulances", PInt a); ("drones", PInt d);
                 ("medical_kits", PInt mk); ("food_packs", PInt fp)]);
         ("time_step", ts)]%string 5) e).1
  = let e0 := if 0 <? k then (use_resource "medical_kits" k e).1 else e in
    let e1 := if 0 <? f then (use_resource "food_packs" f e0).1 else e0 in
    let n := a * 500 + d * 200 + k * 50 + f * 30 in
    if 0 <? n then (save_victims n e1).1 else e1.
Proof.
  unfold UtilityAgent.execute, UtilityAgent.consume, get_dict, get_int.
  cbn [intent_type intent_payload String.eqb Ascii.eqb Bool.eqb dict_get
       foldl fst snd].
  unfold UtilityAgent.AMBULANCE_CAPACITY, UtilityAgent.DRONE_CAPACITY,
    UtilityAgent.MEDICAL_KIT_CAPACITY, UtilityAgent.FOOD_PACK_CAPACITY.
  cbv zeta.
  change (0 <? 0) with false. cbv iota.
  destruct (0 <? a * 500 + d * 200 + k * 50 + f * 30); [|done].
  by destruct (save_victims _ _).
Qed.

(** C6.  [save_victims] returns no more than the victims present, takes
    exactly that many off the victims and adds them to [victims_saved];
    and one [act] of the utility agent on a reachable state uses no more
    medical kits and food packs than there were when it started, at most
    5 kits and 3 packs, and saves no more victims than there were. *)
Theorem utility_act_saturation :
  (∀ n e,
      (save_victims n e).2 ≤ victims e
      ∧ victims e = victims (save_victims n e).1 + (save_victims n e).2
      ∧ victims_saved (save_victims n e).1
        = victims_saved e + (save_victims n e).2)
  ∧ (∀ time_time e b st,
      reachable e →
      let e' := (UtilityAgent.act time_time e b st).1.1 in
      0 ≤ count "medical_kits" e - count "medical_kits" e'
        ≤ Z.min 5 (count "medical_kits" e)
      ∧ 0 ≤ count "food_packs" e - count "food_packs" e'
          ≤ Z.min 3 (count "food_packs" e)
      ∧ 0 ≤ victims e - victims e' ≤ victims e
      ∧ victims_saved e' = victims_saved e + (victims e - victims e')).
Proof.
  split; [apply save_victims_exact|].
  intros time_time e b st [Hv Hr _ _ _]%EnvFacts.reachable_inv.
  assert (Hcount : ∀ name, 0 ≤ count name e).
  { intros name. unfold count.
    destruct (resources e !! name) as [v|] eqn:Hk; simpl; [|lia].
    apply (Hr name v Hk). }
  pose proof (Hcount "medical_kits") as Hk.
  pose proof (Hcount "food_packs") as Hf.
  pose proof (Hcount "ambulances") as Ha.
  pose proof (Hcount "drones") as Hd.
  assert (Hsame : (0 ≤ count "medical_kits" e - count "medical_kits" e
                     ≤ Z.min 5 (count "medical_kits" e))
                  ∧ (0 ≤ count "food_packs" e - count "food_packs" e
                       ≤ Z.min 3 (count "food_packs" e))
                  ∧ (0 ≤ victims e - victims e ≤ victims e)
                  ∧ victims_saved e = victims_saved e + (victims e - victims e))
    by lia.
  unfold UtilityAgent.act, sense, get_observation, UtilityAgent.decide.
  cbn [obs_env].
  destruct (negb (bool_decide (phase e = response))); [exact Hsame|].
  destruct (victims e <=? 0) eqn:Hvz; [exact Hsame|].
  apply Z.leb_gt in Hvz.
  fold (count "ambulances" e) (count "drones" e) (count "medical_kits" e)
       (count "food_packs" e).
  destruct (0 <? _) eqn:Hpot; [|exact Hsame].
  cbn [foldl fst snd]. cbv zeta.
  match goal with
  | |- context [UtilityAgent.execute ?d e] =>
      pose proof (utility_execute_rescue e) as Hex;
      destruct (UtilityAgent.execute d e) as [e1 payload] eqn:Hexec
  end.
  cbn [fst snd].
  match type of Hexec with
  | UtilityAgent.execute
      (mkIntent _ [(_, ?msg); (_, PDict [_; _; (_, PInt ?k); (_, PInt ?f)]);
                   (_, ?x1); (_, ?x2);
                   (_, PDict [(_, PInt ?a); (_, PInt ?d); (_, PInt ?mk);
                              (_, PInt ?fp)]); (_, ?ts)] _) _ = _ =>
      specialize (Hex msg k f x1 x2 a d mk fp ts);
      set (kits := k) in *; set (packs := f) in *
  end.
  rewrite Hexec in Hex. cbn [fst] in Hex. cbv zeta in Hex. subst e1.
  unfold UtilityAgent.MEDICAL_KIT_CAPACITY, UtilityAgent.FOOD_PACK_CAPACITY
    in *.
  assert (Hk1 : 1 ≤ (victims e + 50 - 1) `div` 50)
    by (apply Z.div_le_lower_bound; lia).
  assert (Hf1 : 1 ≤ (victims e + 30 - 1) `div` 30)
    by (apply Z.div_le_lower_bound; lia).
  assert (Hkits : 0 ≤ kits ≤ Z.min 5 (count "medical_kits" e))
    by (unfold kits; lia).
  assert (Hpacks : 0 ≤ packs ≤ Z.min 3 (count "food_packs" e))
    by (unfold packs; lia).
  clearbody kits packs.
  set (e0 := if 0 <? kits then (use_resource "medical_kits" kits e).1 else e).
  assert (H0 : count "medical_kits" e0 = count "medical_kits" e - kits
               ∧ count "food_packs" e0 = count "food_packs" e
               ∧ victims e0 = victims e
               ∧ victims_saved e0 = victims_saved e).
  { unfold e0. destruct (0 <? kits) eqn:E; [|apply Z.ltb_ge in E; lia].
    destruct (count_use_resource "medical_kits" kits e) as (? & ? & ?);
      [lia | lia |].
    rewrite (count_use_resource_other "medical_kits" "food_packs") by done.
    lia. }
  clearbody e0. destruct H0 as (Hk0 & Hf0 & Hv0 & Hs0).
  set (e1 := if 0 <? packs then (use_resource "food_packs" packs e0).1
             else e0).
  assert (H1 : count "medical_kits" e1 = count "medical_kits" e - kits
               ∧ count "food_packs" e1 = count "food_packs" e - packs
               ∧ victims e1 = victims e
               ∧ victims_saved e1 = victims_saved e).
  { unfold e1. destruct (0 <? packs) eqn:E; [|apply Z.ltb_ge in E; lia].
    destruct (count_use_resource "food_packs" packs e0) as (? & ? & ?);
      [lia | lia |].
    rewrite (count_use_resource_other "food_packs" "medical_kits") by done.
    lia. }
  clearbody e1. destruct H1 as (Hk1' & Hf1' & Hv1 & Hs1).
  match goal with |- context [0 <? ?x] => set (n := x) end.
  destruct (0 <? n) eqn:Hn; [|lia].
  apply Z.ltb_lt in Hn.
  rewrite !count_save_victims.
  destruct (save_victims_exact n e1) as (? & ? & ?).
  assert (0 < (save_victims n e1).2 ∨ victims e1 = 0)
    by (unfold save_victims; simpl; lia).
  lia.
Qed.

Lemma utility_act_saturation_witness :
  reachable struck
  ∧ phase struck = response
  ∧ count "medical_kits" struck
    - count "medical_kits"
        (UtilityAgent.act still_clock struck (MessageBus.new 500)
                          UtilityAgent.init).1.1 = 5
  ∧ count "food_packs" struck
    - count "food_packs"
        (UtilityAgent.act still_clock struck (MessageBus.new 500)
                          UtilityAgent.init).1.1 = 3
  ∧ victims struck
    - victims (UtilityAgent.act still_clock struck (MessageBus.new 500)
                                UtilityAgent.init).1.1 = 4040
  ∧ (let e' := (UtilityAgent.act still_clock struck (MessageBus.new 500)
                                 UtilityAgent.init).1.1 in
     0 ≤ count "medical_kits" struck - count "medical_kits" e'
       ≤ Z.min 5 (count "medical_kits" struck)
     ∧ 0 ≤ count "food_packs" struck - count "food_packs" e'
         ≤ Z.min 3 (count "food_packs" struck)
     ∧ 0 ≤ victims struck - victims e' ≤ victims struck
     ∧ victims_saved e'
       = victims_saved struck + (victims struck - victims e')).
Proof.
  assert (Hr : reachable struck) by apply reach_trigger, reach_init.
  assert (Hph : phase struck = response) by (vm_compute; reflexivity).
  assert (Hk : count "medical_kits" struck
               - count "medical_kits"
                   (UtilityAgent.act still_clock struck (MessageBus.new 500)
                                     UtilityAgent.init).1.1 = 5)
    by (vm_compute; reflexivity).
  assert (Hf : count "food_packs" struck
               - count "food_packs"
                   (UtilityAgent.act still_clock struck (MessageBus.new 500)
                                     UtilityAgent.init).1.1 = 3)
    by (vm_compute; reflexivity).
  assert (Hv : victims struck
               - victims (UtilityAgent.act still_clock struck
                            (MessageBus.new 500) UtilityAgent.init).1.1
               = 4040)
    by (vm_compute; reflexivity).
  exact (conj Hr (conj Hph (conj Hk (conj Hf (conj Hv
           (proj2 utility_act_saturation still_clock struck
                  (MessageBus.new 500) UtilityAgent.init Hr)))))).
Defined.


Lemma emit_messages time_time n ty p prio b :
  messages (emit time_time n ty p prio b)
  = messages b
    ++ [mkMessage (message_id_counter b + 1) ty n
          (if truthy (PDict p) then PDict p else PDict []) prio
          (time_time (message_id_counter b + 1))].
Proof. reflexivity. Qed.

Lemma new_messages_app b b' l :
  messages b' = messages b ++ l → new_messages b b' = l.
Proof. intros H. unfold new_messages. by rewrite H, drop_app_length. Qed.




(** The intents of a rebuild tick. *)
Lemma rebuild_decide_shape obs st :
  phase (obs_env obs) = rebuild →
  ∃ sp rp,
    RebuildAgent.decide obs st
    = (mkIntent "repair_status" sp 6
       :: (if count "repair_crews" (obs_env obs) <? 2
           then [mkIntent "repair_request" rp 8] else [])
       ++ match RebuildAgent.milestone_of (rebuild_progress (obs_env obs)) with
          | Some m => [milestone_intent (obs_env obs) m]
          | None => []
          end, st)
    ∧ get_int "needed" rp = 2 - count "repair_crews" (obs_env obs)
    ∧ dict_get "time_step" rp = Some (PInt (time_step (obs_env obs))).
Proof.
  intros Hph. unfold RebuildAgent.decide. rewrite Hph.
  rewrite bool_decide_eq_true_2 by done. cbn [negb].
  eexists _, _. split; [reflexivity|]. done.
Qed.




Lemma band_test m p :
  Qle_bool (inject_Z m) p && Qltb p (inject_Z (m + 5)) = true
  ↔ in_band m p.
Proof.
  unfold in_band, Qltb. rewrite andb_true_iff, Qle_bool_iff, negb_true_iff.
  rewrite inject_Z_plus. change (inject_Z 5) with 5%Q.
  split; intros [H1 H2]; (split; [done|]).
  - apply Qnot_le_lt. intros H%Qle_bool_iff. congruence.
  - apply not_true_is_false. intros H%Qle_bool_iff. by apply Qlt_not_le in H.
Qed.

Lemma head_filter_Some {A} (P : A → Prop) `{!∀ x, Decision (P x)}
    (l : list A) (m : A) :
  head (filter P l) = Some m → m ∈ l ∧ P m.
Proof.
  induction l as [|x l IH]; [done|]. rewrite filter_cons.
  case_decide.
  - intros [= <-]. split; [left | done].
  - intros [? ?]%IH. split; [by right | done].
Qed.

Lemma head_filter_unique {A} (P : A → Prop) `{!∀ x, Decision (P x)}
    (l : list A) (m : A) :
  m ∈ l → P m → (∀ x, x ∈ l → P x → x = m) →
  head (filter P l) = Some m.
Proof.
  induction l as [|x l IH]; intros Hin Hm Huniq; [by inversion Hin|].
  rewrite filter_cons. case_decide as Hx.
  - simpl. f_equal. apply Huniq; [left | done].
  - apply IH; [|done|].
    + apply elem_of_cons in Hin as [-> | ?]; done.
    + intros y Hy. apply Huniq. by right.
Qed.

Lemma bands_disjoint p m m' :
  m ∈ RebuildAgent.milestones → m' ∈ RebuildAgent.milestones →
  in_band m p → in_band m' p → m' = m.
Proof.
  unfold RebuildAgent.milestones, in_band. intros Hm Hm'.
  set_unfold in Hm. set_unfold in Hm'.
  destruct Hm as [-> | [-> | [-> | [-> | []]]]];
    destruct Hm' as [-> | [-> | [-> | [-> | []]]]];
    unfold inject_Z; intros; try reflexivity; exfalso; lra.
Qed.

Lemma milestone_of_band p m :
  RebuildAgent.milestone_of p = Some m
  ↔ m ∈ RebuildAgent.milestones ∧ in_band m p.
Proof.
  unfold RebuildAgent.milestone_of. split.
  - intros [Hin Hb]%head_filter_Some. split; [done | by apply band_test].
  - intros [Hin Hb]. apply head_filter_unique; [done | by apply band_test |].
    intros x Hx Hbx%band_test. by apply (bands_disjoint p).
Qed.

(** C9 (as amended).  On every rebuild tick [decide] emits a milestone
    intent exactly when the progress lies in one of the bands
    [m, m + 5), m in 25, 50, 75, 90, and then a single one, for that
    band; it keeps no record of the bands already announced. *)
Theorem milestone_every_tick obs st :
  phase (obs_env obs) = rebuild →
  milestone_texts (RebuildAgent.decide obs st).1
  = match RebuildAgent.milestone_of (rebuild_progress (obs_env obs)) with
    | Some m => [PStr ("Rebuild progress reached " +:+ pretty m +:+ "%")]
    | None => []
    end
  ∧ (RebuildAgent.decide obs st).2 = st
  ∧ ∀ m, RebuildAgent.milestone_of (rebuild_progress (obs_env obs)) = Some m
         ↔ m ∈ RebuildAgent.milestones
           ∧ in_band m (rebuild_progress (obs_env obs)).
Proof.
  intros Hph.
  destruct (rebuild_decide_shape obs st Hph) as (sp & rp & -> & _ & _).
  split; [|split; [done | intros m; apply milestone_of_band]].
  cbn [fst]. unfold milestone_texts.
  destruct (count "repair_crews" (obs_env obs) <? 2);
    destruct (RebuildAgent.milestone_of _); reflexivity.
Qed.

Lemma milestone_every_tick_witness :
  phase (obs_env band_obs) = rebuild
  ∧ RebuildAgent.milestone_of (rebuild_progress (obs_env band_obs))
    = Some 25
  ∧ milestone_texts (RebuildAgent.decide band_obs RebuildAgent.init).1
    = [PStr ("Rebuild progress reached " +:+ pretty 25 +:+ "%")]
  ∧ in_band 25 (rebuild_progress (obs_env band_obs)).
Proof.
  assert (Hph : phase (obs_env band_obs) = rebuild)
    by (vm_compute; reflexivity).
  assert (Hm : RebuildAgent.milestone_of
                 (rebuild_progress (obs_env band_obs)) = Some 25)
    by (vm_compute; reflexivity).
  pose proof (milestone_every_tick band_obs RebuildAgent.init Hph)
    as (H1 & _ & H3).
  rewrite Hm in H1.
  exact (conj Hph (conj Hm (conj H1 (proj2 (proj1 (H3 25) Hm))))).
Defined.

(** C9 (as stated) fails: with 16 drones and no crews the progress is
    26.4 at tick 12 and 28.8 at tick 13 of one rebuild phase, and the
    agent announces the 25% milestone on both ticks. *)
Lemma milestone_every_tick_counterexample :
  phase (Orchestrator.env (quake_after crewless 1)) = rebuild
  ∧ phase (Orchestrator.env (quake_after crewless 14)) = rebuild
  ∧ milestone_log (Orchestrator.bus (quake_after crewless 14))
    = [(PStr "Rebuild progress reached 25%", PInt 12);
       (PStr "Rebuild progress reached 25%", PInt 13)].
Proof. repeat split; vm_compute; reflexivity. Qed.

(** C8 fails on the code.  Seven cycles into an earthquake
    the goal agent has planned at ticks 0, 3 and 6.  The simulation is
    reset and a second earthquake is triggered: the orchestrator's reset
    leaves the agent's plan and last-plan tick in place, so in the first
    cycle of the new response phase, with victims waiting, the agent
    sends no plan, where a fresh agent does. *)
Lemma goal_agent_keeps_stale_plan :
  GoalBasedAgent.last_plan_step (Orchestrator.goal (quake_after few 7)) = 6
  ∧ GoalBasedAgent.last_plan_step
      (Orchestrator.goal (restarted (quake_after few 7))) = 6
  ∧ phase (Orchestrator.env (restarted (quake_after few 7))) = response
  ∧ victims (Orchestrator.env (restarted (quake_after few 7))) = 271039
  ∧ time_step (Orchestrator.env (restarted (quake_after few 7))) = 0
  ∧ history_types
      (Orchestrator.run_cycle half_tape still_clock
         (restarted (quake_after few 7)) 0%nat).1
    = ["alert"; "recon"; "rescue"]%string
  ∧ history_types (quake_after few 1)
    = ["alert"; "recon"; "plan"; "rescue"]%string.
Proof. repeat split; vm_compute; reflexivity. Qed.

(** Outside the response phase the goal agent returns its private state
    unchanged, while the recon agent starts over. *)
Lemma goal_agent_no_reset obs st :
  phase (obs_env obs) ≠ response →
  GoalBasedAgent.decide obs st = Some ([], st)
  ∧ DroneReconAgent.decide obs (DroneReconAgent.mkState {[1]} true 4)
    = ([], DroneReconAgent.init).
Proof.
  intros Hph. unfold GoalBasedAgent.decide, DroneReconAgent.decide.
  by rewrite bool_decide_eq_false_2.
Qed.

End AgentFacts.

(* ===================================================================== *)
(** * Properties of the route planning *)
(* ===================================================================== *)

Module GraphFacts.
Import Environment GoalBasedAgent GraphSpec.

(** ** The heap *)

Lemma entry_leb_dist (x y : entry) :
  entry_leb x y = true → (x.1.1 <= y.1.1)%Q.
Proof.
  unfold entry_leb, entry_compare.
  destruct (Qcompare x.1.1 y.1.1) eqn:E.
  - intros _. apply Qeq_alt in E. rewrite E. apply Qle_refl.
  - intros _. apply Qlt_alt in E. by apply Qlt_le_weak.
  - discriminate.
Qed.

Lemma entry_gt_dist (x y : entry) :
  entry_leb x y = false → (y.1.1 <= x.1.1)%Q.
Proof.
  unfold entry_leb, entry_compare.
  destruct (Qcompare x.1.1 y.1.1) eqn:E.
  - intros _. apply Qeq_alt in E. rewrite E. apply Qle_refl.
  - by repeat case_match.
  - intros _. apply Qgt_alt in E. by apply Qlt_le_weak.
Qed.

Lemma pop_min_spec (x : entry) (l : list entry) m rest :
  pop_min x l = (m, rest) →
  x :: l ≡ₚ m :: rest ∧ ∀ y, y ∈ x :: l → (m.1.1 <= y.1.1)%Q.
Proof.
  revert x m rest. induction l as [|y l IH]; intros x m rest; simpl.
  - intros [= <- <-]. split; [done|]. intros y Hy.
    apply list_elem_of_singleton in Hy as ->. apply Qle_refl.
  - destruct (pop_min y l) as [m' rest'] eqn:E.
    destruct (IH y m' rest' E) as [Hperm Hmin].
    destruct (entry_leb x m') eqn:Hle; intros [= <- <-].
    + split; [done|]. intros z Hz.
      apply elem_of_cons in Hz as [-> | Hz]; [apply Qle_refl|].
      eapply Qle_trans; [by apply entry_leb_dist | by apply Hmin].
    + split.
      * rewrite Hperm. apply perm_swap.
      * intros z Hz. apply elem_of_cons in Hz as [-> | Hz].
        -- by apply entry_gt_dist.
        -- by apply Hmin.
Qed.

Lemma heappop_spec pq x pq' :
  heappop pq = Some (x, pq') →
  pq ≡ₚ x :: pq' ∧ ∀ y, y ∈ pq → (x.1.1 <= y.1.1)%Q.
Proof.
  destruct pq as [|x0 l]; [done|]. simpl. intros [= H].
  by apply pop_min_spec.
Qed.

Lemma heappop_None pq : heappop pq = None → pq = [].
Proof. by destruct pq. Qed.

(** ** The neighbour loop *)

Lemma relax_elem_of avoid visited dist p pq nbrs (x : entry) :
  x ∈ relax avoid visited dist p pq nbrs
  ↔ x ∈ pq
    ∨ ∃ nb, nb ∈ nbrs ∧ (nb.1.1 ∉ visited) ∧ (avoid && nb.2) = false
            ∧ x = ((dist + nb.1.2)%Q, nb.1.1, p ++ [nb.1.1]).
Proof.
  unfold relax. revert pq. induction nbrs as [|nb nbrs IH]; intros pq; simpl.
  - split; [by left | intros [? | (nb & Hnb & _)]; [done | by inversion Hnb]].
  - rewrite IH. clear IH. unfold heappush.
    destruct (bool_decide (nb.1.1 ∈ visited)) eqn:Hv;
      [apply bool_decide_eq_true in Hv
      | apply bool_decide_eq_false in Hv;
        destruct (avoid && nb.2) eqn:Hb]; split.
    all: try (intros [? | (nb' & Hin & H1 & H2 & H3)];
              [by left | right; exists nb'; split; [by right | done]]).
    all: try (intros [? | (nb' & Hin & H1 & H2 & H3)]; [by left|];
              apply elem_of_cons in Hin as [-> | Hin];
              [ try done; try congruence
              | right; exists nb'; done ]).
    + intros [[-> | ?]%elem_of_cons | (nb' & Hin & H1 & H2 & H3)].
      * right. exists nb. split; [by left | done].
      * by left.
      * right. exists nb'. split; [by right | done].
    + intros [? | (nb' & Hin & H1 & H2 & H3)]; [left; by right|].
      apply elem_of_cons in Hin as [-> | Hin].
      * left. subst x. by left.
      * right. exists nb'. done.
Qed.

Lemma relax_length avoid visited dist p pq nbrs :
  (length (relax avoid visited dist p pq nbrs)
   ≤ length pq + length nbrs)%nat.
Proof.
  unfold relax. revert pq. induction nbrs as [|nb nbrs IH]; intros pq; simpl.
  - lia.
  - etrans; [apply IH|]. unfold heappush. repeat case_match; simpl; lia.
Qed.



(** ** The search loop *)

Section Search.
Variable adj : adjacency.
Variable avoid : bool.
Variables start end_ : Z.
Hypothesis weights_nonneg :
  ∀ u nb, nb ∈ default [] (adj !! u) → (0 <= nb.1.2)%Q.

Abbreviation walk := (walk adj avoid start).
Abbreviation search_inv := (search_inv adj avoid start end_).

Lemma walk_cost_nonneg v p c : walk v p c → (0 <= c)%Q.
Proof.
  induction 1 as [|u p c nb _ IH Hnb _]; [apply Qle_refl|].
  pose proof (weights_nonneg u nb Hnb). lra.
Qed.

(** Every walk ends in a visited node or has passed an unvisited node
    that waits in the heap at no more than the walk's cost. *)
Lemma walk_frontier pq visited v p c :
  search_inv pq visited → walk v p c →
  v ∈ visited
  ∨ ∃ d y q, (d, y, q) ∈ pq ∧ (y ∉ visited) ∧ (d <= c)%Q.
Proof.
  intros Hinv. induction 1 as [|u p c nb Hwalk IH Hnb Hopen].
  - destruct (base.decide (start ∈ visited)) as [?|Hs]; [by left|].
    destruct (inv_start _ _ _ _ _ _ Hinv Hs) as (d & q & Hin & Hd).
    right. by exists d, start, q.
  - pose proof (weights_nonneg u nb Hnb) as Hw.
    destruct IH as [Hu | (d & y & q & Hin & Hy & Hd)].
    + destruct (base.decide (nb.1.1 ∈ visited)) as [?|Hv]; [by left|].
      destruct (inv_frontier _ _ _ _ _ _ Hinv u nb Hu Hnb Hopen Hv)
        as (d & q & Hin & Hd).
      right. exists d, nb.1.1, q. repeat split; try done. by eapply Hd.
    + right. exists d, y, q. repeat split; try done. lra.
Qed.

(** The entry popped for an unvisited node is a cheapest walk to it. *)
Lemma popped_is_cheapest pq visited d v p pq' :
  search_inv pq visited → heappop pq = Some ((d, v, p), pq') →
  v ∉ visited →
  walk v p d ∧ ∀ p' c', walk v p' c' → (d <= c')%Q.
Proof.
  intros Hinv Hpop Hv. destruct (heappop_spec _ _ _ Hpop) as [Hperm Hmin].
  split.
  - apply (inv_entries _ _ _ _ _ _ Hinv). rewrite Hperm. by left.
  - intros p' c' Hwalk.
    destruct (walk_frontier pq visited v p' c' Hinv Hwalk)
      as [? | (d' & y & q & Hin & _ & Hd)]; [done|].
    specialize (Hmin _ Hin). simpl in Hmin. lra.
Qed.

Lemma inv_skip pq visited d v p pq' :
  search_inv pq visited → heappop pq = Some ((d, v, p), pq') →
  v ∈ visited → search_inv pq' visited.
Proof.
  intros Hinv Hpop Hv. destruct (heappop_spec _ _ _ Hpop) as [Hperm _].
  assert (Hkeep : ∀ d' y q, (d', y, q) ∈ pq → y ∉ visited → (d', y, q) ∈ pq').
  { intros d' y q Hin Hy. rewrite Hperm in Hin.
    apply elem_of_cons in Hin as [[= -> -> ->] | ?]; done. }
  split.
  - intros d' y q Hin. apply (inv_entries _ _ _ _ _ _ Hinv).
    rewrite Hperm. by right.
  - intros Hs. destruct (inv_start _ _ _ _ _ _ Hinv Hs) as (d' & q & Hin & Hd).
    exists d', q. split; [by apply Hkeep | done].
  - intros u nb Hu Hnb Hopen Hy.
    destruct (inv_frontier _ _ _ _ _ _ Hinv u nb Hu Hnb Hopen Hy)
      as (d' & q & Hin & Hd).
    exists d', q. split; [by apply Hkeep | done].
  - apply Hinv.
Qed.

Lemma inv_visit pq visited d v p pq' :
  search_inv pq visited → heappop pq = Some ((d, v, p), pq') →
  v ∉ visited → v ≠ end_ →
  search_inv (relax avoid ({[v]} ∪ visited) d p pq'
                    (default [] (adj !! v)))
             ({[v]} ∪ visited).
Proof.
  intros Hinv Hpop Hv Hend.
  destruct (popped_is_cheapest _ _ _ _ _ _ Hinv Hpop Hv) as [Hwalk Hbest].
  destruct (heappop_spec _ _ _ Hpop) as [Hperm _].
  assert (Hkeep : ∀ d' y q, (d', y, q) ∈ pq → y ≠ v → (d', y, q) ∈ pq').
  { intros d' y q Hin Hy. rewrite Hperm in Hin.
    apply elem_of_cons in Hin as [[= -> -> ->] | ?]; done. }
  split.
  - intros d' y q [Hin | (nb & Hnb & Hy & Hopen & [= -> -> ->])]%relax_elem_of.
    + apply (inv_entries _ _ _ _ _ _ Hinv). rewrite Hperm. by right.
    + by eapply walk_step.
  - intros Hs. assert (Hs' : start ∉ visited).
    { intros Hs'. apply Hs, elem_of_union. by right. }
    destruct (inv_start _ _ _ _ _ _ Hinv Hs') as (d' & q & Hin & Hd).
    exists d', q. split; [|done]. apply relax_elem_of. left.
    apply Hkeep; [done|]. intros Heq. apply Hs, elem_of_union. left.
    by apply elem_of_singleton.
  - intros u nb Hu Hnb Hopen Hy.
    destruct (base.decide (u = v)) as [-> | Hne].
    + exists (d + nb.1.2)%Q, (p ++ [nb.1.1]). split.
      * apply relax_elem_of. right. by exists nb.
      * intros q c Hq. specialize (Hbest q c Hq). lra.
    + assert (Hu' : u ∈ visited).
      { apply elem_of_union in Hu as [Hu%elem_of_singleton | Hu]; done. }
      assert (Hy' : nb.1.1 ∉ visited).
      { intros Hy'. apply Hy, elem_of_union. by right. }
      destruct (inv_frontier _ _ _ _ _ _ Hinv u nb Hu' Hnb Hopen Hy')
        as (d' & q & Hin & Hd).
      exists d', q. split; [|done]. apply relax_elem_of. left.
      apply Hkeep; [done|]. intros Heq. apply Hy, elem_of_union. left.
      by apply elem_of_singleton.
  - pose proof (inv_target _ _ _ _ _ _ Hinv) as Ht.
    intros [Hv'%elem_of_singleton | Hv']%elem_of_union; [|done].
    by subst.
Qed.

(** What the loop returns, when it returns. *)
Lemma dijkstra_loop_correct fuel pq visited r :
  search_inv pq visited →
  dijkstra_loop fuel adj end_ avoid pq visited = Some r →
  match r with
  | Some p => ∃ c, walk end_ p c ∧ ∀ p' c', walk end_ p' c' → (c <= c')%Q
  | None => ∀ p' c', ¬ walk end_ p' c'
  end.
Proof.
  revert pq visited. induction fuel as [|fuel IH]; intros pq visited Hinv;
    [done|]. simpl.
  destruct (heappop pq) as [[[[d v] p] pq']|] eqn:Hpop.
  - case_bool_decide as Hv.
    + apply IH. by eapply inv_skip.
    + destruct (v =? end_) eqn:Hend.
      * apply Z.eqb_eq in Hend as ->. intros [= <-]. exists d.
        by eapply popped_is_cheapest.
      * apply Z.eqb_neq in Hend. apply IH. by eapply inv_visit.
  - intros [= <-] p' c' Hwalk. apply heappop_None in Hpop as ->.
    destruct (walk_frontier [] visited end_ p' c' Hinv Hwalk)
      as [Hin | (d & y & q & Hin & _)].
    + by apply (inv_target _ _ _ _ _ _ Hinv).
    + by inversion Hin.
Qed.

Lemma search_inv_initial : start ≠ end_ →
  search_inv [(0%Q, start, [start])] ∅.
Proof.
  intros Hne. split.
  - intros d v p [= -> -> ->]%list_elem_of_singleton. constructor.
  - intros _. exists 0%Q, [start]. split; [by left | apply Qle_refl].
  - intros u nb Hu. by apply not_elem_of_empty in Hu.
  - apply not_elem_of_empty.
Qed.

End Search.

(** ** Termination of the search *)

Lemma sum_list_fmap_cons {A} (f : A → nat) (x : A) (l : list A) :
  sum_list (f <$> x :: l) = (f x + sum_list (f <$> l))%nat.
Proof. reflexivity. Qed.

Lemma pending_list_mono (l : list (Z * list (Z * Q * bool)))
    (visited visited' : gset Z) :
  visited ⊆ visited' →
  (sum_list ((λ kv : Z * list (Z * Q * bool),
                if bool_decide (kv.1 ∈ visited') then 0%nat
                else length kv.2) <$> l)
   ≤ sum_list ((λ kv : Z * list (Z * Q * bool),
                  if bool_decide (kv.1 ∈ visited) then 0%nat
                  else length kv.2) <$> l))%nat.
Proof.
  intros Hsub. induction l as [|kv l IH]; [done|].
  rewrite !sum_list_fmap_cons.
  repeat case_bool_decide; try lia. exfalso. set_solver.
Qed.

Lemma pending_list_visit (l : list (Z * list (Z * Q * bool)))
    (visited : gset Z) (v : Z) (nbrs : list (Z * Q * bool)) :
  (v, nbrs) ∈ l → v ∉ visited →
  (sum_list ((λ kv : Z * list (Z * Q * bool),
                if bool_decide (kv.1 ∈ {[v]} ∪ visited) then 0%nat
                else length kv.2) <$> l)
   + length nbrs
   ≤ sum_list ((λ kv : Z * list (Z * Q * bool),
                  if bool_decide (kv.1 ∈ visited) then 0%nat
                  else length kv.2) <$> l))%nat.
Proof.
  intros Hin Hv. induction l as [|kv l IH]; [by inversion Hin|].
  rewrite !sum_list_fmap_cons.
  apply elem_of_cons in Hin as [<- | Hin].
  - pose proof (pending_list_mono l visited ({[v]} ∪ visited)) as Hm.
    cbn [fst snd].
    rewrite bool_decide_eq_true_2 by set_solver.
    rewrite (bool_decide_eq_false_2 (v ∈ visited)) by done.
    assert (visited ⊆ {[v]} ∪ visited) by set_solver. specialize (Hm H). lia.
  - specialize (IH Hin). repeat case_bool_decide; try lia. exfalso. set_solver.
Qed.

Lemma pending_visit (adj : adjacency) (visited : gset Z) (v : Z) :
  v ∉ visited →
  (pending adj ({[v]} ∪ visited) + length (default [] (adj !! v))
   ≤ pending adj visited)%nat.
Proof.
  intros Hv. unfold pending.
  destruct (adj !! v) as [nbrs|] eqn:Hk; simpl.
  - apply pending_list_visit; [|done]. by apply elem_of_map_to_list.
  - pose proof (pending_list_mono (map_to_list adj) visited
                  ({[v]} ∪ visited)) as Hm.
    assert (visited ⊆ {[v]} ∪ visited) by set_solver. specialize (Hm H). lia.
Qed.

(** With more fuel than entries in the heap and still to be pushed, the
    loop returns. *)
Lemma dijkstra_loop_returns adj end_ avoid fuel pq visited :
  (length pq + pending adj visited < fuel)%nat →
  is_Some (dijkstra_loop fuel adj end_ avoid pq visited).
Proof.
  revert pq visited. induction fuel as [|fuel IH]; intros pq visited Hf;
    [lia|]. simpl.
  destruct (heappop pq) as [[[[d v] p] pq']|] eqn:Hpop; [|done].
  destruct (heappop_spec _ _ _ Hpop) as [Hperm _].
  apply Permutation_length in Hperm. simpl in Hperm.
  case_bool_decide as Hv.
  - apply IH. lia.
  - destruct (v =? end_); [done|]. apply IH.
    pose proof (relax_length avoid ({[v]} ∪ visited) d p pq'
                  (default [] (adj !! v))).
    pose proof (pending_visit adj visited v Hv). lia.
Qed.

Lemma pending_empty (adj : adjacency) :
  pending adj ∅ = sum_list ((λ kv, length kv.2) <$> map_to_list adj).
Proof. unfold pending. f_equal. Qed.

(** C4, the search.  On an adjacency structure with no negative
    distance, [_find_path_dijkstra] returns a walk from [start] to
    [end_] of least summed distance among the walks that keep to the
    open edges, and returns none only when there is no such walk. *)
Lemma find_path_dijkstra_correct adj start end_ avoid :
  (∀ u nb, nb ∈ default [] (adj !! u) → (0 <= nb.1.2)%Q) →
  match _find_path_dijkstra adj start end_ avoid with
  | Some p =>
      ∃ c, walk adj avoid start end_ p c
           ∧ ∀ p' c', walk adj avoid start end_ p' c' → (c <= c')%Q
  | None => ∀ p' c', ¬ walk adj avoid start end_ p' c'
  end.
Proof.
  intros Hw. unfold _find_path_dijkstra.
  destruct (start =? end_) eqn:Heq.
  - apply Z.eqb_eq in Heq as <-. exists 0%Q. split; [constructor|].
    intros p' c'. by apply walk_cost_nonneg.
  - apply Z.eqb_neq in Heq.
    destruct (dijkstra_loop_returns adj end_ avoid (loop_bound adj)
                [(0%Q, start, [start])] ∅) as [r Hr].
    { rewrite pending_empty. unfold loop_bound. simpl. lia. }
    rewrite Hr.
    eapply dijkstra_loop_correct; [exact Hw | | exact Hr].
    apply search_inv_initial; assumption.
Qed.



(** ** The adjacency structure *)

Lemma foldl_add_edge_None es : foldl add_edge None es = None.
Proof. by induction es. Qed.

Lemma add_edge_entries adj0 ed adj :
  add_edge (Some adj0) ed = Some adj →
  dom adj = dom adj0
  ∧ ∀ u x, x ∈ default [] (adj !! u)
           ↔ x ∈ default [] (adj0 !! u) ∨ entry_of ed u x.
Proof.
  unfold add_edge. simpl.
  destruct (adj0 !! edge_from ed) as [l1|] eqn:H1; simpl; [|done].
  rewrite lookup_insert.
  destruct (base.decide (edge_from ed = edge_to ed)) as [Heq|Hne]; simpl.
  - intros [= <-]. rewrite <- Heq. split.
    + rewrite !dom_insert_L. apply elem_of_dom_2 in H1. set_solver.
    + intros u x. unfold entry_of. rewrite <- Heq.
      rewrite insert_insert_eq, lookup_insert.
      destruct (base.decide (edge_from ed = u)) as [<-|Hu]; simpl.
      * rewrite H1. simpl. rewrite !elem_of_app, !list_elem_of_singleton.
        naive_solver.
      * naive_solver.
  - destruct (adj0 !! edge_to ed) as [l2|] eqn:H2; simpl; [|done].
    intros [= <-]. split.
    + rewrite !dom_insert_L. apply elem_of_dom_2 in H1, H2. set_solver.
    + intros u x. unfold entry_of. rewrite !lookup_insert.
      destruct (base.decide (edge_to ed = u)) as [<-|Hu]; simpl.
      * rewrite H2. simpl. rewrite elem_of_app, list_elem_of_singleton.
        naive_solver.
      * destruct (base.decide (edge_from ed = u)) as [<-|Hu']; simpl.
        -- rewrite H1. simpl. rewrite elem_of_app, list_elem_of_singleton.
           naive_solver.
        -- naive_solver.
Qed.

Lemma foldl_add_edge_entries es adj0 adj :
  foldl add_edge (Some adj0) es = Some adj →
  dom adj = dom adj0
  ∧ ∀ u x, x ∈ default [] (adj !! u)
           ↔ x ∈ default [] (adj0 !! u) ∨ ∃ ed, ed ∈ es ∧ entry_of ed u x.
Proof.
  revert adj0. induction es as [|ed es IH]; intros adj0; cbn [foldl].
  - intros [= <-]. split; [done|]. intros u x. split; [by left|].
    intros [? | (ed & Hin & _)]; [done | by inversion Hin].
  - destruct (add_edge (Some adj0) ed) as [adj1|] eqn:H1;
      [|by rewrite foldl_add_edge_None].
    intros Hf. destruct (IH adj1 Hf) as [Hdom Hent].
    destruct (add_edge_entries adj0 ed adj1 H1) as [Hdom1 Hent1].
    split; [congruence|]. intros u x. rewrite Hent, Hent1.
    split.
    + intros [[? | ?] | (ed' & Hin & ?)]; [by left | |].
      * right. exists ed. split; [by left | done].
      * right. exists ed'. split; [by right | done].
    + intros [? | (ed' & Hin & ?)]; [by left; left|].
      apply elem_of_cons in Hin as [-> | Hin]; [by left; right|].
      right. by exists ed'.
Qed.

Lemma initial_adjacency_empty (ns : list Node) u :
  default [] ((list_to_map ((λ n, (node_id n, [])) <$> ns) : adjacency) !! u)
  = [].
Proof.
  destruct (list_to_map _ !! u) as [l|] eqn:H; [|done]. simpl.
  apply elem_of_list_to_map_2 in H.
  apply list_elem_of_fmap in H as (n & [= _ ->] & _). done.
Qed.

(** The adjacency lists hold exactly the two directions of every edge. *)
Lemma build_adjacency_list_entries ns es adj :
  build_adjacency_list ns es = Some adj →
  ∀ u x, x ∈ default [] (adj !! u) ↔ ∃ ed, ed ∈ es ∧ entry_of ed u x.
Proof.
  unfold build_adjacency_list. intros [_ H]%foldl_add_edge_entries u x.
  rewrite H, initial_adjacency_empty. split; [|by right].
  intros [Hin | ?]; [by inversion Hin | done].
Qed.

(** The agent's walks are the walks of the snapshot. *)
Lemma walk_route ns es adj avoid start v p c :
  build_adjacency_list ns es = Some adj →
  walk adj avoid start v p c ↔ route es avoid start v p c.
Proof.
  intros Hb. pose proof (build_adjacency_list_entries ns es adj Hb) as Hent.
  split.
  - induction 1 as [|u p c nb _ IH Hnb Hopen]; [constructor|].
    apply Hent in Hnb as (ed & Hin & [[-> ->] | [-> ->]]); simpl in *.
    + apply (route_step _ _ _ (edge_from ed) p c ed); [done | done|].
      split; [done | by left].
    + apply (route_step _ _ _ (edge_to ed) p c ed); [done | done|].
      split; [done | by right].
  - induction 1 as [|u p c ed y _ IH Hin [Hopen Hdir]]; [constructor|].
    destruct Hdir as [[<- <-] | [<- <-]].
    + apply (walk_step adj avoid start (edge_from ed) p c
               (edge_to ed, distance ed, blocked ed)); [done | | done].
      apply Hent. exists ed. split; [done | by left].
    + apply (walk_step adj avoid start (edge_to ed) p c
               (edge_from ed, distance ed, blocked ed)); [done | | done].
      apply Hent. exists ed. split; [done | by right].
Qed.

(** C4, the search on a snapshot: the path found is a shortest walk of
    the snapshot, and none is found only when the target is out of
    reach. *)
Lemma find_path_on_snapshot ns es adj start end_ avoid :
  build_adjacency_list ns es = Some adj →
  forallb (λ ed, Qle_bool 0 (distance ed)) es = true →
  match _find_path_dijkstra adj start end_ avoid with
  | Some p => shortest es avoid start end_ p
  | None => unreachable es avoid start end_
  end.
Proof.
  intros Hb Hw.
  pose proof (find_path_dijkstra_correct adj start end_ avoid) as H.
  destruct (_find_path_dijkstra adj start end_ avoid) as [p|].
  - destruct H as (c & Hwalk & Hmin).
    + intros u nb (ed & Hin & Hent)%(build_adjacency_list_entries ns es adj Hb).
      rewrite forallb_forall in Hw. apply list_elem_of_In in Hin.
      specialize (Hw ed Hin). apply Qle_bool_iff in Hw.
      by destruct Hent as [[_ ->] | [_ ->]].
    + exists c. split; [by eapply walk_route|].
      intros p' c' Hr. apply (Hmin p'). by eapply walk_route.
  - intros p' c' Hr. refine (H _ p' c' _); [|by eapply walk_route].
    intros u nb (ed & Hin & Hent)%(build_adjacency_list_entries ns es adj Hb).
    rewrite forallb_forall in Hw. apply list_elem_of_In in Hin.
    specialize (Hw ed Hin). apply Qle_bool_iff in Hw.
    by destruct Hent as [[_ ->] | [_ ->]].
Qed.



(** ** The rescue plan *)

Lemma Forall2_elem_of_r {A B} (R : A → B → Prop) l k y :
  Forall2 R l k → y ∈ k → ∃ x, x ∈ l ∧ R x y.
Proof.
  induction 1 as [|x y' l k HR _ IH]; intros Hy; [by inversion Hy|].
  apply elem_of_cons in Hy as [-> | Hy].
  - exists x. split; [by left | done].
  - destruct (IH Hy) as (x' & ? & ?). exists x'. split; [by right | done].
Qed.

Lemma Forall2_elem_of_l {A B} (R : A → B → Prop) l k x :
  Forall2 R l k → x ∈ l → ∃ y, y ∈ k ∧ R x y.
Proof.
  induction 1 as [|x' y l k HR _ IH]; intros Hx; [by inversion Hx|].
  apply elem_of_cons in Hx as [-> | Hx].
  - exists y. split; [by left | done].
  - destruct (IH Hx) as (y' & ? & ?). exists y'. split; [by right | done].
Qed.

Lemma route_nonempty es avoid start v p c :
  route es avoid start v p c → p ≠ [].
Proof. destruct 1; [done|]. by destruct p. Qed.

Lemma shortest_nonempty es avoid start v p :
  shortest es avoid start v p → p ≠ [].
Proof. intros (c & Hr & _). by eapply route_nonempty. Qed.

(** What the target loop records for one target. *)
Lemma route_to_spec ns es adj target res :
  build_adjacency_list ns es = Some adj →
  forallb (λ ed, Qle_bool 0 (distance ed)) es = true →
  route_to ns adj 26 target = Some res →
  match res with
  | Some r =>
      target_id r = crit_id target
      ∧ ((status r = "clear"%string
          ∧ shortest es true 26 (crit_id target) (path r))
         ∨ (status r = "blocked_route"%string
            ∧ unreachable es true 26 (crit_id target)
            ∧ shortest es false 26 (crit_id target) (path r)))
  | None => unreachable es false 26 (crit_id target)
  end.
Proof.
  intros Hb Hw. unfold route_to.
  pose proof (find_path_on_snapshot ns es adj 26 (crit_id target) true Hb Hw)
    as H1.
  pose proof (find_path_on_snapshot ns es adj 26 (crit_id target) false Hb Hw)
    as H2.
  destruct (_find_path_dijkstra adj 26 (crit_id target) true) as [p1|];
    cbn [fst snd].
  - destruct p1 as [|n0 p1]; [by apply shortest_nonempty in H1|].
    destruct (mapM _ _) as [names|]; simpl; [|done].
    intros [= <-]. simpl. split; [done | by left].
  - destruct (_find_path_dijkstra adj 26 (crit_id target) false) as [p2|].
    + destruct p2 as [|n0 p2]; [by apply shortest_nonempty in H2|].
      destruct (mapM _ _) as [names|]; simpl; [|done].
      intros [= <-]. simpl. split; [done | by right].
    + by intros [= <-].
Qed.

(** The routes of a plan, on a snapshot with no negative distance. *)
Lemma plan_routes_spec ns e plan :
  forallb (λ ed, Qle_bool 0 (distance ed)) (edges e) = true →
  _plan_rescue_routes ns e = Some plan →
  critical_nodes plan = _find_critical_nodes ns e
  ∧ command_center plan = 26
  ∧ (∀ r, r ∈ routes plan →
       (∃ t, t ∈ critical_nodes plan ∧ target_id r = crit_id t)
       ∧ ((status r = "clear"%string
           ∧ shortest (edges e) true 26 (target_id r) (path r))
          ∨ (status r = "blocked_route"%string
             ∧ unreachable (edges e) true 26 (target_id r)
             ∧ shortest (edges e) false 26 (target_id r) (path r))))
  ∧ (∀ t, t ∈ critical_nodes plan →
       (∃ r, r ∈ routes plan ∧ target_id r = crit_id t)
       ∨ unreachable (edges e) false 26 (crit_id t)).
Proof.
  intros Hw. unfold _plan_rescue_routes.
  destruct (build_adjacency_list ns (edges e)) as [adj|] eqn:Hb; [|done].
  simpl.
  destruct (mapM (route_to ns adj 26) (_find_critical_nodes ns e))
    as [found|] eqn:Hm; [|done].
  simpl. intros [= <-]. simpl. apply mapM_Some_1 in Hm.
  split; [done|]. split; [done|]. split.
  - intros r (res & Hres & Hid)%list_elem_of_omap. simpl in Hid. subst res.
    destruct (Forall2_elem_of_r _ _ _ _ Hm Hres) as (t & Ht & Hrt).
    pose proof (route_to_spec ns (edges e) adj t (Some r) Hb Hw Hrt)
      as [Hid Hsp].
    split; [by exists t|]. by rewrite Hid.
  - intros t Ht.
    destruct (Forall2_elem_of_l _ _ _ _ Hm Ht) as (res & Hres & Hrt).
    pose proof (route_to_spec ns (edges e) adj t res Hb Hw Hrt) as Hsp.
    destruct res as [r|]; [|by right].
    left. exists r. split; [|by apply Hsp].
    apply list_elem_of_omap. by exists (Some r).
Qed.



(** ** The plan is always produced *)

Lemma skeleton_set_blocked b es :
  skeleton (set_blocked b <$> es) = skeleton es.
Proof. unfold skeleton. rewrite <- list_fmap_compose. done. Qed.

Lemma skeleton_alter b i es :
  skeleton (alter (set_blocked b) i es) = skeleton es.
Proof.
  unfold skeleton. revert i. induction es as [|ed es IH]; intros [|i];
    simpl; try done. f_equal. apply IH.
Qed.

Lemma skeleton_unblock es l :
  skeleton (foldl (λ es idx, alter (set_blocked false) idx es) es l)
  = skeleton es.
Proof.
  revert es. induction l as [|i l IH]; intros es; simpl; [done|].
  by rewrite IH, skeleton_alter.
Qed.

Lemma skeleton_affect_edges tape affected seismic idx es pos :
  skeleton (affect_edges tape affected seismic idx es pos).1.1 = skeleton es.
Proof.
  revert idx pos. induction es as [|ed es IH]; intros idx pos; simpl;
    [done|].
  unfold Random.bind, Random.ret, Random.random.
  destruct (_ || _); simpl.
  - specialize (IH (S idx) (S pos)).
    destruct (affect_edges tape affected seismic (S idx) es (S pos))
      as [[es' idxs] p'].
    simpl in *. rewrite IH. by destruct (Qltb _ _).
  - specialize (IH (S idx) pos).
    destruct (affect_edges tape affected seismic (S idx) es pos)
      as [[es' idxs] p'].
    simpl in *. by rewrite IH.
Qed.

Lemma skeleton_trigger_disaster tape sc intensity given e pos :
  skeleton (edges (trigger_disaster tape sc intensity given e pos).1)
  = skeleton (edges e).
Proof.
  unfold trigger_disaster, Random.bind, Random.ret.
  destruct (_ pos) as [affected p1].
  pose proof (skeleton_affect_edges tape affected
                (Qmax 0 (Qmin 1 intensity)) 0 (edges e) p1) as H.
  destruct (affect_edges _ _ _ _ _ p1) as [ea p2].
  destruct (_ p2) as [res p3]. simpl in *. done.
Qed.

Lemma skeleton_update tape e pos :
  skeleton (edges (update tape e pos).1) = skeleton (edges e).
Proof.
  unfold update. destruct (phase e); [done | | |];
    unfold Random.bind, Random.ret.
  - unfold update_response, Random.bind, Random.ret, Random.random,
      Random.randint, Random.randbelow.
    cbv beta iota zeta. repeat case_match; simplify_eq/=; done.
  - unfold update_rebuild, Random.bind, Random.ret, Random.random,
      Random.randint, Random.randbelow.
    cbv beta iota zeta. rand_cases; simplify_eq/=;
      rewrite ?skeleton_set_blocked, ?skeleton_unblock; done.
  - unfold update_recovered. destruct (0 <? _); [done|].
    unfold Random.choice, Random.randbelow, Random.random, Random.bind,
      Random.ret.
    cbv beta iota zeta.
    match goal with
    | |- context [trigger_disaster ?t ?s ?i ?g ?e0 ?p] =>
        pose proof (skeleton_trigger_disaster t s i g e0 p) as H;
        destruct (trigger_disaster t s i g e0 p) as [e1 p1]
    end.
    simpl in *. done.
Qed.

Lemma skeleton_use_resource name amount e :
  edges (use_resource name amount e).1 = edges e.
Proof. unfold use_resource. by case_match. Qed.

Lemma skeleton_utility_act time_time e b st :
  edges (UtilityAgent.act time_time e b st).1.1 = edges e.
Proof.
  destruct (EnvFacts.utility_act_env time_time e b st) as [ds ->].
  apply (EnvFacts.foldl_fst_inv _ (λ e', edges e' = edges e)); [|done].
  intros acc d Hacc. unfold UtilityAgent.execute, save_victims.
  assert (Hc : ∀ alloc e0, edges (UtilityAgent.consume alloc e0) = edges e0).
  { intros alloc e0. unfold UtilityAgent.consume.
    apply (EnvFacts.foldl_inv _ (λ e', edges e' = edges e0)); [|done].
    intros e1 kv He1. repeat case_match; try done.
    by rewrite skeleton_use_resource. }
  repeat case_match; simplify_eq/=; rewrite ?Hc; done.
Qed.

Lemma skeleton_rebuild_act time_time e b st :
  edges (RebuildAgent.act time_time e b st).1.1 = edges e.
Proof.
  unfold RebuildAgent.act.
  destruct (RebuildAgent.decide _ st) as [ds st1].
  pose proof (EnvFacts.foldl_fst_inv
                (λ acc d, RebuildAgent.execute time_time d acc.1 acc.2)
                (λ e', edges e' = edges e) ds (e, b)) as H.
  destruct (foldl _ _ ds) as [e' b']. simpl in *. apply H; [|done].
  intros acc d Hacc. unfold RebuildAgent.execute.
  repeat case_match; simplify_eq/=; try done.
  all: match goal with
       | Hu : use_resource ?n ?a ?e0 = (?e1, _) |- _ =>
           pose proof (skeleton_use_resource n a e0) as Hs;
           rewrite Hu in Hs; simpl in Hs; by rewrite Hs
       end.
Qed.

(** The edges of a reachable state are the built-in ones up to their
    blocking flags. *)
Lemma reachable_skeleton e :
  EnvSpec.reachable e → skeleton (edges e) = skeleton initial_edges.
Proof.
  induction 1; simpl.
  - done.
  - by rewrite skeleton_trigger_disaster.
  - by rewrite skeleton_update.
  - by rewrite skeleton_use_resource.
  - done.
  - by rewrite skeleton_set_blocked.
  - by rewrite skeleton_utility_act.
  - by rewrite skeleton_rebuild_act.
Qed.

Lemma add_edge_is_Some adj0 ed :
  edge_from ed ∈ dom adj0 → edge_to ed ∈ dom adj0 →
  is_Some (add_edge (Some adj0) ed).
Proof.
  intros [l1 H1]%elem_of_dom Hto. unfold add_edge. simpl.
  rewrite H1. simpl.
  assert (Hto' : edge_to ed ∈ dom (<[edge_from ed :=
                    l1 ++ [(edge_to ed, distance ed, blocked ed)]]> adj0))
    by (rewrite dom_insert_L; set_solver).
  apply elem_of_dom in Hto' as [l2 H2]. rewrite H2. simpl. done.
Qed.

Lemma foldl_add_edge_is_Some es adj0 :
  (∀ ed, ed ∈ es → edge_from ed ∈ dom adj0 ∧ edge_to ed ∈ dom adj0) →
  is_Some (foldl add_edge (Some adj0) es).
Proof.
  revert adj0. induction es as [|ed es IH]; intros adj0 Hes; cbn [foldl];
    [done|].
  destruct (Hes ed) as [Hf Ht]; [by left|].
  destruct (add_edge_is_Some adj0 ed Hf Ht) as [adj1 H1]. rewrite H1.
  apply IH. intros ed' Hin.
  destruct (add_edge_entries adj0 ed adj1 H1) as [-> _].
  apply Hes. by right.
Qed.

Lemma well_formed_edges ns es :
  well_formed ns (skeleton es) = true →
  ∀ ed, ed ∈ es →
        edge_from ed ∈ node_id <$> ns ∧ edge_to ed ∈ node_id <$> ns
        ∧ (0 <= distance ed)%Q.
Proof.
  unfold well_formed, skeleton. rewrite forallb_forall. intros H ed Hin.
  specialize (H (edge_from ed, edge_to ed, distance ed, edge_type ed)).
  simpl in H. rewrite !andb_true_iff, !bool_decide_eq_true, Qle_bool_iff in H.
  assert (Hin' : In (edge_from ed, edge_to ed, distance ed, edge_type ed)
                    ((λ ed, (edge_from ed, edge_to ed, distance ed,
                             edge_type ed)) <$> es)).
  { apply list_elem_of_In, list_elem_of_fmap. by exists ed. }
  specialize (H Hin'). tauto.
Qed.

Lemma well_formed_distances ns es :
  well_formed ns (skeleton es) = true →
  forallb (λ ed, Qle_bool 0 (distance ed)) es = true.
Proof.
  intros H. apply forallb_forall. intros ed Hin%list_elem_of_In.
  apply Qle_bool_iff. by apply (well_formed_edges ns es H ed).
Qed.

Lemma build_adjacency_list_is_Some ns es :
  well_formed ns (skeleton es) = true →
  is_Some (build_adjacency_list ns es).
Proof.
  intros Hwf. unfold build_adjacency_list. apply foldl_add_edge_is_Some.
  intros ed Hin. rewrite dom_list_to_map_L.
  destruct (well_formed_edges ns es Hwf ed Hin) as (Hf & Ht & _).
  rewrite <- list_fmap_compose. rewrite !elem_of_list_to_set. done.
Qed.

Lemma route_nodes es avoid start v p c :
  route es avoid start v p c →
  Forall (λ x, x = start
               ∨ ∃ ed, ed ∈ es ∧ (x = edge_from ed ∨ x = edge_to ed)) p.
Proof.
  induction 1 as [|u p c ed y _ IH Hin [_ Hdir]].
  - repeat constructor.
  - apply Forall_app. split; [done|]. apply Forall_singleton. right.
    exists ed. split; [done|]. destruct Hdir as [[_ <-] | [_ <-]]; auto.
Qed.

Lemma names_is_Some (ns : list Node) (p : list Z) :
  Forall (λ x, 0 ≤ x) p →
  is_Some (mapM (λ nid, node_name <$> py_index ns nid)
                (filter (λ nid, nid < Z.of_nat (length ns)) p)).
Proof.
  intros Hp. apply mapM_is_Some_2, Forall_forall.
  intros x [Hlt Hin]%list_elem_of_filter. rewrite Forall_forall in Hp.
  specialize (Hp x Hin). simpl. unfold py_index.
  destruct (x <? 0) eqn:E; [apply Z.ltb_lt in E; lia|].
  destruct (ns !! Z.to_nat x) eqn:Hl; [done|].
  apply lookup_ge_None in Hl. lia.
Qed.

Lemma route_to_is_Some ns es adj target :
  build_adjacency_list ns es = Some adj →
  well_formed ns (skeleton es) = true →
  Forall (λ n, 0 ≤ node_id n) ns →
  is_Some (route_to ns adj 26 target).
Proof.
  intros Hb Hwf Hids.
  pose proof (well_formed_distances ns es Hwf) as Hw.
  assert (Hpath : ∀ avoid p, shortest es avoid 26 (crit_id target) p →
                             Forall (λ x, 0 ≤ x) p).
  { intros avoid p (c & Hr & _). eapply Forall_impl; [by eapply route_nodes|].
    simpl. intros x [-> | (ed & Hin & Hx)]; [lia|].
    destruct (well_formed_edges ns es Hwf ed Hin) as (Hf & Ht & _).
    rewrite Forall_forall in Hids.
    destruct Hx as [-> | ->];
      [apply list_elem_of_fmap in Hf as (n & -> & Hn)
      | apply list_elem_of_fmap in Ht as (n & -> & Hn)]; by apply Hids. }
  unfold route_to.
  pose proof (find_path_on_snapshot ns es adj 26 (crit_id target) true Hb Hw)
    as H1.
  pose proof (find_path_on_snapshot ns es adj 26 (crit_id target) false Hb Hw)
    as H2.
  destruct (_find_path_dijkstra adj 26 (crit_id target) true) as [p1|];
    cbn [fst snd].
  - destruct p1 as [|n0 p1]; [done|].
    destruct (names_is_Some ns (n0 :: p1) (Hpath _ _ H1)) as [names ->].
    done.
  - destruct (_find_path_dijkstra adj 26 (crit_id target) false) as [p2|];
      [|done].
    destruct p2 as [|n0 p2]; [done|].
    destruct (names_is_Some ns (n0 :: p2) (Hpath _ _ H2)) as [names ->].
    done.
Qed.

Lemma plan_is_Some ns e :
  well_formed ns (skeleton (edges e)) = true →
  Forall (λ n, 0 ≤ node_id n) ns →
  is_Some (_plan_rescue_routes ns e).
Proof.
  intros Hwf Hids. unfold _plan_rescue_routes.
  destruct (build_adjacency_list_is_Some ns (edges e) Hwf) as [adj Hb].
  rewrite Hb. simpl.
  destruct (mapM_is_Some_2 (route_to ns adj 26) (_find_critical_nodes ns e))
    as [found ->]; [|done].
  apply Forall_forall. intros t _. simpl. by eapply route_to_is_Some.
Qed.

(** C4.  On a snapshot of the graph with no negative distance, every
    route of the plan leads to one of the critical targets; a route
    labelled [clear] is a shortest walk from node 26 to its target over
    the unblocked edges; a route labelled [blocked_route] exists only
    when no unblocked walk does, and is a shortest walk over all edges;
    a critical target has no route only when it is out of reach over all
    edges.  In every reachable state no distance is negative and the
    plan is produced. *)
Theorem rescue_routes_shortest :
  (∀ ns e plan,
      forallb (λ ed, Qle_bool 0 (distance ed)) (edges e) = true →
      _plan_rescue_routes ns e = Some plan →
      critical_nodes plan = _find_critical_nodes ns e
      ∧ command_center plan = 26
      ∧ (∀ r, r ∈ routes plan →
           (∃ t, t ∈ critical_nodes plan ∧ target_id r = crit_id t)
           ∧ ((status r = "clear"%string
               ∧ shortest (edges e) true 26 (target_id r) (path r))
              ∨ (status r = "blocked_route"%string
                 ∧ unreachable (edges e) true 26 (target_id r)
                 ∧ shortest (edges e) false 26 (target_id r) (path r))))
      ∧ (∀ t, t ∈ critical_nodes plan →
           (∃ r, r ∈ routes plan ∧ target_id r = crit_id t)
           ∨ unreachable (edges e) false 26 (crit_id t)))
  ∧ (∀ e, EnvSpec.reachable e →
          forallb (λ ed, Qle_bool 0 (distance ed)) (edges e) = true
          ∧ is_Some (_plan_rescue_routes nodes e)).
Proof.
  split; [apply plan_routes_spec|].
  intros e Hr. apply reachable_skeleton in Hr.
  assert (Hwf : well_formed nodes (skeleton (edges e)) = true)
    by (rewrite Hr; vm_compute; reflexivity).
  split; [by eapply well_formed_distances|].
  apply plan_is_Some; [done|].
  unfold nodes. repeat constructor; simpl; lia.
Qed.

(** With the road out of node 26 blocked, both affected districts get a
    [blocked_route], each a shortest walk over all edges. *)
Lemma rescue_routes_shortest_witness :
  forallb (λ ed, Qle_bool 0 (distance ed)) (edges cut_off) = true
  ∧ ((λ r, (target_id r, path r, status r))
       <$> from_option routes [] (_plan_rescue_routes nodes cut_off))
    = [(8, [26; 0; 8], "blocked_route"%string);
       (7, [26; 0; 7], "blocked_route"%string)]
  ∧ ∀ r, r ∈ from_option routes [] (_plan_rescue_routes nodes cut_off) →
         shortest (edges cut_off) false 26 (target_id r) (path r).
Proof.
  split; [reflexivity|]. split; [vm_compute; reflexivity|].
  destruct (_plan_rescue_routes nodes cut_off) as [plan|] eqn:Hplan;
    [|by vm_compute in Hplan].
  intros r Hin.
  destruct (proj1 rescue_routes_shortest nodes cut_off plan eq_refl Hplan)
    as (_ & _ & Hroutes & _).
  destruct (Hroutes r Hin) as [_ [[Hs _] | (_ & _ & Hsh)]]; [|done].
  exfalso. clear Hroutes.
  assert (Hst : Forall (λ r, status r = "blocked_route"%string) (routes plan)).
  { assert (Some plan = _plan_rescue_routes nodes cut_off) as Heq by done.
    vm_compute in Heq. injection Heq as ->. simpl. repeat constructor. }
  rewrite Forall_forall in Hst. specialize (Hst r Hin). congruence.
Defined.
End GraphFacts.

(* ===================================================================== *)
(** * The history window and the read operations of the bus *)
(* ===================================================================== *)

Module BusHistory.
Import MessageBus BusSpec.

Lemma deque_append_window {A} (n : nat) (x : A) (l : list A) :
  deque_append n x (drop (length l - n) l)
  = drop (length (l ++ [x]) - n) (l ++ [x]).
Proof.
  unfold deque_append. rewrite !length_app, length_drop. simpl.
  destruct (decide (length l ≤ n)%nat) as [Hle|Hgt].
  - replace (length l - n)%nat with 0%nat by lia. rewrite drop_0.
    by replace (length l - 0 + 1 - n)%nat with (length l + 1 - n)%nat by lia.
  - replace (length l - (length l - n) + 1 - n)%nat with 1%nat by lia.
    replace (length l + 1 - n)%nat with ((length l - n) + 1)%nat by lia.
    rewrite <- drop_drop. f_equal.
    rewrite drop_app_le by lia. done.
Qed.

Lemma window_inv_start n : window_inv n (start n).
Proof. by split. Qed.

Lemma window_inv_step n c o s :
  match o with Reset => false | _ => true end = true →
  window_inv n s → window_inv n (step c o s).
Proof.
  intros Ho [Hmax Hh Hids Hc].
  destruct o as [sender ty payload prio ts | c' [|] | k | ]; [| | | |done].
  - rewrite BusFacts.step_send. split; simpl.
    + done.
    + rewrite Hmax, Hh. apply deque_append_window.
    + rewrite fmap_app, Hids, length_app. simpl.
      rewrite Nat2Z.inj_add. simpl.
      rewrite seqZ_app by lia. simpl. by rewrite Hc, Z.add_comm.
    + rewrite length_app. simpl. lia.
  - rewrite BusFacts.step_drain. by split.
  - rewrite BusFacts.step_read. by split.
  - unfold step. simpl. unfold clear_old_messages.
    case_match; by split.
Qed.

Lemma window_inv_run n c ops s :
  reset_free ops = true → window_inv n s → window_inv n (run c ops s).
Proof.
  revert s. induction ops as [|o ops IH]; intros s Hfree Hinv; [done|].
  simpl in Hfree. apply andb_true_iff in Hfree as [Ho Hfree].
  apply IH; [done|]. by apply window_inv_step.
Qed.

(** X1.  The history of the bus is a sliding window: whatever sends,
    reads (with or without [clear]) and [clear_old_messages] calls ran
    since the bus was created with [max_history = n], the history holds
    exactly the last [n] messages sent (all of them while fewer than [n]
    were sent), oldest first, so it never has more than [n] entries;
    only [reset] empties it. *)
Theorem history_is_window (n : nat) (c : string) (ops : list op) :
  reset_free ops = true →
  let s := run c ops (start n) in
  history (bus s) = drop (length (sent s) - n) (sent s)
  ∧ (length (history (bus s)) ≤ n)%nat
  ∧ history (bus s) `suffix_of` sent s.
Proof.
  intros Hfree s.
  destruct (window_inv_run n c ops _ Hfree (window_inv_start n))
    as [_ Hh _ _]. fold s in Hh.
  split; [done|]. rewrite Hh. split.
  - rewrite length_drop. lia.
  - apply suffix_drop.
Qed.

Lemma history_is_window_witness :
  reset_free demo_trace = true
  ∧ msg_id <$> sent (run "c1" demo_trace (start 2)) = [1; 2; 3; 4]
  ∧ history (bus (run "c1" demo_trace (start 2)))
    = drop (length (sent (run "c1" demo_trace (start 2))) - 2)
           (sent (run "c1" demo_trace (start 2))).
Proof.
  assert (Hfree : reset_free demo_trace = true) by reflexivity.
  assert (Hids : msg_id <$> sent (run "c1" demo_trace (start 2))
                 = [1; 2; 3; 4]) by (vm_compute; reflexivity).
  exact (conj Hfree (conj Hids
           (proj1 (history_is_window 2 "c1" demo_trace Hfree)))).
Defined.

(** X2.  Message ids count the sends: in any run on a fresh bus that
    does not reset it, the messages sent carry the ids 1, 2, 3, ... in
    send order, the counter is the number of messages sent, and the next
    [send] returns that number plus one. *)
Theorem send_ids_consecutive (n : nat) (c : string) (ops : list op)
    (sender ty : string) (payload : pyval) (prio : Z) (ts : Q) :
  reset_free ops = true →
  let s := run c ops (start n) in
  msg_id <$> sent s = seqZ 1 (Z.of_nat (length (sent s)))
  ∧ message_id_counter (bus s) = Z.of_nat (length (sent s))
  ∧ (send sender ty payload prio ts (bus s)).2
    = Z.of_nat (length (sent s)) + 1.
Proof.
  intros Hfree s.
  destruct (window_inv_run n c ops _ Hfree (window_inv_start n))
    as [_ _ Hids Hc]. fold s in Hids, Hc.
  split; [done|]. split; [done|]. simpl. by rewrite Hc.
Qed.

Lemma send_ids_consecutive_witness :
  reset_free demo_trace = true
  ∧ length (sent (run "c1" demo_trace (start 500))) = 4%nat
  ∧ (send "A" "v" (PDict []) 1 0%Q
          (bus (run "c1" demo_trace (start 500)))).2
    = Z.of_nat (length (sent (run "c1" demo_trace (start 500)))) + 1.
Proof.
  assert (Hfree : reset_free demo_trace = true) by reflexivity.
  assert (Hlen : length (sent (run "c1" demo_trace (start 500))) = 4%nat)
    by (vm_compute; reflexivity).
  exact (conj Hfree (conj Hlen
           (proj2 (proj2 (send_ids_consecutive 500 "c1" demo_trace
                            "A" "v" (PDict []) 1 0%Q Hfree))))).
Defined.

Lemma ids_tail (m : Message) (l : list Message) (base : Z) :
  msg_id <$> (m :: l) = seqZ (base + 1) (Z.of_nat (length (m :: l))) →
  msg_id m = base + 1
  ∧ msg_id <$> l = seqZ (base + 1 + 1) (Z.of_nat (length l)).
Proof.
  intros Hids. simpl in Hids.
  rewrite Nat2Z.inj_succ, seqZ_cons in Hids by lia.
  injection Hids as Hm Hl. split; [done|].
  etrans; [exact Hl|]. f_equal; lia.
Qed.

Lemma ids_drop (j : nat) (l : list Message) (base : Z) :
  msg_id <$> l = seqZ (base + 1) (Z.of_nat (length l)) →
  msg_id <$> drop j l
  = seqZ (base + Z.of_nat j + 1) (Z.of_nat (length (drop j l))).
Proof.
  revert l base. induction j as [|j IH]; intros l base Hids.
  - rewrite drop_0, Hids. f_equal; lia.
  - destruct l as [|m l]; [done|].
    apply ids_tail in Hids as [_ Hl]. simpl.
    rewrite (IH l (base + 1) Hl). f_equal; lia.
Qed.

Lemma filter_ids_drop (since : Z) (l : list Message) (base : Z) :
  msg_id <$> l = seqZ (base + 1) (Z.of_nat (length l)) →
  filter (λ m, since < msg_id m) l = drop (Z.to_nat (since - base)) l.
Proof.
  revert base. induction l as [|m l IH]; intros base Hids.
  - by rewrite drop_nil.
  - apply ids_tail in Hids as [Hm Hl].
    destruct (decide (since < msg_id m)) as [Hlt|Hge].
    + rewrite filter_cons_True by done.
      replace (Z.to_nat (since - base)) with 0%nat by lia. simpl.
      f_equal. rewrite (IH (base + 1) Hl).
      by replace (Z.to_nat (since - (base + 1))) with 0%nat by lia.
    + rewrite filter_cons_False by done.
      rewrite (IH (base + 1) Hl).
      by replace (Z.to_nat (since - base)) with
        (S (Z.to_nat (since - (base + 1)))) by lia.
Qed.

(** X3.  On a bus that was not reset, [get_history(since_id)] for
    [since_id >= 0] returns, oldest first, the messages number
    [since_id + 1] onwards of those sent, as far as the history window
    of the last [n] still holds them. *)
Theorem get_history_since (n : nat) (c : string) (ops : list op)
    (since_id : Z) :
  reset_free ops = true →
  0 ≤ since_id →
  let s := run c ops (start n) in
  get_history since_id (bus s)
  = drop (Nat.max (length (sent s) - n) (Z.to_nat since_id)) (sent s).
Proof.
  intros Hfree Hs s.
  destruct (window_inv_run n c ops _ Hfree (window_inv_start n))
    as [_ Hh Hids _]. fold s in Hh, Hids.
  unfold get_history. rewrite Hh.
  set (j := (length (sent s) - n)%nat).
  pose proof (ids_drop j (sent s) 0 Hids) as Hd.
  rewrite (filter_ids_drop since_id _ (0 + Z.of_nat j) Hd).
  rewrite drop_drop. f_equal. lia.
Qed.

Lemma get_history_since_witness :
  msg_id <$> get_history 1 (bus (run "c1" demo_trace (start 500)))
  = [2; 3; 4].
Proof.
  rewrite (get_history_since 500 "c1" demo_trace 1); [|reflexivity|lia].
  vm_compute. reflexivity.
Defined.

(** X4.  [read_recent(count)] is the slice [history[-count:]]: for a
    positive [count] the last [count] entries of the history (all of
    them when there are fewer); for [count = 0] the whole history, not
    the empty list; for a negative [count] the history without its
    first [-count] entries. *)
Theorem read_recent_slice (count : Z) (b : t) :
  (0 < count →
     read_recent count b
     = drop (length (history b) - Z.to_nat count) (history b))
  ∧ (count = 0 → read_recent count b = history b)
  ∧ (count < 0 → read_recent count b = drop (Z.to_nat (- count)) (history b)).
Proof.
  unfold read_recent, py_slice_from. repeat split; intros Hc.
  - rewrite (proj2 (Z.ltb_lt _ _)) by lia. f_equal. lia.
  - subst count. simpl. by rewrite Z.min_l, drop_0 by lia.
  - rewrite (proj2 (Z.ltb_ge _ _)) by lia.
    destruct (decide (- count ≤ Z.of_nat (length (history b)))).
    + f_equal. lia.
    + rewrite Z.min_r by lia. rewrite Nat2Z.id.
      rewrite !drop_ge; [done | lia | lia].
Qed.

(** X5.  [clear_old_messages(keep_recent)] keeps the last [keep_recent]
    active messages when [keep_recent] is positive (so it changes
    nothing when there are no more than that); with [keep_recent = 0] it
    clears nothing at all; it never touches the history, the id counter
    or the consumer offsets. *)
Theorem clear_old_messages_keeps (keep_recent : Z) (b : t) :
  (0 < keep_recent →
     messages (clear_old_messages keep_recent b)
     = drop (length (messages b) - Z.to_nat keep_recent) (messages b))
  ∧ (keep_recent = 0 → clear_old_messages keep_recent b = b)
  ∧ history (clear_old_messages keep_recent b) = history b
  ∧ message_id_counter (clear_old_messages keep_recent b)
    = message_id_counter b
  ∧ consumer_offsets (clear_old_messages keep_recent b) = consumer_offsets b
  ∧ max_history (clear_old_messages keep_recent b) = max_history b.
Proof.
  unfold clear_old_messages, py_slice_from. split; [|split].
  - intros Hk. destruct (keep_recent <? _) eqn:E; simpl.
    + apply Z.ltb_lt in E. rewrite (proj2 (Z.ltb_lt _ _)) by lia.
      f_equal. lia.
    + apply Z.ltb_ge in E.
      by replace (length (messages b) - Z.to_nat keep_recent)%nat
        with 0%nat by lia.
  - intros ->. destruct (0 <? _) eqn:E; [|done]. simpl.
    rewrite Z.min_l, drop_0 by lia. by destruct b.
  - by destruct (keep_recent <? _).
Qed.



Lemma step_max_history c o s :
  max_history (bus (step c o s)) = max_history (bus s).
Proof.
  destruct o as [sender ty payload prio ts | c' [|] | k | ]; try done.
  unfold step. simpl. unfold clear_old_messages. by case_match.
Qed.

Lemma run_max_history c ops s :
  max_history (bus (run c ops s)) = max_history (bus s).
Proof.
  revert s. induction ops as [|o ops IH]; intros s; [done|].
  change (run c (o :: ops) s) with (run c ops (step c o s)).
  by rewrite IH, step_max_history.
Qed.

Lemma step_bus c o s s' :
  bus s = bus s' → bus (step c o s) = bus (step c o s').
Proof.
  intros Hb.
  destruct o as [sender ty payload prio ts | c' [|] | k | ];
    unfold step; simpl; by rewrite Hb.
Qed.

Lemma run_bus c ops s s' :
  bus s = bus s' → bus (run c ops s) = bus (run c ops s').
Proof.
  revert s s'. induction ops as [|o ops IH]; intros s s' Hb; [done|].
  change (run c (o :: ops) s) with (run c ops (step c o s)).
  change (run c (o :: ops) s') with (run c ops (step c o s')).
  by apply IH, step_bus.
Qed.

(** X21.  [reset()] starts the bus over: whatever ran before it, the bus
    after a reset and any further operations is the bus that a new
    [MessageBus(max_history)] reaches by those further operations alone,
    so ids restart at 1, every cursor is forgotten and the history is
    empty. *)
Theorem reset_starts_over (n : nat) (c : string) (before after : list op) :
  bus (run c (before ++ Reset :: after) (start n))
  = bus (run c after (start n)).
Proof.
  unfold run at 1. rewrite foldl_app. simpl.
  apply (run_bus c after). simpl. unfold reset.
  fold (run c before (start n)). by rewrite run_max_history.
Qed.

End BusHistory.

(* ===================================================================== *)
(** * Dynamics of the environment *)
(* ===================================================================== *)

Module EnvDynamicsFacts.
Import Random Environment EnvSpec EnvDynamics GraphSpec.
Import AgentSpec (count).

(** ** Reset *)

Lemma unblocked_of_skeleton (es es' : list Edge) :
  skeleton es = skeleton es' →
  set_blocked false <$> es = set_blocked false <$> es'.
Proof.
  unfold skeleton. revert es'. induction es as [|ed es IH]; intros [|ed' es'] H; try done.
  injection H as H1 H2 H3 H4 H5. simpl. f_equal; [|by apply IH].
  unfold set_blocked. by rewrite H1, H2, H3, H4.
Qed.

(** X7.  [reset] undoes everything the public operations can do: from
    any reachable state it gives back exactly the freshly constructed
    environment, roads unblocked and statistics cleared. *)
Theorem reset_restores_init (e : Environment.t) :
  reachable e → reset e = init.
Proof.
  intros Hr. pose proof (EnvFacts.reachable_inv e Hr) as [_ _ _ _ Hp].
  pose proof (GraphFacts.reachable_skeleton e Hr) as Hsk.
  unfold reset, init. rewrite Hp. f_equal.
  change initial_edges with (set_blocked false <$> initial_edges).
  by apply unblocked_of_skeleton.
Qed.

Lemma reset_restores_init_witness :
  reset (use_resource "food_packs" 7
           (trigger_disaster half_tape "flood" 0.5 None init 0%nat).1).1
  = init.
Proof.
  apply reset_restores_init.
  apply reach_use_resource, reach_trigger, reach_init.
Defined.

(** ** Numbers *)

Lemma inject_Z_le (a b : Z) : a ≤ b → (inject_Z a <= inject_Z b)%Q.
Proof. intros H. by rewrite <- Zle_Qle. Qed.

Lemma py_int_floor (x : Q) : (0 <= x)%Q → py_int x = Qfloor x.
Proof.
  destruct x as [n d]. unfold Qle, py_int, Qfloor. simpl. intros Hn.
  apply Z.quot_div_nonneg; lia.
Qed.

Lemma clamp_unit (i : Q) :
  (0 <= Qmax 0 (Qmin 1 i))%Q ∧ (Qmax 0 (Qmin 1 i) <= 1)%Q.
Proof.
  split; [apply Q.le_max_l|].
  apply Q.max_lub; [done | apply Q.le_min_l].
Qed.

Lemma py_int_between (x : Q) (a b : Z) :
  0 ≤ a → (inject_Z a <= x)%Q → (x <= inject_Z b)%Q → a ≤ py_int x ≤ b.
Proof.
  intros Ha Hl Hu.
  assert (H0 : (0 <= x)%Q).
  { apply Qle_trans with (inject_Z a); [|exact Hl]. by apply (inject_Z_le 0 a). }
  rewrite py_int_floor by done.
  rewrite <- (Qfloor_Z a), <- (Qfloor_Z b).
  split; by apply Qfloor_resp_le.
Qed.

Lemma generic_draw_range (raw : Z) (s : Q) :
  (0 <= s)%Q → (s <= 1)%Q →
  1 ≤ Z.max 0 (py_int (inject_Z (1 + raw mod 10) * (1 + s))%Q) ≤ 20.
Proof.
  intros H0 H1.
  pose proof (Z.mod_pos_bound raw 10 eq_refl) as Hm.
  assert (Hn1 : (1 <= inject_Z (1 + raw mod 10))%Q)
    by (apply (inject_Z_le 1); lia).
  assert (Hn2 : (inject_Z (1 + raw mod 10) <= 10)%Q)
    by (apply (inject_Z_le _ 10); lia).
  destruct (py_int_between (inject_Z (1 + raw mod 10) * (1 + s))%Q 1 20)
    as [? ?]; [lia | | | lia].
  - change (inject_Z 1) with 1%Q. nra.
  - change (inject_Z 20) with 20%Q. nra.
Qed.

(** ** Resources at the start of a disaster *)

Lemma trigger_disaster_resources tape sc intensity given e pos :
  let e' := (trigger_disaster tape sc intensity given e pos).1 in
  ∃ p,
    resources e'
    = (match given with
       | Some g =>
           if bool_decide (g = ∅) then
             random_resources tape sc (Qmax 0 (Qmin 1 intensity)) (resources e)
           else
             ret (map_imap (λ k old,
                    Some (match g !! k with
                          | Some v => Z.max 0 v
                          | None => old
                          end)) (resources e))
       | None =>
           random_resources tape sc (Qmax 0 (Qmin 1 intensity)) (resources e)
       end p).1
    ∧ initial_resources e' = resources e'
    ∧ resources_used e' = (λ _, 0) <$> resources e'.
Proof.
  unfold trigger_disaster, bind, ret.
  destruct (_ pos) as [affected p1].
  destruct (affect_edges _ _ _ _ _ p1) as [ea p2].
  exists p2. by destruct (_ p2) as [res p3].
Qed.

(** X8.  Resources given to [trigger_disaster] override the ledger entry
    by entry: a given count replaces the entry of the same name, floored
    at 0; entries the caller does not name keep their count; names the
    ledger does not have are ignored.  The snapshot of initial resources
    is the new ledger and every used-counter restarts at 0.  An empty
    dictionary counts as no dictionary. *)
Theorem trigger_given_resources tape sc intensity (g : gmap string Z) e pos :
  (g ≠ ∅ →
   let e' := (trigger_disaster tape sc intensity (Some g) e pos).1 in
   (∀ k, resources e' !! k
         = (λ old, match g !! k with
                   | Some v => Z.max 0 v
                   | None => old
                   end) <$> resources e !! k)
   ∧ initial_resources e' = resources e'
   ∧ ∀ k, resources_used e' !! k = (λ _, 0) <$> resources e !! k)
  ∧ trigger_disaster tape sc intensity (Some ∅) e pos
    = trigger_disaster tape sc intensity None e pos.
Proof.
  split; [|done].
  intros Hg e'.
  destruct (trigger_disaster_resources tape sc intensity (Some g) e pos)
    as (p & Hres & Hini & Hused).
  fold e' in Hres, Hini, Hused.
  rewrite bool_decide_eq_false_2 in Hres by done. simpl in Hres.
  assert (Hk : ∀ k, resources e' !! k
                    = (λ old, match g !! k with
                              | Some v => Z.max 0 v
                              | None => old
                              end) <$> resources e !! k).
  { intros k. rewrite Hres, map_lookup_imap.
    by destruct (resources e !! k). }
  split; [done|]. split; [done|].
  intros k. rewrite Hused, lookup_fmap, Hk.
  by destruct (resources e !! k).
Qed.

Lemma trigger_given_resources_witness :
  resources flood_with_given !! "drones" = Some 7
  ∧ resources flood_with_given !! "food_packs" = Some 0
  ∧ resources flood_with_given !! "ambulances" = Some 5
  ∧ resources flood_with_given !! "helicopters" = None.
Proof.
  assert (Hne : <["drones" := 7]> (<["food_packs" := -4]>
                  (<["helicopters" := 2]> (∅ : gmap string Z))) ≠ ∅)
    by apply insert_non_empty.
  pose proof (proj1 (trigger_given_resources half_tape "flood" 0.5 _ init
                       0%nat) Hne) as [Hk _].
  unfold flood_with_given. rewrite !Hk. repeat split; reflexivity.
Defined.

Lemma randomize_spec tape amb drn kit crw fod r pos :
  amb.1 ≤ amb.2 → drn.1 ≤ drn.2 → kit.1 ≤ kit.2 →
  crw.1 ≤ crw.2 → fod.1 ≤ fod.2 →
  ∃ a d k c f,
    (randomize tape amb drn kit crw fod r pos).1
    = <["food_packs" := f]> (<["repair_crews" := c]>
        (<["medical_kits" := k]> (<["drones" := d]>
          (<["ambulances" := a]> r))))
    ∧ amb.1 ≤ a ≤ amb.2 ∧ drn.1 ≤ d ≤ drn.2 ∧ kit.1 ≤ k ≤ kit.2
    ∧ crw.1 ≤ c ≤ crw.2 ∧ fod.1 ≤ f ≤ fod.2.
Proof.
  intros Ha Hd Hk Hc Hf. unfold randomize, bind, ret.
  pose proof (EnvFacts.randint_range tape amb.1 amb.2 pos Ha) as H1.
  destruct (randint tape amb.1 amb.2 pos) as [a p1].
  pose proof (EnvFacts.randint_range tape drn.1 drn.2 p1 Hd) as H2.
  destruct (randint tape drn.1 drn.2 p1) as [d p2].
  pose proof (EnvFacts.randint_range tape kit.1 kit.2 p2 Hk) as H3.
  destruct (randint tape kit.1 kit.2 p2) as [k p3].
  pose proof (EnvFacts.randint_range tape crw.1 crw.2 p3 Hc) as H4.
  destruct (randint tape crw.1 crw.2 p3) as [c p4].
  pose proof (EnvFacts.randint_range tape fod.1 fod.2 p4 Hf) as H5.
  destruct (randint tape fod.1 fod.2 p4) as [f p5].
  exists a, d, k, c, f. simpl in *. done.
Qed.

Lemma imap_list_to_map_lookup (g : nat → Z → Z) (l : list (string * Z))
    (k : string) :
  ∃ i, (list_to_map (imap (λ i kv, (kv.1, g i kv.2)) l) : gmap string Z) !! k
       = g i <$> (list_to_map l : gmap string Z) !! k.
Proof.
  revert g. induction l as [|[k0 v0] l IH]; intros g.
  - exists 0%nat. simpl. by rewrite !lookup_empty.
  - simpl. destruct (decide (k = k0)) as [->|Hne].
    + exists 0%nat. by rewrite !lookup_insert_eq.
    + rewrite !lookup_insert_ne by done.
      destruct (IH (g ∘ S)) as [i Hi]. exists (S i). exact Hi.
Qed.

Lemma draw_each_lookup tape (f : Z → Z → Z) (m : gmap string Z) pos k :
  ∃ raw, (draw_each tape f m pos).1 !! k = (λ v, f v raw) <$> m !! k.
Proof.
  unfold draw_each. simpl.
  destruct (imap_list_to_map_lookup
              (λ i v, f v (tape (pos + i)%nat)) (map_to_list m) k)
    as [i Hi].
  exists (tape (pos + i)%nat). rewrite Hi. by rewrite list_to_map_to_list.
Qed.

(** X9.  Without given resources [trigger_disaster] draws the ledger
    afresh: for an earthquake, a flood or a wildfire each of the five
    resources lies in the range of its scenario and no other entry
    changes; for any other scenario name every entry of the ledger is
    redrawn between 1 and 20.  Either way the snapshot of initial
    resources is the new ledger. *)
Theorem trigger_random_resources tape sc intensity e pos :
  let e' := (trigger_disaster tape sc intensity None e pos).1 in
  initial_resources e' = resources e'
  ∧ match scenario_ranges sc with
    | Some ranges =>
        Forall (λ kr, ∃ v, resources e' !! kr.1 = Some v
                           ∧ kr.2.1 ≤ v ≤ kr.2.2) ranges
        ∧ ∀ k, k ∉ ranges.*1 → resources e' !! k = resources e !! k
    | None =>
        ∀ k, match resources e !! k with
             | Some _ => ∃ v, resources e' !! k = Some v ∧ 1 ≤ v ≤ 20
             | None => resources e' !! k = None
             end
    end.
Proof.
  intros e'.
  destruct (trigger_disaster_resources tape sc intensity None e pos)
    as (p & Hres & Hini & _).
  fold e' in Hres, Hini. split; [done|].
  unfold scenario_ranges, random_resources in *.
  assert (Hcases :
    ∀ amb drn kit crw fod,
      amb.1 ≤ amb.2 → drn.1 ≤ drn.2 → kit.1 ≤ kit.2 →
      crw.1 ≤ crw.2 → fod.1 ≤ fod.2 →
      resources e' = (randomize tape amb drn kit crw fod (resources e) p).1 →
      Forall (λ kr, ∃ v, resources e' !! kr.1 = Some v
                         ∧ kr.2.1 ≤ v ≤ kr.2.2)
             [("ambulances", amb); ("drones", drn); ("medical_kits", kit);
              ("repair_crews", crw); ("food_packs", fod)]%string
      ∧ ∀ k, k ∉ ["ambulances"; "drones"; "medical_kits"; "repair_crews";
                  "food_packs"]%string →
             resources e' !! k = resources e !! k).
  { intros amb drn kit crw fod Ha Hd Hk Hc Hf Hr.
    destruct (randomize_spec tape amb drn kit crw fod (resources e) p
                Ha Hd Hk Hc Hf) as (a & d & k & c & f & Heq & ? & ? & ? & ? & ?).
    rewrite Hr, Heq. split.
    - repeat apply Forall_cons_2; [..|apply Forall_nil_2]; simpl.
      + exists a. split; [|done].
        by rewrite !lookup_insert_ne, lookup_insert_eq by done.
      + exists d. split; [|done].
        by rewrite !lookup_insert_ne, lookup_insert_eq by done.
      + exists k. split; [|done].
        by rewrite !lookup_insert_ne, lookup_insert_eq by done.
      + exists c. split; [|done].
        by rewrite !lookup_insert_ne, lookup_insert_eq by done.
      + exists f. split; [|done]. by rewrite lookup_insert_eq.
    - intros k0 Hk0. rewrite !lookup_insert_ne; [done|..];
        intros <-; apply Hk0; set_solver. }
  destruct (String.eqb sc "earthquake");
    [by apply (Hcases (3, 8) (1, 4) (20, 80) (1, 4) (30, 100))|].
  destruct (String.eqb sc "flood");
    [by apply (Hcases (2, 6) (2, 6) (15, 60) (2, 6) (40, 120))|].
  destruct (String.eqb sc "wildfire");
    [by apply (Hcases (1, 4) (3, 8) (10, 40) (3, 8) (20, 80))|].
  intros k.
  destruct (draw_each_lookup tape
              (λ _ raw, Z.max 0 (py_int (inject_Z (1 + raw mod 10)
                                 * (1 + Qmax 0 (Qmin 1 intensity)))%Q))
              (resources e) p k) as [raw Hraw].
  rewrite Hres, Hraw. destruct (resources e !! k) as [old|]; [|done].
  simpl. eexists. split; [done|].
  apply generic_draw_range; apply clamp_unit.
Qed.

(** ** The affected area *)

Lemma trigger_disaster_area tape sc intensity given e pos :
  let e' := (trigger_disaster tape sc intensity given e pos).1 in
  let seismic := Qmax 0 (Qmin 1 intensity) in
  ∃ p p',
    affected_nodes e'
    = ((if String.eqb sc "earthquake" then
          ret (seqZ 0 (Z.of_nat (length nodes)))
        else if String.eqb sc "flood" then
          select_nodes tape [3; 4; 6; 19; 9; 8; 11] 0.3%Q nodes
        else if String.eqb sc "wildfire" then
          select_nodes tape [2; 4; 6; 17] 0.2%Q nodes
        else select_nodes tape [] 0.7%Q nodes) p).1
    ∧ (edges e', affected_edges e')
      = (affect_edges tape (affected_nodes e') seismic 0 (edges e) p').1
    ∧ roads_blocked e' = any_blocked (edges e')
    ∧ seismic_level e' = seismic.
Proof.
  unfold trigger_disaster, bind, ret.
  exists pos.
  destruct (_ pos) as [affected p1]. exists p1.
  destruct (affect_edges _ _ _ _ _ p1) as [[es idxs] p2] eqn:E2.
  destruct (_ p2) as [res p3]. simpl. by rewrite E2.
Qed.

Lemma select_nodes_spec tape fixed p (ns : list Node) pos :
  (select_nodes tape fixed p ns pos).1 `sublist_of` (node_id <$> ns)
  ∧ ∀ n, n ∈ ns → node_id n ∈ fixed →
         node_id n ∈ (select_nodes tape fixed p ns pos).1.
Proof.
  revert pos. induction ns as [|n ns IH]; intros pos.
  - split; [done|]. intros n Hn. by apply elem_of_nil in Hn.
  - simpl. unfold bind, ret.
    destruct (bool_decide (node_id n ∈ fixed)) eqn:Hfix.
    + destruct (IH pos) as [Hsub Hin].
      destruct (select_nodes tape fixed p ns pos) as [rest p1]. simpl in *.
      split; [by constructor|].
      intros m [->|Hm]%elem_of_cons Hf; [by left|].
      right. by apply Hin.
    + unfold random.
      destruct (IH (S pos)) as [Hsub Hin].
      destruct (select_nodes tape fixed p ns (S pos)) as [rest p1].
      simpl in *. apply bool_decide_eq_false in Hfix.
      split.
      * destruct (Qltb _ p); by constructor.
      * intros m [->|Hm]%elem_of_cons Hf; [done|].
        destruct (Qltb _ p); [right|]; by apply Hin.
Qed.

Lemma node_ids : node_id <$> nodes = seqZ 0 27.
Proof. reflexivity. Qed.

(** X10.  Whatever the scenario, the affected nodes are node ids of the
    city table, listed in table order with none twice.  An earthquake
    affects every node; a flood always affects the seven coastal nodes
    and a wildfire the four dry ones, whatever is drawn for the other
    nodes. *)
Theorem trigger_affected_nodes tape sc intensity given e pos :
  let e' := (trigger_disaster tape sc intensity given e pos).1 in
  affected_nodes e' `sublist_of` (node_id <$> nodes)
  ∧ (sc = "earthquake"%string → affected_nodes e' = node_id <$> nodes)
  ∧ (sc = "flood"%string →
     ∀ x, x ∈ [3; 4; 6; 19; 9; 8; 11] → x ∈ affected_nodes e')
  ∧ (sc = "wildfire"%string →
     ∀ x, x ∈ [2; 4; 6; 17] → x ∈ affected_nodes e').
Proof.
  intros e'.
  destruct (trigger_disaster_area tape sc intensity given e pos)
    as (p & _ & Ha & _). fold e' in Ha.
  assert (Hids : ∀ fixed x, x ∈ fixed → x ∈ node_id <$> nodes →
                 ∀ q, x ∈ (select_nodes tape fixed q nodes p).1).
  { intros fixed x Hx (n & -> & Hn)%list_elem_of_fmap q.
    by apply select_nodes_spec. }
  split; [|split; [|split]].
  - rewrite Ha. repeat case_match; try apply select_nodes_spec.
    by replace (ret _ p).1 with (node_id <$> nodes) by reflexivity.
  - intros ->. rewrite Ha. reflexivity.
  - intros -> x Hx. rewrite Ha.
    change ("flood" =? "earthquake")%string with false.
    change ("flood" =? "flood")%string with true. cbv iota.
    apply Hids; [done|].
    revert x Hx. apply Forall_forall.
    rewrite node_ids.
    repeat apply Forall_cons_2; [..|apply Forall_nil_2];
      apply elem_of_seqZ; lia.
  - intros -> x Hx. rewrite Ha.
    change ("wildfire" =? "earthquake")%string with false.
    change ("wildfire" =? "flood")%string with false.
    change ("wildfire" =? "wildfire")%string with true. cbv iota.
    apply Hids; [done|].
    revert x Hx. apply Forall_forall.
    rewrite node_ids.
    repeat apply Forall_cons_2; [..|apply Forall_nil_2];
      apply elem_of_seqZ; lia.
Qed.

Lemma random_nonneg tape pos : (0 <= (random tape pos).1)%Q.
Proof.
  unfold random, Qle. simpl.
  pose proof (Z.mod_pos_bound (tape pos) (2 ^ 53) eq_refl). lia.
Qed.

Lemma random_below_one tape pos : ((random tape pos).1 < 1)%Q.
Proof.
  unfold random, Qlt. simpl.
  pose proof (Z.mod_pos_bound (tape pos) (2 ^ 53) eq_refl). lia.
Qed.

Lemma Qltb_lt (x y : Q) : Qltb x y = true ↔ (x < y)%Q.
Proof.
  unfold Qltb. rewrite negb_true_iff.
  destruct (Qle_bool y x) eqn:E.
  - apply Qle_bool_iff in E. split; [done|]. intros H.
    exfalso. by apply (Qlt_not_le x y).
  - split; [|done]. intros _. apply Qnot_le_lt. intros H.
    apply Qle_bool_iff in H. congruence.
Qed.

Lemma affect_edges_spec tape affected seismic idx (es : list Edge) pos :
  let r := (affect_edges tape affected seismic idx es pos).1 in
  Forall2 (edge_after affected) es r.1
  ∧ (∀ i, i ∈ r.2 ↔ ∃ j ed, i = (idx + j)%nat ∧ es !! j = Some ed
                            ∧ touches affected ed)
  ∧ ((seismic <= 0)%Q → r.1 = es).
Proof.
  revert idx pos. induction es as [|ed es IH]; intros idx pos.
  - simpl. split; [constructor|]. split; [|done].
    intros i. split; [by intros ?%elem_of_nil|].
    by intros (j & ed & _ & ? & _).
  - simpl.
    destruct (bool_decide (edge_from ed ∈ affected)
              || bool_decide (edge_to ed ∈ affected)) eqn:Ht.
    + assert (Htouch : touches affected ed).
      { apply orb_true_iff in Ht as [?%bool_decide_eq_true
                                    |?%bool_decide_eq_true];
          [by left | by right]. }
      unfold bind, ret.
      pose proof (random_nonneg tape pos) as Hu.
      destruct (random tape pos) as [u p1]. simpl in Hu.
      destruct (IH (S idx) p1) as (Hall & Hidx & Hzero).
      destruct (affect_edges tape affected seismic (S idx) es p1)
        as [[es' idxs] p2]. simpl in *.
      split; [|split].
      * constructor; [|done]. unfold edge_after.
        destruct (Qltb u _); [by right | by left].
      * intros i. rewrite elem_of_cons, Hidx. split.
        -- intros [->|(j & ed0 & -> & Hj & Ht0)].
           ++ exists 0%nat, ed. split; [lia | done].
           ++ exists (S j), ed0. split; [lia | done].
        -- intros ([|j] & ed0 & -> & Hj & Ht0).
           ++ left. lia.
           ++ right. exists j, ed0. split; [lia | done].
      * intros Hs. rewrite (Hzero Hs). f_equal.
        destruct (Qltb u _) eqn:E; [|done].
        apply Qltb_lt in E. exfalso.
        assert (((if String.eqb (edge_type ed) "road" then 0.2 else 0.1)
                 * seismic <= 0)%Q) by (destruct (String.eqb _ _); nra).
        apply (Qlt_not_le _ _ E). by apply Qle_trans with 0%Q.
    + assert (Hno : ¬ touches affected ed).
      { apply orb_false_iff in Ht as [?%bool_decide_eq_false
                                     ?%bool_decide_eq_false].
        by intros [?|?]. }
      unfold bind, ret.
      destruct (IH (S idx) pos) as (Hall & Hidx & Hzero).
      destruct (affect_edges tape affected seismic (S idx) es pos)
        as [[es' idxs] p2]. simpl in *.
      split; [|split].
      * constructor; [by left | done].
      * intros i. rewrite Hidx. split.
        -- intros (j & ed0 & -> & Hj & Ht0).
           exists (S j), ed0. split; [lia | done].
        -- intros ([|j] & ed0 & -> & Hj & Ht0).
           ++ simpl in Hj. by injection Hj as <-.
           ++ exists j, ed0. split; [lia | done].
      * intros Hs. by rewrite (Hzero Hs).
Qed.

(** X11.  [trigger_disaster] only ever adds road blocks, and only in the
    affected area: every edge stays the same road; an edge that was
    blocked stays blocked; an edge is newly blocked only if one of its
    ends is an affected node.  The affected edges are exactly the
    indices of the edges with an end in the affected area, and
    [roads_blocked] tells whether any edge is blocked.  At intensity 0
    or below no edge changes. *)
Theorem trigger_blocks_affected_roads tape sc intensity given e pos :
  let e' := (trigger_disaster tape sc intensity given e pos).1 in
  Forall2 (edge_after (affected_nodes e')) (edges e) (edges e')
  ∧ (∀ i, i ∈ affected_edges e'
          ↔ ∃ ed, edges e !! i = Some ed
                  ∧ touches (affected_nodes e') ed)
  ∧ roads_blocked e' = any_blocked (edges e')
  ∧ ((intensity <= 0)%Q → edges e' = edges e).
Proof.
  intros e'.
  destruct (trigger_disaster_area tape sc intensity given e pos)
    as (_ & p & _ & Hea & Hrb & _). fold e' in Hea, Hrb.
  destruct (affect_edges_spec tape (affected_nodes e')
              (Qmax 0 (Qmin 1 intensity)) 0 (edges e) p)
    as (Hall & Hidx & Hzero).
  rewrite <- Hea in Hall, Hidx, Hzero. simpl in *.
  split; [done|]. split; [|split; [done|]].
  - intros i. rewrite Hidx. split.
    + intros (j & ed & -> & ? & ?). by exists ed.
    + intros (ed & ? & ?). by exists i, ed.
  - intros Hi. apply Hzero. apply Q.max_lub; [done|].
    apply Qle_trans with intensity; [apply Q.le_min_r | done].
Qed.

(** One draw of [random.random()], with its range. *)
Ltac draw :=
  match goal with
  | |- context [Random.random ?t ?p] =>
      let u := fresh "u" in
      let q := fresh "q" in
      let H0 := fresh "Hu0" in
      let H1 := fresh "Hu1" in
      pose proof (random_nonneg t p) as H0;
      pose proof (random_below_one t p) as H1;
      destruct (Random.random t p) as [u q]; cbn [fst snd] in H0, H1
  end.

(** ** Ranges of the seismic level and of the rebuild progress *)

Lemma inject_Z_max0 (z : Z) : (0 <= inject_Z (Z.max 0 z))%Q.
Proof. apply (inject_Z_le 0). lia. Qed.

Lemma trigger_disaster_ranges tape sc intensity given e pos :
  in_ranges e → in_ranges (trigger_disaster tape sc intensity given e pos).1.
Proof.
  intros (_ & _ & Hp0 & Hp1).
  destruct (trigger_disaster_area tape sc intensity given e pos)
    as (_ & _ & _ & _ & _ & Hs).
  unfold in_ranges. rewrite Hs.
  assert (Hp : rebuild_progress
                 (trigger_disaster tape sc intensity given e pos).1
               = rebuild_progress e).
  { unfold trigger_disaster, bind, ret.
    repeat match goal with
           | |- context [let '(_, _) := ?m in _] => destruct m as [? ?]
           end. done. }
  rewrite Hp. pose proof (clamp_unit intensity) as [? ?]. done.
Qed.

Lemma update_response_ranges tape e pos :
  in_ranges e → in_ranges (update_response tape e pos).1.
Proof.
  intros (Hs0 & Hs1 & Hp0 & Hp1).
  unfold update_response, bind, ret. repeat draw.
  assert (Hs : (0 <= Qmax 0 (seismic_level e - u1 * 0.1))%Q
               ∧ (Qmax 0 (seismic_level e - u1 * 0.1) <= 1)%Q).
  { split; [apply Q.le_max_l|]. apply Q.max_lub; [done | lra]. }
  repeat case_match; simplify_eq/=; unfold in_ranges; simpl;
    repeat split; try done; try apply Hs.
Qed.

Lemma update_rebuild_ranges tape e pos :
  params e = default_params → in_ranges e →
  in_ranges (update_rebuild tape e pos).1.
Proof.
  intros Hpar (Hs0 & Hs1 & Hp0 & Hp1).
  unfold update_rebuild, bind, ret. rewrite Hpar. draw.
  pose proof (inject_Z_max0 (default 0 (resources e !! "repair_crews"))) as Hc.
  pose proof (inject_Z_max0 (default 0 (resources e !! "drones"))) as Hd.
  set (c := inject_Z (0 `max` default 0 (resources e !! "repair_crews"))) in *.
  set (d := inject_Z (0 `max` default 0 (resources e !! "drones"))) in *.
  assert (Hinc : (0 <= (c * rebuild_factor_per_crew default_params + d * 0.15)
                       * (0.8 + u * 0.4))%Q).
  { change (rebuild_factor_per_crew default_params) with 2.0%Q. nra. }
  set (inc := ((c * rebuild_factor_per_crew default_params + d * 0.15)
               * (0.8 + u * 0.4))%Q) in *.
  assert (Hp : (0 <= Qmin 100 (rebuild_progress e + inc))%Q
               ∧ (Qmin 100 (rebuild_progress e + inc) <= 100)%Q).
  { split; [apply Q.min_glb; lra | apply Q.le_min_l]. }
  repeat match goal with
         | |- context [let '(_, _) := ?m in _] => destruct m as [? ?]
         end.
  case_match; unfold in_ranges; simpl; repeat split; try done; apply Hp.
Qed.

Lemma update_ranges tape e pos :
  params e = default_params → in_ranges e → in_ranges (update tape e pos).1.
Proof.
  intros Hpar Hr. unfold update.
  destruct (phase e); [done | | |]; unfold bind, ret.
  - pose proof (update_response_ranges tape (tick e) pos Hr) as H.
    by destruct (update_response tape (tick e) pos).
  - pose proof (update_rebuild_ranges tape (tick e) pos Hpar Hr) as H.
    by destruct (update_rebuild tape (tick e) pos).
  - assert (H : in_ranges (update_recovered tape (tick e) pos).1).
    { unfold update_recovered. destruct (0 <? _); [done|].
      unfold bind, ret.
      destruct (choice _ _ _ _) as [sc p1]. destruct (random tape p1) as [u p2].
      by apply trigger_disaster_ranges. }
    by destruct (update_recovered tape (tick e) pos).
Qed.

(** ** What the agents leave alone *)

Lemma same_but_ledger_refl e : same_but_ledger e e.
Proof. by destruct e. Qed.

Lemma same_but_ledger_trans e1 e2 e3 :
  same_but_ledger e1 e2 → same_but_ledger e2 e3 → same_but_ledger e1 e3.
Proof.
  unfold same_but_ledger. intros H12 H23. rewrite H23 at 1. rewrite H12 at 1.
  done.
Qed.

Lemma use_resource_ledger name amount e :
  same_but_ledger e (use_resource name amount e).1.
Proof.
  unfold use_resource. destruct (resources e !! name); [done|].
  apply same_but_ledger_refl.
Qed.

Lemma save_victims_ledger count e :
  same_but_ledger e (save_victims count e).1.
Proof. done. Qed.

Lemma utility_consume_ledger alloc e :
  same_but_ledger e (UtilityAgent.consume alloc e).
Proof.
  unfold UtilityAgent.consume.
  apply (EnvFacts.foldl_inv _ (same_but_ledger e));
    [|apply same_but_ledger_refl].
  intros acc kv Hacc. destruct kv.2; try done.
  destruct (0 <? z); [|done].
  eapply same_but_ledger_trans; [done | apply use_resource_ledger].
Qed.

Lemma utility_execute_ledger d e :
  same_but_ledger e (UtilityAgent.execute d e).1.
Proof.
  unfold UtilityAgent.execute.
  destruct (String.eqb _ _); [|apply same_but_ledger_refl].
  destruct (0 <? _); [|apply utility_consume_ledger].
  match goal with
  | |- context [save_victims ?n ?e0] =>
      pose proof (save_victims_ledger n e0) as H;
      destruct (save_victims n e0) as [e2 saved]
  end.
  eapply same_but_ledger_trans; [apply utility_consume_ledger | exact H].
Qed.

Lemma utility_act_ledger time_time e b st :
  same_but_ledger e (UtilityAgent.act time_time e b st).1.1.
Proof.
  destruct (EnvFacts.utility_act_env time_time e b st) as [ds ->].
  apply (EnvFacts.foldl_fst_inv _ (same_but_ledger e));
    [|apply same_but_ledger_refl].
  intros acc d Hacc.
  pose proof (utility_execute_ledger d acc.1) as H.
  destruct (UtilityAgent.execute d acc.1) as [e1 payload].
  by eapply same_but_ledger_trans.
Qed.

Lemma rebuild_execute_ledger time_time d e b :
  same_but_ledger e (RebuildAgent.execute time_time d e b).1.
Proof.
  unfold RebuildAgent.execute.
  destruct (String.eqb _ "repair_request");
    [|destruct (String.eqb _ _); apply same_but_ledger_refl].
  destruct (0 <? _); [|apply same_but_ledger_refl].
  match goal with
  | |- context [use_resource ?n ?a ?e0] =>
      pose proof (use_resource_ledger n a e0) as H;
      destruct (use_resource n a e0) as [e1 used]
  end.
  destruct (0 <? used); [|exact H]. simpl in *.
  eapply same_but_ledger_trans; [exact H|]. done.
Qed.

Lemma rebuild_act_ledger time_time e b st :
  same_but_ledger e (RebuildAgent.act time_time e b st).1.1.
Proof.
  unfold RebuildAgent.act.
  destruct (RebuildAgent.decide _ st) as [ds st1].
  pose proof (EnvFacts.foldl_fst_inv
                (λ acc d, RebuildAgent.execute time_time d acc.1 acc.2)
                (same_but_ledger e) ds (e, b)) as H.
  destruct (foldl _ _ ds) as [e' b']. simpl in *. apply H;
    [|apply same_but_ledger_refl].
  intros acc d Hacc.
  eapply same_but_ledger_trans; [done | apply rebuild_execute_ledger].
Qed.

Lemma same_but_ledger_ranges e e' :
  same_but_ledger e e' → in_ranges e → in_ranges e'.
Proof. intros -> H. exact H. Qed.

Lemma levels_ranges (e : Environment.t) : reachable e → in_ranges e.
Proof.
  induction 1 as [|e tape pos sc i g Hr IH|e tape pos Hr IH
                  |e name amount Hr IH|e count Hr IH|e Hr IH
                  |e tt b st Hr IH|e tt b st Hr IH].
  - unfold in_ranges. simpl. lra.
  - by apply trigger_disaster_ranges.
  - apply update_ranges; [|done]. by apply EnvFacts.reachable_inv.
  - eapply same_but_ledger_ranges; [apply use_resource_ledger | done].
  - eapply same_but_ledger_ranges; [apply save_victims_ledger | done].
  - unfold in_ranges. simpl. lra.
  - eapply same_but_ledger_ranges; [apply utility_act_ledger | done].
  - eapply same_but_ledger_ranges; [apply rebuild_act_ledger | done].
Qed.

(** X12.  In every state the public operations can reach, the seismic
    level lies between 0 and 1 and the rebuild progress between 0 and
    100. *)
Theorem levels_in_range (e : Environment.t) :
  reachable e →
  (0 <= seismic_level e)%Q ∧ (seismic_level e <= 1)%Q
  ∧ (0 <= rebuild_progress e)%Q ∧ (rebuild_progress e <= 100)%Q.
Proof.
  apply levels_ranges.
Qed.

Lemma levels_in_range_witness :
  (seismic_level (trigger_disaster half_tape "flood" 7 None init 0%nat).1
   <= 1)%Q.
Proof.
  apply (levels_in_range
           (trigger_disaster half_tape "flood" 7 None init 0%nat).1).
  apply reach_trigger, reach_init.
Defined.

(** ** One tick of [update] *)

Lemma trigger_disaster_fields tape sc intensity given e pos :
  let e' := (trigger_disaster tape sc intensity given e pos).1 in
  time_step e' = 0 ∧ scenario e' = Some sc ∧ disaster e' = true
  ∧ victims_saved e' = 0
  ∧ total_victims_initial (stats e') = victims e'
  ∧ total_time_steps (stats e') = total_time_steps (stats e)
  ∧ disasters_completed (stats e') = disasters_completed (stats e).
Proof.
  unfold trigger_disaster, bind, ret.
  repeat match goal with
         | |- context [let '(_, _) := ?m in _] => destruct m as [? ?]
         end. done.
Qed.

Lemma clamp_nonneg_id e :
  0 ≤ victims e → nonneg (resources e) → clamp e = e.
Proof.
  intros Hv Hr. unfold clamp.
  assert (Hres : Z.max 0 <$> resources e = resources e).
  { apply map_eq. intros k. rewrite lookup_fmap.
    destruct (resources e !! k) as [v|] eqn:Hk; [|done]. simpl.
    f_equal. pose proof (Hr k v Hk) as H. simpl in H. lia. }
  rewrite Hres, Z.max_r by done. by destruct e.
Qed.

Lemma update_unfold tape e pos :
  (update tape e pos).1
  = match phase e with
    | idle => e
    | response => clamp (update_response tape (tick e) pos).1
    | rebuild => clamp (update_rebuild tape (tick e) pos).1
    | recovered => clamp (update_recovered tape (tick e) pos).1
    end.
Proof.
  unfold update, bind, ret. destruct (phase e); [done | | |].
  - by destruct (update_response tape (tick e) pos).
  - by destruct (update_rebuild tape (tick e) pos).
  - by destruct (update_recovered tape (tick e) pos).
Qed.

Lemma update_response_time tape e pos :
  time_step (update_response tape e pos).1 = time_step e
  ∧ total_time_steps (stats (update_response tape e pos).1)
    = total_time_steps (stats e).
Proof.
  unfold update_response, bind, ret. repeat draw.
  repeat case_match; simplify_eq/=; done.
Qed.

Lemma update_rebuild_time tape e pos :
  time_step (update_rebuild tape e pos).1 = time_step e
  ∧ total_time_steps (stats (update_rebuild tape e pos).1)
    = total_time_steps (stats e).
Proof.
  unfold update_rebuild, bind, ret. draw.
  repeat match goal with
         | |- context [let '(_, _) := ?m in _] => destruct m as [? ?]
         end.
  by case_match.
Qed.

(** X13.  Outside the idle phase every [update] adds exactly one to the
    running total of time steps, and one to the time step of the
    disaster, except on the tick that starts the next disaster out of
    the recovered phase, which restarts the time step at 0. *)
Theorem update_counts_time tape e pos :
  phase e ≠ idle →
  let e' := (update tape e pos).1 in
  total_time_steps (stats e') = total_time_steps (stats e) + 1
  ∧ (time_step e' = time_step e + 1
     ∨ (phase e = recovered ∧ cooldown_counter e ≤ 0
        ∧ phase e' = response ∧ time_step e' = 0)).
Proof.
  intros Hph e'. unfold e'. rewrite update_unfold.
  destruct (phase e) eqn:Hp; [done | | |].
  - destruct (update_response_time tape (tick e) pos) as [H1 H2].
    simpl. rewrite H1, H2. auto.
  - destruct (update_rebuild_time tape (tick e) pos) as [H1 H2].
    simpl. rewrite H1, H2. auto.
  - unfold update_recovered.
    destruct (0 <? cooldown_counter (tick e)) eqn:Hc; [simpl; auto|].
    apply Z.ltb_ge in Hc. unfold bind, ret.
    destruct (choice _ _ _ _) as [sc p1].
    destruct (random tape p1) as [u p2].
    pose proof (trigger_disaster_fields tape sc (py_round2 (u * 0.9 + 0.1))
                  None (tick e) p2) as (Ht & _ & _ & _ & _ & Hs & _).
    pose proof (EnvFacts.trigger_disaster_shape tape sc
                  (py_round2 (u * 0.9 + 0.1)) None (tick e) p2)
      as (Hr & _).
    destruct (trigger_disaster _ _ _ _ _ p2) as [e1 p3]. simpl in *.
    split; [by rewrite Hs|]. right. done.
Qed.

Lemma update_counts_time_witness :
  total_time_steps (stats (update half_tape flooded 0%nat).1)
  = total_time_steps (stats flooded) + 1.
Proof.
  apply (update_counts_time half_tape flooded 0%nat).
  intros H. vm_compute in H. discriminate.
Defined.

Lemma update_response_step tape e pos :
  in_ranges e →
  let e1 := (update_response tape e pos).1 in
  (seismic_level e - 0.1 <= seismic_level e1)%Q
  ∧ (seismic_level e1 <= seismic_level e)%Q
  ∧ victims e ≤ victims e1 ≤ victims e + 15
  ∧ (victims e1 ≠ victims e → aftershock e1 = true)
  ∧ resources e1 = resources e ∧ edges e1 = edges e
  ∧ (phase e1 = phase e
     ∨ (phase e1 = rebuild ∧ victims e1 ≤ 0 ∧ aftershock e1 = false
        ∧ (rebuild_progress e1 == 0)%Q
        ∧ stat_victims_saved (stats e1) = victims_saved e)).
Proof.
  intros (Hs0 & Hs1 & _ & _).
  unfold update_response, bind, ret. repeat draw.
  set (s1 := Qmax 0 (seismic_level e - u1 * 0.1)) in *.
  assert (Hs : (seismic_level e - 0.1 <= s1)%Q ∧ (s1 <= seismic_level e)%Q
               ∧ (0 <= s1)%Q ∧ (s1 <= 1)%Q).
  { unfold s1. repeat split.
    - apply Qle_trans with (seismic_level e - u1 * 0.1)%Q;
        [lra | apply Q.le_max_r].
    - apply Q.max_lub; lra.
    - apply Q.le_max_l.
    - apply Q.max_lub; lra. }
  destruct Hs as (Ha & Hb & Hc & Hd).
  assert (Hn : 5 ≤ py_int (10 * (0.5 + s1))%Q ≤ 15).
  { apply py_int_between; [lia | |].
    - change (inject_Z 5) with 5%Q. lra.
    - change (inject_Z 15) with 15%Q. lra. }
  destruct (Qltb u _) eqn:Hshock; cbv iota.
  - draw. destruct (Qltb u2 0.2) eqn:Hnew.
    + pose proof (EnvFacts.randint_range tape 1
                    (py_int (10 * (0.5 + s1))%Q) q2) as Hr.
      destruct (randint tape 1 _ q2) as [added q3]. simpl in Hr.
      rewrite andb_false_r. simpl.
      repeat split; auto; try lia; try done.
    + rewrite andb_false_r. simpl.
      repeat split; auto; try lia; try done.
  - rewrite andb_true_r.
    destruct (victims e <=? 0) eqn:Hv; simpl.
    + apply Z.leb_le in Hv.
      do 6 (split; [auto; try lia; try done|]).
      right. repeat split; auto; done.
    + repeat split; auto; try lia; try done.
Qed.

(** X14.  One tick of the response phase: the seismic level never
    rises and falls by at most 0.1; the environment adds victims only
    on an aftershock, at most 15 of them, and never takes any away;
    resources and roads are left as they are.  The phase stays
    response, or turns to rebuild when no victim was left and there was
    no aftershock, with the progress back at 0 and the saved victims
    entered in the statistics. *)
Theorem response_tick tape e pos :
  reachable e → phase e = response →
  let e' := (update tape e pos).1 in
  (seismic_level e - 0.1 <= seismic_level e')%Q
  ∧ (seismic_level e' <= seismic_level e)%Q
  ∧ victims e ≤ victims e' ≤ victims e + 15
  ∧ (victims e' ≠ victims e → aftershock e' = true)
  ∧ resources e' = resources e ∧ edges e' = edges e
  ∧ (phase e' = response
     ∨ (phase e' = rebuild ∧ victims e = 0 ∧ aftershock e' = false
        ∧ (rebuild_progress e' == 0)%Q
        ∧ stat_victims_saved (stats e') = victims_saved e)).
Proof.
  intros Hr Hph e'. unfold e'. rewrite update_unfold, Hph.
  pose proof (EnvFacts.reachable_inv e Hr) as [Hv Hres _ _ _].
  apply levels_ranges in Hr.
  pose proof (update_response_step tape (tick e) pos Hr)
    as (H1 & H2 & H3 & H4 & H5 & H6 & H7).
  simpl in H1, H2, H3, H4, H5, H6, H7.
  rewrite clamp_nonneg_id; [|lia|by rewrite H5].
  do 6 (split; [done|]).
  destruct H7 as [H7 | (? & ? & ? & ? & ?)]; [left; congruence|].
  right. repeat split; auto; lia.
Qed.

Lemma response_tick_witness :
  victims flooded ≤ victims (update half_tape flooded 0%nat).1.
Proof.
  apply (response_tick half_tape flooded 0%nat).
  - apply reach_trigger, reach_init.
  - apply EnvFacts.trigger_disaster_shape.
Defined.

(** ** The rebuild phase *)

Lemma edge_eased_unblock (es : list Edge) (l : list nat) :
  Forall2 edge_eased es
    (foldl (λ es idx, alter (set_blocked false) idx es) es l).
Proof.
  assert (Hstep : ∀ (es0 es1 : list Edge) i,
            Forall2 edge_eased es0 es1 →
            Forall2 edge_eased es0 (alter (set_blocked false) i es1)).
  { intros es0 es1 i H. revert i.
    induction H as [|ed ed' es0 es1 Hed Hes IH]; intros i.
    - destruct i; constructor.
    - destruct i as [|i]; simpl; constructor; auto; [|apply IH].
      destruct Hed as [->| ->]; by right. }
  assert (Hgen : ∀ es0 es1, Forall2 edge_eased es0 es1 →
            Forall2 edge_eased es0
              (foldl (λ es idx, alter (set_blocked false) idx es) es1 l)).
  { induction l as [|i l IH]; intros es0 es1 H; [done|].
    simpl. apply IH, Hstep, H. }
  apply Hgen. apply Forall2_same_length_lookup. split; [done|].
  intros i x y Hx Hy. left. congruence.
Qed.

Lemma edge_eased_unblock_all (es es' : list Edge) :
  Forall2 edge_eased es es' →
  set_blocked false <$> es' = set_blocked false <$> es.
Proof.
  induction 1 as [|ed ed' es es' Hed _ IH]; [done|].
  rewrite !fmap_cons, IH. f_equal. by destruct Hed as [->| ->].
Qed.

Lemma Qle_inject_Z (a b : Z) : (inject_Z a <= inject_Z b)%Q → a ≤ b.
Proof. intros H. by rewrite Zle_Qle. Qed.

Lemma Qlt_inject_Z (a b : Z) : (inject_Z a < inject_Z b)%Q → a < b.
Proof. intros H. by rewrite Zlt_Qlt. Qed.

Lemma restored_draw (v raw : Z) :
  0 ≤ v →
  restored v
    (Z.max 0 (py_int (inject_Z v
                      * (0.9 + Qmake (raw mod 2 ^ 53) (2 ^ 53) * 0.2))%Q)).
Proof.
  intros Hv.
  pose proof (Z.mod_pos_bound raw (2 ^ 53) eq_refl) as Hm.
  set (u := Qmake (raw mod 2 ^ 53) (2 ^ 53)).
  assert (Hu0 : (0 <= u)%Q) by (unfold u, Qle; simpl; lia).
  assert (Hu1 : (u < 1)%Q) by (unfold u, Qlt; simpl; lia).
  assert (Hiv : (0 <= inject_Z v)%Q) by by apply (inject_Z_le 0).
  set (x := (inject_Z v * (0.9 + u * 0.2))%Q).
  assert (Hx0 : (0 <= x)%Q) by (unfold x; nra).
  assert (Hx1 : (0.9 * inject_Z v <= x)%Q) by (unfold x; nra).
  assert (Hx2 : (x <= 1.1 * inject_Z v)%Q) by (unfold x; nra).
  rewrite py_int_floor by done.
  pose proof (Qfloor_le x) as Hf1. pose proof (Qlt_floor x) as Hf2.
  assert (Hf0 : 0 ≤ Qfloor x).
  { rewrite <- (Qfloor_Z 0). by apply Qfloor_resp_le. }
  rewrite Z.max_r by done. unfold restored. split; [done|]. split.
  - apply Qlt_inject_Z.
    rewrite inject_Z_plus in Hf2.
    unfold Z.sub. rewrite inject_Z_plus, !inject_Z_mult.
    change (inject_Z 9) with 9%Q. change (inject_Z 10) with 10%Q.
    change (inject_Z (- (10))) with (-10)%Q.
    change (inject_Z 1) with 1%Q in Hf2. lra.
  - apply Qle_inject_Z. rewrite !inject_Z_mult.
    change (inject_Z 11) with 11%Q. change (inject_Z 10) with 10%Q. lra.
Qed.

Lemma update_rebuild_step tape e pos :
  params e = default_params → in_ranges e →
  nonneg (resources e) → nonneg (initial_resources e) →
  let e1 := (update_rebuild tape e pos).1 in
  (rebuild_progress e <= rebuild_progress e1)%Q
  ∧ Forall2 edge_eased (edges e) (edges e1)
  ∧ ((phase e1 = phase e ∧ (rebuild_progress e1 < 100)%Q
      ∧ victims e1 = victims e
      ∧ 0 ≤ count "repair_crews" e1 ≤ count "repair_crews" e
      ∧ (∀ k, k ≠ "repair_crews"%string →
              resources e1 !! k = resources e !! k))
     ∨ (phase e1 = recovered ∧ (100 <= rebuild_progress e1)%Q
        ∧ edges e1 = set_blocked false <$> edges e
        ∧ victims e1 = 0 ∧ (seismic_level e1 == 0)%Q
        ∧ disaster e1 = false ∧ roads_blocked e1 = false
        ∧ affected_nodes e1 = [] ∧ affected_edges e1 = []
        ∧ 2 ≤ cooldown_counter e1 ≤ 6
        ∧ disasters_completed (stats e1) = disasters_completed (stats e) + 1
        ∧ ∀ k, match initial_resources e !! k with
               | Some v => ∃ v', resources e1 !! k = Some v' ∧ restored v v'
               | None => resources e1 !! k = None
               end)).
Proof.
  intros Hpar (Hs0 & Hs1 & Hp0 & Hp1) Hres Hini.
  unfold update_rebuild, bind, ret. rewrite Hpar. draw.
  pose proof (inject_Z_max0 (default 0 (resources e !! "repair_crews"))) as Hc.
  pose proof (inject_Z_max0 (default 0 (resources e !! "drones"))) as Hd.
  set (c := inject_Z (0 `max` default 0 (resources e !! "repair_crews"))) in *.
  set (d := inject_Z (0 `max` default 0 (resources e !! "drones"))) in *.
  assert (Hinc : (0 <= (c * rebuild_factor_per_crew default_params + d * 0.15)
                       * (0.8 + u * 0.4))%Q).
  { change (rebuild_factor_per_crew default_params) with 2.0%Q. nra. }
  set (inc := ((c * rebuild_factor_per_crew default_params + d * 0.15)
               * (0.8 + u * 0.4))%Q) in *.
  assert (Hp : (rebuild_progress e <= Qmin 100 (rebuild_progress e + inc))%Q)
    by (apply Q.min_glb; lra).
  assert (Hhave : 0 ≤ default 0 (resources e !! "repair_crews")).
  { destruct (resources e !! "repair_crews") as [v|] eqn:Hk; simpl; [|lia].
    apply (Hres _ _ Hk). }
  destruct (shuffle tape _ q) as [shuffled p1].
  set (es1 := foldl (λ es idx, alter (set_blocked false) idx es) (edges e)
                    (py_slice_to (py_floordiv inc 5) shuffled)).
  assert (Hes : Forall2 edge_eased (edges e) es1) by apply edge_eased_unblock.
  destruct (Qle_bool (rebuild_required default_params) _) eqn:Hdone.
  - apply Qle_bool_iff in Hdone.
    match goal with
    | |- context [draw_each ?t ?f ?m ?p] =>
        pose proof (λ k, draw_each_lookup t f m p k) as Hdraw;
        destruct (draw_each t f m p) as [res' p2]
    end.
    pose proof (EnvFacts.randint_range tape 2 6 p2) as Hcd.
    destruct (randint tape 2 6 p2) as [cd p3]. simpl in *.
    split; [done|]. split.
    { apply Forall2_fmap_r. eapply Forall2_impl; [exact Hes|].
      intros ed ed' [->| ->]; by right. }
    right. split; [done|]. split; [done|].
    split; [by apply edge_eased_unblock_all|].
    do 6 (split; [done|]). split; [lia|]. split; [done|].
    intros k. destruct (Hdraw k) as [raw Hraw]. rewrite Hraw.
    destruct (initial_resources e !! k) as [v|] eqn:Hk; [|done].
    simpl. eexists. split; [done|]. apply restored_draw.
    apply (Hini _ _ Hk).
  - simpl. split; [done|]. split; [done|]. left.
    split; [done|]. split.
    { apply Qnot_le_lt. intros H. apply not_true_iff_false in Hdone.
      apply Hdone, Qle_bool_iff. exact H. }
    split; [done|]. unfold count. simpl. rewrite lookup_insert_eq. simpl.
    split; [lia|].
    intros k Hk. by rewrite lookup_insert_ne.
Qed.

Lemma rebuild_tick_cases tape e pos :
  reachable e → phase e = rebuild →
  let e' := (update tape e pos).1 in
  (rebuild_progress e <= rebuild_progress e')%Q
  ∧ Forall2 edge_eased (edges e) (edges e')
  ∧ ((phase e' = rebuild ∧ (rebuild_progress e' < 100)%Q
      ∧ victims e' = victims e
      ∧ 0 ≤ count "repair_crews" e' ≤ count "repair_crews" e
      ∧ (∀ k, k ≠ "repair_crews"%string →
              resources e' !! k = resources e !! k))
     ∨ (phase e' = recovered ∧ (100 <= rebuild_progress e')%Q
        ∧ edges e' = set_blocked false <$> edges e
        ∧ victims e' = 0 ∧ (seismic_level e' == 0)%Q
        ∧ disaster e' = false ∧ roads_blocked e' = false
        ∧ affected_nodes e' = [] ∧ affected_edges e' = []
        ∧ 2 ≤ cooldown_counter e' ≤ 6
        ∧ disasters_completed (stats e')
          = disasters_completed (stats e) + 1
        ∧ ∀ k, match initial_resources e !! k with
               | Some v => ∃ v', resources e' !! k = Some v' ∧ restored v v'
               | None => resources e' !! k = None
               end)).
Proof.
  intros Hr Hph e'. unfold e'. rewrite update_unfold, Hph.
  pose proof (EnvFacts.reachable_inv e Hr) as [Hv Hres Hini _ Hpar].
  apply levels_ranges in Hr.
  pose proof (update_rebuild_step tape (tick e) pos Hpar Hr Hres Hini)
    as (H1 & H2 & H3).
  set (e1 := (update_rebuild tape (tick e) pos).1) in *.
  assert (Hid : clamp e1 = e1).
  { apply clamp_nonneg_id.
    - destruct H3 as [(_ & _ & -> & _) | (_ & _ & _ & -> & _)]; simpl; lia.
    - intros k v Hk. simpl.
      destruct H3 as [(_ & _ & _ & Hc & Hsame) | H3].
      + destruct (decide (k = "repair_crews"%string)) as [->|Hne].
        * unfold count in Hc. rewrite Hk in Hc. simpl in Hc. lia.
        * rewrite (Hsame k Hne) in Hk. apply (Hres _ _ Hk).
      + destruct H3 as (_ & _ & _ & _ & _ & _ & _ & _ & _ & _ & _ & Hrest).
        specialize (Hrest k). simpl in Hrest.
        destruct (initial_resources e !! k); [|congruence].
        destruct Hrest as (v' & Hv' & Hr' & _). congruence. }
  rewrite Hid. split; [done|]. split; [done|].
  destruct H3 as [(Hp & H3) | H3]; [left | right; done].
  split; [by rewrite Hp | done].
Qed.

(** X15.  One tick of the rebuild phase: the progress never falls and
    never passes 100; roads are only ever unblocked, never blocked; the
    phase stays rebuild or turns to recovered.  While it stays rebuild
    the progress is below 100, the victims are untouched, the repair
    crews do not grow (crews rotate out) and no other resource
    changes. *)
Theorem rebuild_tick tape e pos :
  reachable e → phase e = rebuild →
  let e' := (update tape e pos).1 in
  (rebuild_progress e <= rebuild_progress e')%Q
  ∧ (rebuild_progress e' <= 100)%Q
  ∧ Forall2 edge_eased (edges e) (edges e')
  ∧ (phase e' = rebuild ∨ phase e' = recovered)
  ∧ (phase e' = rebuild →
     (rebuild_progress e' < 100)%Q ∧ victims e' = victims e
     ∧ 0 ≤ count "repair_crews" e' ≤ count "repair_crews" e
     ∧ ∀ k, k ≠ "repair_crews"%string →
            resources e' !! k = resources e !! k).
Proof.
  intros Hr Hph e'.
  destruct (rebuild_tick_cases tape e pos Hr Hph) as (H1 & H2 & H3).
  fold e' in H1, H2, H3.
  assert (Hr' : reachable e') by by apply reach_update.
  apply levels_ranges in Hr'. destruct Hr' as (_ & _ & _ & Hle).
  do 3 (split; [done|]).
  destruct H3 as [(Hp & H3) | (Hp & _)].
  - split; [by left|]. intros _. exact H3.
  - split; [by right|]. intros H. congruence.
Qed.

Lemma rebuild_tick_witness :
  (rebuild_progress rebuilding
   <= rebuild_progress (update half_tape rebuilding 0%nat).1)%Q.
Proof.
  assert (Hr : reachable rebuilding)
    by apply reach_update, reach_save_victims, reach_trigger, reach_init.
  assert (Hph : phase rebuilding = rebuild) by (vm_compute; reflexivity).
  exact (proj1 (rebuild_tick half_tape rebuilding 0%nat Hr Hph)).
Defined.

(** X16.  The tick that completes the rebuild (progress at 100 or more)
    closes the disaster: every road is unblocked, the affected nodes and
    edges are cleared, victims and seismic level are 0, the count of
    completed disasters goes up by one, a cooldown of 2 to 6 ticks is
    drawn, and every resource is restored to the integer part of its
    count in the initial snapshot times a factor between 0.9 and 1.1. *)
Theorem rebuild_completion tape e pos :
  reachable e → phase e = rebuild →
  phase (update tape e pos).1 = recovered →
  let e' := (update tape e pos).1 in
  (100 <= rebuild_progress e')%Q
  ∧ edges e' = set_blocked false <$> edges e
  ∧ victims e' = 0 ∧ (seismic_level e' == 0)%Q
  ∧ disaster e' = false ∧ roads_blocked e' = false
  ∧ affected_nodes e' = [] ∧ affected_edges e' = []
  ∧ 2 ≤ cooldown_counter e' ≤ 6
  ∧ disasters_completed (stats e') = disasters_completed (stats e) + 1
  ∧ ∀ k, match initial_resources e !! k with
         | Some v => ∃ v', resources e' !! k = Some v' ∧ restored v v'
         | None => resources e' !! k = None
         end.
Proof.
  intros Hr Hph Hrec e'.
  destruct (rebuild_tick_cases tape e pos Hr Hph) as (_ & _ & H3).
  fold e' in H3, Hrec.
  destruct H3 as [(Hp & _) | (_ & H3)]; [congruence | exact H3].
Qed.

Lemma rebuild_completion_witness :
  phase well_staffed = rebuild
  ∧ phase (update half_tape well_staffed 0%nat).1 = recovered
  ∧ 2 ≤ cooldown_counter (update half_tape well_staffed 0%nat).1 ≤ 6
  ∧ affected_nodes (update half_tape well_staffed 0%nat).1 = [].
Proof.
  assert (Hr : reachable well_staffed)
    by apply reach_update, reach_save_victims, reach_trigger, reach_init.
  assert (Hph : phase well_staffed = rebuild) by (vm_compute; reflexivity).
  assert (Hrec : phase (update half_tape well_staffed 0%nat).1 = recovered)
    by (vm_compute; reflexivity).
  pose proof (rebuild_completion half_tape well_staffed 0%nat Hr Hph Hrec)
    as (_ & _ & _ & _ & _ & _ & Han & _ & Hcd & _).
  exact (conj Hph (conj Hrec (conj Hcd Han))).
Defined.

(** ** The recovered phase *)

Lemma py_round2_range (x : Q) :
  (0.1 <= x)%Q → (x < 1)%Q →
  (0.1 <= py_round2 x)%Q ∧ (py_round2 x <= 1)%Q.
Proof.
  intros Hl Hu. unfold py_round2.
  set (f := Qfloor (x * 100)).
  assert (Hf : 10 ≤ f ≤ 99).
  { unfold f. split.
    - rewrite <- (Qfloor_Z 10). apply Qfloor_resp_le.
      change (inject_Z 10) with 10%Q. lra.
    - assert (H : f < 100); [|unfold f in H; lia].
      apply Qlt_inject_Z. unfold f.
      apply Qle_lt_trans with (x * 100)%Q; [apply Qfloor_le|].
      change (inject_Z 100) with 100%Q. lra. }
  assert (Hn : ∀ n, 10 ≤ n ≤ 100 → (0.1 <= n # 100)%Q ∧ (n # 100 <= 1)%Q).
  { intros n Hn. unfold Qle. simpl. lia. }
  destruct (Qcompare _ _); [destruct (Z.even f)| |]; apply Hn; lia.
Qed.

Lemma choice_elem_of {A} tape (dflt : A) (l : list A) pos :
  l ≠ [] → (choice tape dflt l pos).1 ∈ l.
Proof.
  intros Hl. unfold choice, randbelow, bind, ret. simpl.
  assert (Hlen : 0 < Z.of_nat (length l)) by (destruct l; [done|simpl; lia]).
  pose proof (Z.mod_pos_bound (tape pos) _ Hlen) as Hm.
  apply list_elem_of_In, nth_In. lia.
Qed.

(** X17.  The recovered phase counts its cooldown down: a tick that
    finds the counter above 0 lowers it by one and changes nothing else
    but the clocks; the tick that finds it at 0 starts the next
    disaster by itself, an earthquake, a flood or a wildfire of an
    intensity between 0.1 and 1, with at least 10 victims and the time
    step back at 0. *)
Theorem recovered_tick tape e pos :
  reachable e → phase e = recovered →
  let e' := (update tape e pos).1 in
  (0 < cooldown_counter e →
   e' = set_cooldown_counter (cooldown_counter e - 1) (tick e))
  ∧ (cooldown_counter e ≤ 0 →
     phase e' = response
     ∧ (∃ sc, sc ∈ ["earthquake"; "flood"; "wildfire"]%string
              ∧ scenario e' = Some sc)
     ∧ (0.1 <= seismic_level e')%Q ∧ (seismic_level e' <= 1)%Q
     ∧ time_step e' = 0 ∧ 10 ≤ victims e' ∧ victims_saved e' = 0).
Proof.
  intros Hr Hph e'. unfold e'. rewrite update_unfold, Hph.
  pose proof (EnvFacts.reachable_inv e Hr) as [Hv Hres _ _ _].
  unfold update_recovered. split; intros Hc.
  - rewrite (proj2 (Z.ltb_lt _ _)) by done. simpl.
    by rewrite clamp_nonneg_id.
  - rewrite (proj2 (Z.ltb_ge _ _)) by done. unfold bind, ret.
    pose proof (choice_elem_of tape "earthquake"%string
                  ["earthquake"; "flood"; "wildfire"]%string pos) as Hsc.
    destruct (choice _ _ _ pos) as [sc p1]. simpl in Hsc.
    draw.
    destruct (py_round2_range (u * 0.9 + 0.1)) as [Hi0 Hi1]; [lra | lra |].
    set (i := py_round2 (u * 0.9 + 0.1)) in *.
    pose proof (trigger_disaster_fields tape sc i None (tick e) q)
      as (Ht & Hs & _ & Hvs & _).
    pose proof (EnvFacts.trigger_disaster_shape tape sc i None (tick e) q)
      as (Hp & Hv10 & _ & _ & _ & Hnn).
    destruct (trigger_disaster_area tape sc i None (tick e) q)
      as (_ & _ & _ & _ & _ & Hsl).
    set (e1 := (trigger_disaster tape sc i None (tick e) q).1) in *.
    rewrite clamp_nonneg_id; [|lia|by apply Hnn].
    split; [done|]. split; [exists sc; split; [by apply Hsc|done]|].
    rewrite Hsl. split.
    { apply Qle_trans with (Qmin 1 i); [|apply Q.le_max_r].
      apply Q.min_glb; lra. }
    split; [apply clamp_unit|]. done.
Qed.

Lemma recovered_tick_witness :
  (update half_tape cooling 0%nat).1
  = set_cooldown_counter (cooldown_counter cooling - 1) (tick cooling).
Proof.
  assert (Hr : reachable cooling)
    by apply reach_update, reach_update, reach_save_victims, reach_trigger,
       reach_init.
  assert (Hph : phase cooling = recovered) by (vm_compute; reflexivity).
  assert (Hc : 0 < cooldown_counter cooling) by (vm_compute; reflexivity).
  exact (proj1 (recovered_tick half_tape cooling 0%nat Hr Hph) Hc).
Defined.

(** ** The books of the ledger *)

Lemma responding_reachable e : responding e → reachable e.
Proof.
  induction 1; [by apply reach_trigger | by apply reach_use_resource
               | by apply reach_save_victims | by apply reach_utility_act
               | by apply reach_update].
Qed.

Lemma balanced_ledger e e' :
  initial_resources e' = initial_resources e →
  resources e' = resources e → resources_used e' = resources_used e →
  balanced e → balanced e'.
Proof. unfold balanced. intros -> -> ->. done. Qed.

Lemma use_resource_balanced name amount e :
  balanced e → balanced (use_resource name amount e).1.
Proof.
  intros Hb. unfold use_resource.
  destruct (resources e !! name) as [have|] eqn:Hk; [|done].
  intros k. specialize (Hb k). simpl.
  destruct (decide (k = name)) as [->|Hne].
  - rewrite !lookup_insert_eq.
    destruct (initial_resources e !! name) as [ini|].
    + destruct Hb as (v & u & Hv & Hu & Hsum). rewrite Hu. simpl.
      eexists _, _. split; [done|]. split; [done|].
      rewrite Hk in Hv. injection Hv as <-. lia.
    + destruct Hb as [Hv _]. congruence.
  - by rewrite !lookup_insert_ne.
Qed.

Lemma utility_consume_balanced alloc e :
  balanced e → balanced (UtilityAgent.consume alloc e).
Proof.
  unfold UtilityAgent.consume. apply (EnvFacts.foldl_inv _ balanced).
  intros acc kv Hacc. destruct kv.2; try done.
  destruct (0 <? z); [|done]. by apply use_resource_balanced.
Qed.

Lemma utility_act_balanced time_time e b st :
  balanced e → balanced (UtilityAgent.act time_time e b st).1.1.
Proof.
  intros Hb. destruct (EnvFacts.utility_act_env time_time e b st) as [ds ->].
  apply (EnvFacts.foldl_fst_inv _ balanced); [|exact Hb].
  intros acc d Hacc. unfold UtilityAgent.execute.
  destruct (String.eqb _ _); [|done].
  destruct (0 <? _); [|by apply utility_consume_balanced].
  apply (utility_consume_balanced
           (Agent.get_dict "allocation" (Agent.intent_payload d))) in Hacc.
  unfold save_victims. simpl. exact Hacc.
Qed.

Lemma update_response_ledger tape e pos :
  initial_resources (update_response tape e pos).1 = initial_resources e
  ∧ resources (update_response tape e pos).1 = resources e
  ∧ resources_used (update_response tape e pos).1 = resources_used e.
Proof.
  unfold update_response, bind, ret. repeat draw.
  repeat case_match; simplify_eq/=; done.
Qed.

(** X18.  The books balance throughout a response: from the
    [trigger_disaster] that starts it, through every [use_resource]
    (of any amount), [save_victims], act of the utility agent and tick
    of the response phase, each resource of the initial snapshot has a
    count left and a count used that add up to its initial count, and
    the ledger holds no other resource. *)
Theorem response_books_balance (e : Environment.t) :
  responding e →
  ∀ k, match initial_resources e !! k with
       | Some ini =>
           ∃ v u, resources e !! k = Some v
                  ∧ resources_used e !! k = Some u ∧ v + u = ini
       | None => resources e !! k = None ∧ resources_used e !! k = None
       end.
Proof.
  change (responding e → balanced e).
  induction 1 as [e tape pos sc i g Hr|e name amount He IH|e count He IH
                  |e tt b st He IH|e tape pos He IH Hph].
  - destruct (trigger_disaster_resources tape sc i g e pos)
      as (_ & _ & Hini & Hused).
    intros k. rewrite Hini, Hused, lookup_fmap.
    destruct (resources _ !! k) as [v|]; [|done]. simpl.
    exists v, 0. split; [done|]. split; [done|]. lia.
  - by apply use_resource_balanced.
  - done.
  - by apply utility_act_balanced.
  - rewrite update_unfold, Hph.
    destruct (update_response_ledger tape (tick e) pos) as (H1 & H2 & H3).
    simpl in H1, H2, H3.
    pose proof (EnvFacts.reachable_inv e (responding_reachable e He))
      as [_ Hres _ _ _].
    eapply balanced_ledger; [| | |exact IH]; simpl; rewrite ?H1, ?H2, ?H3;
      try done.
    apply map_eq. intros k. rewrite lookup_fmap.
    destruct (resources e !! k) as [v|] eqn:Hk; [|reflexivity]. simpl.
    f_equal. pose proof (Hres k v Hk) as H. simpl in H. lia.
Qed.

Lemma response_books_balance_witness :
  ∃ v u,
    resources (use_resource "food_packs" 7 flooded).1 !! "food_packs" = Some v
    ∧ resources_used (use_resource "food_packs" 7 flooded).1 !! "food_packs"
      = Some u
    ∧ v + u = 101.
Proof.
  assert (Hr : responding (use_resource "food_packs" 7 flooded).1)
    by apply resp_use_resource, resp_trigger, reach_init.
  pose proof (response_books_balance _ Hr "food_packs"%string) as H.
  assert (Hini : initial_resources (use_resource "food_packs" 7 flooded).1
                 !! "food_packs" = Some 101) by (vm_compute; reflexivity).
  rewrite Hini in H. exact H.
Defined.

End EnvDynamicsFacts.

(* ===================================================================== *)
(** * Behaviour of the agents *)
(* ===================================================================== *)

Module AgentBehaviourFacts.
Import MessageBus Environment Agent EnvSpec AgentSpec AgentBehaviour.

(** ** The reflex agent *)

(** X19.  In the response phase of an active disaster the reflex agent
    raises exactly one alert per time step: the first [decide] at a time
    step returns one [alert] intent and remembers the step, and a
    repeated [decide] at the same step returns nothing.  The alert has
    priority 10 when there is an aftershock or the seismic level has
    reached the threshold, and priority 5 otherwise. *)
Theorem reflex_one_alert_per_step (obs : Observation)
    (st : ReflexAgent.state) :
  phase (obs_env obs) = response → disaster (obs_env obs) = true →
  time_step (obs_env obs) ≠ ReflexAgent.last_alert_step st →
  let e := obs_env obs in
  ∃ payload prio,
    ReflexAgent.decide obs st
    = ([mkIntent "alert" payload prio], ReflexAgent.mkState (time_step e))
    ∧ ReflexAgent.decide obs (ReflexAgent.decide obs st).2
      = ([], ReflexAgent.mkState (time_step e))
    ∧ prio = (if aftershock e
                 || Qle_bool (seismic_threshold (params e)) (seismic_level e)
              then 10 else 5)
    ∧ dict_get "time_step" payload = Some (PInt (time_step e))
    ∧ dict_get "affected_areas" payload
      = Some (PInt (Z.of_nat (length (affected_nodes e)))).
Proof.
  intros Hph Hd Hts e. subst e. unfold ReflexAgent.decide. cbv zeta.
  rewrite Hph, Hd. rewrite bool_decide_eq_true_2 by done. cbn [negb].
  rewrite (proj2 (Z.eqb_neq _ _)) by done.
  eexists _, _. split; [reflexivity|]. cbn [snd ReflexAgent.last_alert_step].
  rewrite Z.eqb_refl. split; [done|]. split; [|done].
  destruct (aftershock _); [done|].
  destruct (Qle_bool (seismic_threshold _) _); [|done].
  by destruct (Qle_bool 0.8 _).
Qed.

Lemma reflex_one_alert_per_step_witness :
  ∃ payload prio,
    ReflexAgent.decide flood_obs ReflexAgent.init
    = ([mkIntent "alert" payload prio],
       ReflexAgent.mkState (time_step (obs_env flood_obs))).
Proof.
  assert (Hph : phase (obs_env flood_obs) = response)
    by (vm_compute; reflexivity).
  assert (Hd : disaster (obs_env flood_obs) = true)
    by (vm_compute; reflexivity).
  assert (Hts : time_step (obs_env flood_obs)
                ≠ ReflexAgent.last_alert_step ReflexAgent.init)
    by (vm_compute; discriminate).
  destruct (reflex_one_alert_per_step flood_obs ReflexAgent.init Hph Hd Hts)
    as (payload & prio & H & _).
  exists payload, prio. exact H.
Defined.

(** ** The reconnaissance drones *)

Lemma scanned_fold (l : list Z) (s : gset Z) :
  foldl (λ s v, match v with PInt n => {[n]} ∪ s | _ => s end) s
        (PInt <$> l)
  = list_to_set l ∪ s.
Proof.
  revert s. induction l as [|x l IH]; intros s; simpl.
  - set_solver.
  - rewrite IH. set_solver.
Qed.

Lemma py_slice_to_take {A} (k : Z) (l : list A) :
  0 ≤ k → py_slice_to k l = take (Z.to_nat k) l.
Proof.
  intros Hk. unfold py_slice_to. rewrite (proj2 (Z.ltb_ge _ _)) by lia.
  destruct (decide (k ≤ Z.of_nat (length l))).
  - by rewrite Z.min_l by lia.
  - rewrite Z.min_r by lia. rewrite Nat2Z.id.
    rewrite !take_ge; [done | lia | lia].
Qed.

Lemma drone_decide_scanning (obs : Observation) (st : DroneReconAgent.state) :
  let e := obs_env obs in
  let unscanned : gset Z :=
    list_to_set (affected_nodes e) ∖ DroneReconAgent.scanned_nodes st in
  let batch := take (Z.to_nat (count "drones" e * 2)) (elements unscanned) in
  phase e = response → 0 < count "drones" e → unscanned ≠ ∅ →
  ∃ payload start,
    DroneReconAgent.decide obs st
    = ([mkIntent "recon" payload 7],
       DroneReconAgent.mkState (DroneReconAgent.scanned_nodes st)
         (DroneReconAgent.recon_complete st) start)
    ∧ dict_get "nodes_scanned" payload = Some (PList (PInt <$> batch))
    ∧ batch ≠ [].
Proof.
  intros e unscanned batch Hph Hd Hun.
  unfold DroneReconAgent.decide. fold e. rewrite Hph.
  rewrite bool_decide_eq_true_2 by done. cbn [negb].
  fold (count "drones" e). rewrite (proj2 (Z.leb_gt _ _)) by done.
  fold unscanned. rewrite (bool_decide_eq_false_2 _ Hun). cbn [andb].
  unfold DroneReconAgent.SCAN_RADIUS.
  rewrite py_slice_to_take by lia. fold batch.
  assert (Hb : batch ≠ []).
  { unfold batch. intros H.
    apply (f_equal length) in H. rewrite length_take in H. simpl in H.
    assert (length (elements unscanned) ≠ 0%nat).
    { intros H0. apply Hun, leibniz_equiv, elements_empty_inv.
      by apply nil_length_inv. }
    lia. }
  destruct batch as [|x batch'] eqn:E; [done|].
  eexists _, _. split; [reflexivity|]. split; [reflexivity|done].
Qed.

(** X20.  One act of the drone agent in the response phase with drones
    at hand.  While affected nodes remain unscanned it scans a batch of
    them, two per drone or all that remain, none of them twice, adds
    exactly the batch to its scanned set and reports it in one [recon]
    message.  Once every affected node is scanned it reports
    [recon_complete], sets its flag, and stays silent afterwards. *)
Theorem drone_scan_progress time_time (e : Environment.t)
    (b : MessageBus.t) (st : DroneReconAgent.state) :
  phase e = response → 0 < count "drones" e →
  let unscanned : gset Z :=
    list_to_set (affected_nodes e) ∖ DroneReconAgent.scanned_nodes st in
  let r := DroneReconAgent.act time_time e b st in
  (unscanned ≠ ∅ →
   ∃ batch,
     NoDup batch ∧ (∀ x, x ∈ batch → x ∈ unscanned)
     ∧ Z.of_nat (length batch)
       = Z.min (count "drones" e * 2) (Z.of_nat (size unscanned))
     ∧ DroneReconAgent.scanned_nodes r.2
       = list_to_set batch ∪ DroneReconAgent.scanned_nodes st
     ∧ DroneReconAgent.recon_complete r.2
       = DroneReconAgent.recon_complete st
     ∧ msg_type <$> new_messages b r.1 = ["recon"]%string)
  ∧ (unscanned = ∅ → affected_nodes e ≠ [] →
     DroneReconAgent.scanned_nodes r.2 = DroneReconAgent.scanned_nodes st
     ∧ DroneReconAgent.recon_complete r.2 = true
     ∧ msg_type <$> new_messages b r.1
       = if DroneReconAgent.recon_complete st then []
         else ["recon_complete"]%string).
Proof.
  intros Hph Hd unscanned r. split.
  - intros Hun.
    destruct (drone_decide_scanning (sense DroneReconAgent.name e b) st
                Hph Hd Hun) as (payload & start & Hdec & Hpl & Hne).
    cbn [obs_env sense get_observation] in Hpl, Hne.
    unfold get_observation in Hpl, Hne. fold unscanned in Hpl, Hne.
    set (batch := take (Z.to_nat (count "drones" e * 2))
                       (elements unscanned)) in *.
    exists batch.
    assert (Hnd : NoDup batch)
      by apply (sublist_NoDup _ _ (NoDup_elements unscanned)), sublist_take.
    split; [done|]. split.
    { intros x Hx. apply elem_of_elements.
      by apply (subseteq_take (Z.to_nat (count "drones" e * 2))). }
    split.
    { unfold batch. rewrite length_take. unfold size, set_size. simpl. lia. }
    unfold r, DroneReconAgent.act. rewrite Hdec. cbn [foldl fst snd].
    cbn [intent_type intent_payload intent_priority].
    change (String.eqb "recon" "recon") with true. cbv iota.
    rewrite Hpl. cbn [DroneReconAgent.scanned_nodes
                      DroneReconAgent.recon_complete].
    rewrite scanned_fold. split; [done|]. split; [done|].
    rewrite (AgentFacts.new_messages_app b _ _ (AgentFacts.emit_messages _ _ _ _ _ _)).
    done.
  - intros Hun Haff. unfold r, DroneReconAgent.act, DroneReconAgent.decide.
    cbn [obs_env sense get_observation]. unfold get_observation.
    rewrite Hph. rewrite bool_decide_eq_true_2 by done. cbn [negb].
    fold (count "drones" e). rewrite (proj2 (Z.leb_gt _ _)) by done.
    fold unscanned. rewrite (bool_decide_eq_true_2 _ Hun).
    assert (Hlen : Nat.eqb (length (affected_nodes e)) 0 = false).
    { apply Nat.eqb_neq. by destruct (affected_nodes e). }
    rewrite Hlen. cbn [negb andb].
    destruct (DroneReconAgent.recon_complete st) eqn:Hc.
    + cbn [foldl fst snd DroneReconAgent.scanned_nodes
           DroneReconAgent.recon_complete].
      split; [done|]. split; [done|].
      unfold new_messages. by rewrite drop_all.
    + cbn [foldl fst snd intent_type intent_payload intent_priority].
      change (String.eqb "recon_complete" "recon") with false. cbv iota.
      cbn [fst snd DroneReconAgent.scanned_nodes
           DroneReconAgent.recon_complete].
      split; [done|]. split; [done|].
      rewrite (AgentFacts.new_messages_app b _ _ (AgentFacts.emit_messages _ _ _ _ _ _)).
      done.
Qed.

Lemma drone_scan_progress_witness :
  ∃ batch,
    NoDup batch
    ∧ DroneReconAgent.scanned_nodes
        (DroneReconAgent.act still_clock EnvDynamics.flooded
           (MessageBus.new 500) DroneReconAgent.init).2
      = list_to_set batch
        ∪ DroneReconAgent.scanned_nodes DroneReconAgent.init.
Proof.
  assert (Hph : phase EnvDynamics.flooded = response)
    by (vm_compute; reflexivity).
  assert (Hd : 0 < count "drones" EnvDynamics.flooded)
    by (vm_compute; reflexivity).
  assert (Hun : (list_to_set (affected_nodes EnvDynamics.flooded)
                 ∖ DroneReconAgent.scanned_nodes DroneReconAgent.init
                 : gset Z) ≠ ∅).
  { assert (Hin : bool_decide (3 ∈ affected_nodes EnvDynamics.flooded) = true)
      by (vm_compute; reflexivity).
    apply bool_decide_eq_true in Hin.
    assert (H3 : (3 : Z) ∈ (list_to_set (affected_nodes EnvDynamics.flooded)
                            ∖ DroneReconAgent.scanned_nodes
                                DroneReconAgent.init : gset Z)).
    { apply elem_of_difference. split; [by apply elem_of_list_to_set|].
      apply (not_elem_of_empty (C := gset Z)). }
    intros H. rewrite H in H3. exact (not_elem_of_empty _ H3). }
  destruct (proj1 (drone_scan_progress still_clock EnvDynamics.flooded
                     (MessageBus.new 500) DroneReconAgent.init Hph Hd) Hun)
    as (batch & Hnd & _ & _ & Hs & _).
  exists batch. exact (conj Hnd Hs).
Defined.

End AgentBehaviourFacts.
